(** * Audio visualizer back end: metadata resolution, caching and track search

    A shallow embedding of the song-info serverless function
    (normalizeForUrl, extractSongInfo, getCache, setCache, fetchSongInfo and
    its handler), of the parsing loop of the Express scraper (scrapeSongBPM),
    of the candidate scoring of the Express search route (searchSpotifyAPI)
    and of the search serverless function (getSpotifyToken, searchSpotify and
    its handler); then of the rest of the Express scraper (createSlug,
    findSongBPMUrl, getBPM and its route), of the Express search route
    (parseSongQuery, searchSpotifyAPI and its route) and of the token helper
    it calls (getAccessToken).

    Conventions.
    - A JavaScript string is a [string] of code units below 256 (ASCII and
      Latin-1); [\s], [trim] and [toLowerCase] are the JavaScript ones on
      that range.
    - The in-memory [Map] is an association list in insertion order; the
      persistent key-value store is a [gmap].
    - The numbers of the track search (popularity, scores) are IEEE 754
      doubles, the primitive [float]; tempo values, instants, sizes and
      status codes are integers.
    - Where the code calls a string method on a value of [req.query], the
      value is absent, a string, or an array of strings.
    - [Date.now()], the key-value store's availability and the HTTP
      responses are inputs, gathered in an environment record.
    - Code that can throw is written in a state-and-exception monad. *)

From Stdlib Require Import Floats ZArith Bool List Ascii String Lia.
From stdpp Require Import gmap strings.

Import ListNotations.
Local Open Scope Z_scope.
Local Open Scope string_scope.

(* ===================================================================== *)
(** ** JavaScript strings *)
(* ===================================================================== *)

Module Js.

Definition code (c : ascii) : N := N_of_ascii c.

Definition between (lo hi : N) (c : ascii) : bool :=
  ((lo <=? code c) && (code c <=? hi))%N.

(** [\d], [[a-z]], [[A-Z]]. *)
Definition isDigit (c : ascii) : bool := between 48 57 c.
Definition isLower (c : ascii) : bool := between 97 122 c.
Definition isUpper (c : ascii) : bool := between 65 90 c.

(** [\s], which is also what [trim] strips: TAB, LF, VT, FF, CR, SPACE and
    NBSP. *)
Definition isSpace (c : ascii) : bool :=
  between 9 13 c || (code c =? 32)%N || (code c =? 160)%N.

(** The characters that [.] refuses. *)
Definition isLineTerminator (c : ascii) : bool :=
  (code c =? 10)%N || (code c =? 13)%N.

Definition isHyphen (c : ascii) : bool := (code c =? 45)%N.

(** [toLowerCase] on one code unit: A-Z, and the Latin-1 capitals
    (U+00C0..U+00DE without the multiplication sign). *)
Definition lowerChar (c : ascii) : ascii :=
  if isUpper c || (between 192 222 c && negb (code c =? 215)%N)
  then ascii_of_N (code c + 32) else c.

(** [toUpperCase], used by the code on key names only (ASCII letters). *)
Definition upperChar (c : ascii) : ascii :=
  if isLower c then ascii_of_N (code c - 32) else c.

Fixpoint smap (f : ascii -> ascii) (s : string) : string :=
  match s with
  | EmptyString => EmptyString
  | String c r => String (f c) (smap f r)
  end.

Definition toLowerCase : string -> string := smap lowerChar.
Definition toUpperCase : string -> string := smap upperChar.

Fixpoint sfilter (p : ascii -> bool) (s : string) : string :=
  match s with
  | EmptyString => EmptyString
  | String c r => if p c then String c (sfilter p r) else sfilter p r
  end.

Fixpoint sall (p : ascii -> bool) (s : string) : bool :=
  match s with
  | EmptyString => true
  | String c r => p c && sall p r
  end.

Definition isEmpty (s : string) : bool :=
  match s with EmptyString => true | _ => false end.

Fixpoint trimStart (s : string) : string :=
  match s with
  | EmptyString => EmptyString
  | String c r => if isSpace c then trimStart r else s
  end.

Fixpoint trimEnd (s : string) : string :=
  match s with
  | EmptyString => EmptyString
  | String c r =>
      let r' := trimEnd r in
      if isSpace c && isEmpty r' then EmptyString else String c r'
  end.

Definition trim (s : string) : string := trimEnd (trimStart s).

(** [s.startsWith(p)], and the same under the [i] flag. *)
Fixpoint startsWith (s p : string) : bool :=
  match p, s with
  | EmptyString, _ => true
  | String a p', String b s' => Ascii.eqb a b && startsWith s' p'
  | String _ _, EmptyString => false
  end.

Fixpoint startsWith_ci (s p : string) : bool :=
  match p, s with
  | EmptyString, _ => true
  | String a p', String b s' =>
      Ascii.eqb (lowerChar a) (lowerChar b) && startsWith_ci s' p'
  | String _ _, EmptyString => false
  end.

(** [s.includes(needle)]. *)
Fixpoint includes (s needle : string) : bool :=
  startsWith s needle ||
  match s with
  | EmptyString => false
  | String _ r => includes r needle
  end.

Fixpoint drop (n : nat) (s : string) : string :=
  match n, s with
  | O, _ => s
  | S k, String _ r => drop k r
  | S _, EmptyString => EmptyString
  end.

(** [s.replace(/P+/g, rep)] for a character class [P]: every maximal run
    of [P] characters becomes one [rep]. [inRun] says that the previous
    character already belonged to the run. *)
Fixpoint collapseRuns (p : ascii -> bool) (rep : ascii) (inRun : bool)
    (s : string) : string :=
  match s with
  | EmptyString => EmptyString
  | String c r =>
      if p c
      then if inRun then collapseRuns p rep true r
           else String rep (collapseRuns p rep true r)
      else String c (collapseRuns p rep false r)
  end.

(** [s.split(/\s+/)]: the pieces between maximal runs of white space; a
    leading or trailing run leaves an empty first or last piece, and the
    empty string splits into one empty piece. *)
Fixpoint splitGo (inRun : bool) (cur : string) (s : string) : list string :=
  match s with
  | EmptyString => [cur]
  | String c r =>
      if isSpace c
      then if inRun then splitGo true cur r
           else cur :: splitGo true EmptyString r
      else splitGo false (cur +:+ String c EmptyString) r
  end.

Definition splitSpaces (s : string) : list string :=
  splitGo false EmptyString s.

(** [parseInt] of a string of decimal digits. *)
Definition digitVal (c : ascii) : Z := Z.of_N (code c) - 48.

Fixpoint parseDigits (acc : Z) (s : string) : Z :=
  match s with
  | EmptyString => acc
  | String c r => parseDigits (10 * acc + digitVal c) r
  end.

Definition parseInt (s : string) : Z := parseDigits 0 s.

(** [/^\d+$/.test(s)]. *)
Definition allDigits (s : string) : bool := negb (isEmpty s) && sall isDigit s.

(** A value of [req.query]: nothing when the parameter is not given, a
    string when it is given once, an array of strings when it is given
    several times ([?artist=a&artist=b]). Express also builds an object
    from [?query[k]=v]; like an array, it is truthy and has no string
    method, so it takes the path of [Several]. *)
Inductive queryValue : Type :=
| Absent
| Text (s : string)
| Several (values : list string).

(** JavaScript truthiness of such a value: the empty string is falsy and
    every array is truthy. *)
Definition truthyValue (v : queryValue) : bool :=
  match v with
  | Absent => false
  | Text s => negb (isEmpty s)
  | Several _ => true
  end.

(** The string that the value is, when it is one. *)
Definition textOf (v : queryValue) : option string :=
  match v with
  | Text s => Some s
  | _ => None
  end.

End Js.


(* ===================================================================== *)
(** ** Exceptions and mutable module state *)
(* ===================================================================== *)

Module Eff.

(** What running a piece of code gives: a value, or a thrown error. *)
Inductive outcome (A : Type) : Type :=
| Returned (a : A)
| Thrown (message : string).
Arguments Returned {A} a.
Arguments Thrown {A} message.

(** A computation over the module-level state [S]. Mutations made before
    a throw stay in place. *)
Definition M (S A : Type) : Type := S -> outcome A * S.

Definition ret {S A} (a : A) : M S A := fun st => (Returned a, st).

Definition throw {S A} (message : string) : M S A :=
  fun st => (Thrown message, st).

Definition bind {S A B} (m : M S A) (f : A -> M S B) : M S B :=
  fun st =>
    match m st with
    | (Returned a, st') => f a st'
    | (Thrown e, st') => (Thrown e, st')
    end.

(** [try { m } catch (error) { h error }]. *)
Definition tryCatch {S A} (m : M S A) (h : string -> M S A) : M S A :=
  fun st =>
    match m st with
    | (Returned a, st') => (Returned a, st')
    | (Thrown e, st') => h e st'
    end.

Definition get {S} : M S S := fun st => (Returned st, st).
Definition modify {S} (f : S -> S) : M S unit := fun st => (Returned tt, f st).

(** The value and the state that a computation leaves. *)
Definition valueOf {S A} (m : M S A) (st : S) : outcome A := fst (m st).
Definition stateAfter {S A} (m : M S A) (st : S) : S := snd (m st).

Definition isReturned {A} (o : outcome A) : bool :=
  match o with Returned _ => true | Thrown _ => false end.

End Eff.

Declare Scope eff_scope.
Delimit Scope eff_scope with eff.
Notation "x <- m ;; k" := (Eff.bind m (fun x => k))
  (at level 100, m at next level, right associativity) : eff_scope.
Notation "m ;;; k" := (Eff.bind m (fun _ => k))
  (at level 100, right associativity) : eff_scope.

(* ===================================================================== *)
(** ** The JavaScript [Map], in insertion order *)
(* ===================================================================== *)

Module JsMap.
Section Ops.
Context {V : Type}.

(** [m.get(k)]. *)
Fixpoint mapGet (k : string) (m : list (string * V)) : option V :=
  match m with
  | [] => None
  | (k', v) :: r => if String.eqb k k' then Some v else mapGet k r
  end.

(** [m.set(k, v)]: an existing key keeps its place, a new key goes last. *)
Fixpoint mapSet (k : string) (v : V) (m : list (string * V))
    : list (string * V) :=
  match m with
  | [] => [(k, v)]
  | (k', v') :: r =>
      if String.eqb k k' then (k, v) :: r else (k', v') :: mapSet k v r
  end.

(** [m.delete(k)]. *)
Fixpoint mapDelete (k : string) (m : list (string * V)) : list (string * V) :=
  match m with
  | [] => []
  | (k', v') :: r =>
      if String.eqb k k' then r else (k', v') :: mapDelete k r
  end.

(** [m.keys().next().value]: the key inserted first, [undefined] on an
    empty map. *)
Definition firstKey (m : list (string * V)) : option string :=
  match m with
  | [] => None
  | (k, _) :: _ => Some k
  end.

Definition keys (m : list (string * V)) : list string := map fst m.

End Ops.
End JsMap.

(* ===================================================================== *)
(** ** HTML documents, as the selectors of the code see them *)
(* ===================================================================== *)

Module Html.

(** A [dd] element: its text, whether it carries the class
    [text-card-foreground], and the text of the sibling just before it
    when that sibling is a [dt]. *)
Record dd : Type := {
  ddText : string;
  ddCard : bool;
  ddPrevDt : option string
}.

(** An [a] element: its [href] attribute, if any, and its text. *)
Record anchor : Type := {
  href : option string;
  linkText : string
}.

Record document : Type := {
  ddTags : list dd;
  aTags : list anchor
}.

(** What an HTTP request comes to: no response at all (time-out, refused
    connection), or a status and a body. *)
Inductive httpOutcome : Type :=
| NetworkError
| HttpResponse (status : Z) (body : document).

End Html.

(* ===================================================================== *)
(** ** The song-info function: normalizer, extractor, cache, pipeline *)
(* ===================================================================== *)

Module SongInfo.
Import Js JsMap Html Eff.
Local Open Scope eff_scope.

Definition CACHE_TTL_SECONDS : Z := 60 * 30.
Definition CACHE_TTL_MS : Z := CACHE_TTL_SECONDS * 1000.
Definition MAX_MEMORY_CACHE_SIZE : nat := 50.

(** *** normalizeForUrl *)

(** After [(feat] or [(ft]: the lazy [.*?\)] ends at the first closing
    parenthesis, provided no line terminator comes before it. The result
    counts the characters up to and including that parenthesis. *)
Fixpoint closingAt (s : string) : option nat :=
  match s with
  | EmptyString => None
  | String c r =>
      if Ascii.eqb c ")" then Some 1%nat
      else if isLineTerminator c then None
      else option_map S (closingAt r)
  end.

(** Length of the match of [/\(TAG\.?.*?\)/i] at the start of [s]. The
    optional dot changes nothing, since [.*?] takes a dot as well. *)
Definition matchAnnotation (tag : string) (s : string) : option nat :=
  let opening := String "(" tag in
  if startsWith_ci s opening
  then option_map (Nat.add (String.length opening))
                  (closingAt (drop (String.length opening) s))
  else None.

(** [s.replace(/\(TAG\.?.*?\)/gi, '')]; [skip] characters of the current
    match are still to be dropped. *)
Fixpoint removeAnnotations (tag : string) (skip : nat) (s : string) : string :=
  match s with
  | EmptyString => EmptyString
  | String c r =>
      match skip with
      | S k => removeAnnotations tag k r
      | O =>
          match matchAnnotation tag s with
          | Some n => removeAnnotations tag (Nat.pred n) r
          | None => String c (removeAnnotations tag 0 r)
          end
      end
  end.

(** The class [[a-z0-9\s-]]. *)
Definition keptChar (c : ascii) : bool :=
  isLower c || isDigit c || isSpace c || isHyphen c.

Fixpoint dropFinalHyphen (s : string) : string :=
  match s with
  | EmptyString => EmptyString
  | String c r =>
      if isHyphen c && isEmpty r then EmptyString
      else String c (dropFinalHyphen r)
  end.

(** [s.replace(/^-|-$/g, '')]. *)
Definition stripEdgeHyphens (s : string) : string :=
  match s with
  | EmptyString => EmptyString
  | String c r => if isHyphen c then dropFinalHyphen r else dropFinalHyphen s
  end.

Definition normalizeForUrl (text : string) : string :=
  let s := toLowerCase text in
  let s := trim s in
  let s := removeAnnotations "feat" 0 s in
  let s := removeAnnotations "ft" 0 s in
  let s := sfilter keptChar s in
  let s := collapseRuns isSpace "-" false s in
  let s := collapseRuns isHyphen "-" false s in
  stripEdgeHyphens s.

(** *** extractSongInfo *)

Record songInfo : Type := {
  bpm : option Z;
  key : option string;
  genre : option string
}.

Definition nullInfo : songInfo := {| bpm := None; key := None; genre := None |}.

Definition genres : list string :=
  ["pop"; "rock"; "r&b"; "hip hop"; "electronic"; "dance"; "jazz";
   "classical"; "soul"; "indie"; "alternative"].

(** JavaScript truthiness of [result.bpm] and of a string field. *)
Definition truthyNumber (v : option Z) : bool :=
  match v with Some n => negb (n =? 0)%Z | None => false end.

Definition truthyString (v : option string) : bool :=
  match v with Some s => negb (isEmpty s) | None => false end.

(** The callback of [ddTags.each], on the result built so far. *)
Definition extractStep (result : songInfo) (elem : dd) : songInfo :=
  let text := trim (ddText elem) in
  if isEmpty text then result
  else
    let result :=
      if allDigits text && negb (includes text ":")
      then
        let n := parseInt text in
        if (n >=? 40)%Z && (n <=? 240)%Z && negb (truthyNumber (bpm result))
        then {| bpm := Some n; key := key result; genre := genre result |}
        else result
      else result in
    let result :=
      if (includes (toLowerCase text) "major"
          || includes (toLowerCase text) "minor")
         && negb (truthyString (key result))
      then {| bpm := bpm result; key := Some text; genre := genre result |}
      else result in
    let textLower := toLowerCase text in
    if negb (truthyString (genre result))
       && existsb (fun g => includes textLower g) genres
    then {| bpm := bpm result; key := key result; genre := Some text |}
    else result.

Definition extractSongInfo (html : document) : songInfo :=
  fold_left extractStep (ddTags html) nullInfo.

(** *** The hybrid cache *)

Record memEntry : Type := { data : songInfo; timestamp : Z }.

(** An entry of the key-value store, with the instant at which the store
    drops it ([ex] seconds after it was written). *)
Record kvEntry : Type := { kvData : songInfo; kvExpires : Z }.

(** The module state: [memoryCache], the external store, and the URLs
    requested so far. *)
Record state : Type := {
  memoryCache : list (string * memEntry);
  kvStore : gmap string kvEntry;
  requests : list string
}.

(** The inputs of one call: [Date.now()], whether the key-value store
    answers, and what each URL returns. *)
Record env : Type := {
  now : Z;
  kvUp : bool;
  http : string -> httpOutcome
}.

Inductive layer : Type := memory | kv.

Record cached : Type := { cachedData : songInfo; cachedLayer : layer }.

Definition getCacheKey (artist title : string) : string :=
  "song:" +:+ toLowerCase artist +:+ ":" +:+ toLowerCase title.

Definition setMemory (f : list (string * memEntry) -> list (string * memEntry))
    : M state unit :=
  modify (fun st => {| memoryCache := f (memoryCache st);
                       kvStore := kvStore st;
                       requests := requests st |}).

(** [kv.get(key)]: the stored value while it has not expired. *)
Definition kvGet (e : env) (k : string) : M state (option songInfo) :=
  if kvUp e
  then st <- get ;;
       ret match kvStore st !! k with
           | Some en => if (now e <? kvExpires en)%Z then Some (kvData en) else None
           | None => None
           end
  else throw "KV unavailable".

(** [kv.set(key, data, { ex })]. *)
Definition kvSet (e : env) (k : string) (d : songInfo) (ex : Z)
    : M state unit :=
  if kvUp e
  then modify (fun st =>
         {| memoryCache := memoryCache st;
            kvStore := <[k := {| kvData := d;
                                 kvExpires := now e + ex * 1000 |}]> (kvStore st);
            requests := requests st |})
  else throw "KV unavailable".

Definition getCache (e : env) (k : string) : M state (option cached) :=
  st <- get ;;
  hit <- match mapGet k (memoryCache st) with
         | Some memEntry =>
             let isExpired := (now e - timestamp memEntry >? CACHE_TTL_MS)%Z in
             if negb isExpired
             then ret (Some {| cachedData := data memEntry;
                               cachedLayer := memory |})
             else setMemory (mapDelete k) ;;; ret None
         | None => ret None
         end ;;
  match hit with
  | Some c => ret (Some c)
  | None =>
      tryCatch
        (kvData <- kvGet e k ;;
         match kvData with
         | Some d =>
             setMemory (mapSet k {| data := d; timestamp := now e |}) ;;;
             ret (Some {| cachedData := d; cachedLayer := kv |})
         | None => ret None
         end)
        (fun _ => ret None)
  end.

(** [setCache], for a memory bound [cap]. *)
Definition setCacheAt (cap : nat) (e : env) (k : string) (d : songInfo)
    : M state unit :=
  st <- get ;;
  (if (cap <=? List.length (memoryCache st))%nat
   then match firstKey (memoryCache st) with
        | Some oldestKey => setMemory (mapDelete oldestKey)
        | None => ret tt
        end
   else ret tt) ;;;
  setMemory (mapSet k {| data := d; timestamp := now e |}) ;;;
  tryCatch (kvSet e k d CACHE_TTL_SECONDS) (fun _ => ret tt).

Definition setCache : env -> string -> songInfo -> M state unit :=
  setCacheAt MAX_MEMORY_CACHE_SIZE.

(** *** fetchSongInfo *)

Definition site : string := "https://songbpm.com".

(** [axios.get(url, { validateStatus })]: the request is recorded; no
    response, or a status that [validateStatus] refuses, is thrown. *)
Definition axiosGet (e : env) (validateStatus : Z -> bool) (url : string)
    : M state (Z * document) :=
  modify (fun st => {| memoryCache := memoryCache st;
                       kvStore := kvStore st;
                       requests := (requests st ++ [url])%list |}) ;;;
  match http e url with
  | NetworkError => throw "Network Error"
  | HttpResponse status body =>
      if validateStatus status then ret (status, body)
      else throw "Request failed"
  end.

(** The default [validateStatus] of axios. *)
Definition status2xx (status : Z) : bool :=
  ((200 <=? status) && (status <? 300))%Z.

(** The loop over [$('a[href*="/@" + artistSlug + "/"]')]: the first
    link whose address or text contains the title slug. *)
Fixpoint findSongUrl (artistSlug titleSlug : string) (links : list anchor)
    : option string :=
  match links with
  | [] => None
  | a :: rest =>
      match href a with
      | Some h =>
          if includes h ("/@" +:+ artistSlug +:+ "/")
          then
            if negb (isEmpty h)
               && (includes (toLowerCase h) titleSlug
                   || includes (toLowerCase (linkText a)) titleSlug)
            then Some (site +:+ h)
            else findSongUrl artistSlug titleSlug rest
          else findSongUrl artistSlug titleSlug rest
      | None => findSongUrl artistSlug titleSlug rest
      end
  end.

(** The body of the [try] block: [Some info] when it returns [info],
    [None] when control reaches its end. *)
Definition scrape (e : env) (cacheKey artist title : string)
    : M state (option songInfo) :=
  let artistSlug := normalizeForUrl artist in
  let titleSlug := normalizeForUrl title in
  let directUrl := site +:+ "/@" +:+ artistSlug +:+ "/" +:+ titleSlug in
  response <- axiosGet e (fun status => (status <? 500)%Z) directUrl ;;
  direct <- (if (fst response =? 200)%Z
             then
               let info := extractSongInfo (snd response) in
               if truthyNumber (bpm info)
               then setCache e cacheKey info ;;; ret (Some info)
               else ret None
             else ret None) ;;
  match direct with
  | Some info => ret (Some info)
  | None =>
      let artistUrl := site +:+ "/@" +:+ artistSlug in
      artistResponse <- axiosGet e status2xx artistUrl ;;
      if (fst artistResponse =? 200)%Z
      then
        match findSongUrl artistSlug titleSlug (aTags (snd artistResponse)) with
        | Some songUrl =>
            songResponse <- axiosGet e status2xx songUrl ;;
            let info := extractSongInfo (snd songResponse) in
            if truthyNumber (bpm info)
            then setCache e cacheKey info ;;; ret (Some info)
            else ret None
        | None => ret None
        end
      else ret None
  end.

(** What [fetchSongInfo] returns: the metadata, and the [cacheLayer] and
    [fromCache] fields that only a cached answer carries. *)
Record fetched : Type := {
  info : songInfo;
  cacheLayer : option layer;
  fromCache : bool
}.

Definition fresh (i : songInfo) : fetched :=
  {| info := i; cacheLayer := None; fromCache := false |}.

Definition fetchSongInfo (e : env) (artist title : string) : M state fetched :=
  let cacheKey := getCacheKey artist title in
  c <- getCache e cacheKey ;;
  match c with
  | Some c =>
      ret {| info := cachedData c;
             cacheLayer := Some (cachedLayer c);
             fromCache := true |}
  | None =>
      early <- tryCatch (scrape e cacheKey artist title)
                        (fun _ => ret None) ;;
      match early with
      | Some i => ret (fresh i)
      | None => ret (fresh nullInfo)
      end
  end.

(** *** The HTTP handler *)

Inductive method : Type := GET | OPTIONS | OtherMethod.

Record request : Type := {
  reqMethod : method;
  queryArtist : queryValue;
  queryTitle : queryValue
}.

Inductive body : Type :=
| NoBody
| ErrorBody (error : string)
| SongBody (artist title : string) (i : songInfo) (isCached : bool)
           (cacheLayerName : string) (memorySize : nat).

Record response : Type := { status : Z; payload : body }.

Definition layerName (l : option layer) : string :=
  match l with
  | Some memory => "memory"
  | Some kv => "kv"
  | None => "fresh"
  end.

Definition handler (e : env) (req : request) : M state response :=
  match reqMethod req with
  | OPTIONS => ret {| status := 200; payload := NoBody |}
  | OtherMethod =>
      ret {| status := 405; payload := ErrorBody "Method not allowed" |}
  | GET =>
      tryCatch
        (if truthyValue (queryArtist req) && truthyValue (queryTitle req)
         then
           match queryArtist req, queryTitle req with
           | Text artist, Text title =>
               r <- fetchSongInfo e artist title ;;
               st <- get ;;
               ret {| status := 200;
                      payload := SongBody artist title (info r) (fromCache r)
                                   (layerName (cacheLayer r))
                                   (List.length (memoryCache st)) |}
           | _, _ =>
               (* An array has no toLowerCase: getCacheKey, which
                  fetchSongInfo calls ahead of its try block, throws a
                  TypeError before anything else is done. *)
               throw "toLowerCase is not a function"
           end
         else
           ret {| status := 400;
                  payload := ErrorBody "Missing required parameters" |})
        (fun _ =>
           ret {| status := 500; payload := ErrorBody "Internal server error" |})
  end.

End SongInfo.

(* ===================================================================== *)
(** ** The Express scraper: the parsing half of scrapeSongBPM *)
(* ===================================================================== *)

Module Features.
Import Js Html Eff.

(** [text.match(/^\s*(\d{1,3})\s*$/)], then [parseInt(numberMatch[1], 10)]. *)
Definition numberMatch (text : string) : option Z :=
  let t := trim text in
  if allDigits t && (String.length t <=? 3)%nat then Some (parseInt t)
  else None.

(** [[A-G]] and the class of the accidentals under the [i] flag. The
    class of the code has four members: [#], [b] and the music signs
    U+266F and U+266D. The two signs are code units above 255, which no
    string of this development holds, so on these strings the class comes
    to [#], [b] and [B]. *)
Definition isKeyLetter (c : ascii) : bool := between 65 71 (upperChar c).
Definition isAccidental (c : ascii) : bool :=
  Ascii.eqb c "#" || Ascii.eqb (lowerChar c) "b".

(** [text.match(/^\s*([A-G][#b..]?)\s*$/i)]: the captured group. *)
Definition keyMatch (text : string) : option string :=
  match trim text with
  | String a EmptyString =>
      if isKeyLetter a then Some (String a EmptyString) else None
  | String a (String b EmptyString) =>
      if isKeyLetter a && isAccidental b
      then Some (String a (String b EmptyString)) else None
  | _ => None
  end.

Definition labelOf (elem : dd) : string :=
  toLowerCase (trim (default "" (ddPrevDt elem))).

Definition isTempoLabel (labelText : string) : bool :=
  includes labelText "tempo" || includes labelText "bpm".

(** The loop over [$('dd.text-card-foreground')], with the variables
    [bpm] and [key] it assigns. [return false] leaves the loop and
    [return true] goes on with the next element. *)
Fixpoint scanMetrics (elems : list dd) (bpm : option Z) (key : option string)
    : option Z * option string :=
  match elems with
  | [] => (bpm, key)
  | elem :: rest =>
      let text := trim (ddText elem) in
      let labelText := labelOf elem in
      let keyStep :=
        match keyMatch text with
        | Some k =>
            if includes labelText "key"
            then scanMetrics rest bpm (Some (toUpperCase k))
            else scanMetrics rest bpm key
        | None => scanMetrics rest bpm key
        end in
      match numberMatch text with
      | Some value =>
          if isTempoLabel labelText && (value >=? 40)%Z && (value <=? 240)%Z
          then (Some value, key)
          else if includes labelText "key" && (value <? 40)%Z
               then scanMetrics rest bpm key
               else keyStep
      | None => keyStep
      end
  end.

Record features : Type := { bpm : Z; key : option string }.

(** [scrapeSongBPM] from the answer of [fetch(url)] on: the status check,
    the loop, the range validation and the final test. The lookup of the
    URL ([findSongBPMUrl]) is left out. *)
Definition scrapeSongBPM (page : httpOutcome) : outcome features :=
  match page with
  | NetworkError => Thrown "fetch failed"
  | HttpResponse status html =>
      if negb (SongInfo.status2xx status)
      then if (status =? 404)%Z then Thrown "Song not found on SongBPM.com"
           else Thrown "HTTP error"
      else
        let '(bpm, key) := scanMetrics (filter ddCard (ddTags html)) None None in
        let bpm :=
          match bpm with
          | Some b =>
              if negb (b =? 0)%Z && ((b <? 40)%Z || (b >? 240)%Z) then None
              else Some b
          | None => None
          end in
        match bpm with
        | Some b =>
            if (b =? 0)%Z then Thrown "Could not find BPM on the page"
            else Returned {| bpm := b; key := key |}
        | None => Thrown "Could not find BPM on the page"
        end
  end.

End Features.

(* ===================================================================== *)
(** ** The Express search route: scoring of the candidates *)
(* ===================================================================== *)

Module Search.
Import Js.
Local Open Scope float_scope.

(** A JavaScript number is an IEEE 754 double, which is what the
    primitive [float] is, with the same rounding to nearest, ties to even.
    [toNumber z] is the double that the integer [z] is read as, the
    nearest one; the code needs it for the length of an array. *)
Definition toNumber (z : Z) : float :=
  SF2Prim (binary_normalize prec emax z 0 false).

(** [a > b] and [a >= b] on doubles. *)
Definition gtb (a b : float) : bool := (b <? a).
Definition geb (a b : float) : bool := (b <=? a).

(** A track of the catalog's answer; [artist] is [artists[0].name], and
    [popularity] is a number of the parsed JSON. *)
Record track : Type := {
  name : string;
  artist : string;
  id : string;
  spotifyUrl : string;
  popularity : float
}.

(** The callback of [queryWords.forEach], on the variable [score]. *)
Definition wordScore (trackTitle trackArtist : string) (score : float)
    (word : string) : float :=
  if (2 <=? String.length word)%nat
  then
    let score := if includes trackTitle word then score + 20 else score in
    let score := if includes trackArtist word then score + 5 else score in
    if startsWith trackTitle word then score + 10 else score
  else score.

Definition isUnmatched (queryWords : list string) (word : string) : bool :=
  (3 <=? String.length word)%nat
  && negb (existsb (fun qw => includes qw word || includes word qw) queryWords).

(** The score of one track, as the body of the [for] loop computes it,
    one rounded operation after the other. *)
Definition scoreOf (query : string) (t : track) : float :=
  let queryWords := splitSpaces (toLowerCase query) in
  let trackTitle := toLowerCase (name t) in
  let trackArtist := toLowerCase (artist t) in
  let score := fold_left (wordScore trackTitle trackArtist) queryWords 0 in
  let score :=
    if String.eqb trackTitle (toLowerCase query) then score + 100 else score in
  let score :=
    if includes trackTitle (toLowerCase query) then score + 30 else score in
  let score := score + popularity t / 5 in
  let score := if geb (popularity t) 80 then score + 30 else score in
  let trackWords := splitSpaces trackTitle in
  let unmatchedWords := filter (isUnmatched queryWords) trackWords in
  score - toNumber (Z.of_nat (List.length unmatchedWords)) * 8.

(** One turn of the [for] loop on [(bestTrack, bestScore)]. *)
Definition bestStep (query : string) (best : track * float) (t : track)
    : track * float :=
  let score := scoreOf query t in
  if gtb score (snd best) then (t, score) else best.

(** [tracks.reduce((prev, current) =>
      current.popularity > prev.popularity ? current : prev)]. *)
Definition morePopular (prev current : track) : track :=
  if gtb (popularity current) (popularity prev) then current else prev.

Inductive confidence : Type := high | medium.

Record result : Type := {
  title : string;
  resultArtist : string;
  trackId : string;
  resultUrl : string;
  resultPopularity : float;
  resultConfidence : confidence
}.

Definition resultOf (t : track) (c : confidence) : result :=
  {| title := toLowerCase (name t);
     resultArtist := toLowerCase (artist t);
     trackId := id t;
     resultUrl := spotifyUrl t;
     resultPopularity := popularity t;
     resultConfidence := c |}.

(** The track chosen among a non-empty answer [first :: others], with the
    confidence reported for it. *)
Definition chooseTrack (query : string) (first : track) (others : list track)
    : track * confidence :=
  let tracks := first :: others in
  let '(bestTrack, bestScore) :=
    fold_left (bestStep query) tracks (first, -1) in
  let keep :=
    (bestTrack, if gtb bestScore 50 then high else medium) in
  if (popularity bestTrack <? 30) && (bestScore <? 40)
  then
    let mostPopular := fold_left morePopular others first in
    if geb (popularity mostPopular) 60 then (mostPopular, medium)
    else keep
  else keep.

(** [searchSpotifyAPI] once the answer of the catalog is in: [None] is
    the [null] returned for an empty answer. *)
Definition selectTrack (query : string) (tracks : list track) : option result :=
  match tracks with
  | [] => None
  | first :: others =>
      let '(t, c) := chooseTrack query first others in Some (resultOf t c)
  end.

End Search.

(* ===================================================================== *)
(** ** The search function: token, catalog query, handler *)
(* ===================================================================== *)

Module SpotifySearch.
Import Js Eff.
Local Open Scope eff_scope.

(** The module state: [cachedToken] and [tokenExpiresAt]. *)
Record state : Type := {
  cachedToken : option string;
  tokenExpiresAt : Z
}.

(** The answer of the token endpoint. *)
Inductive tokenOutcome : Type :=
| TokenNetworkError
| TokenResponse (status : Z) (access_token : option string)
                (expires_in : option Z).

(** The answer of the track search: [tracks] is [response.data.tracks.items]
    when [response.data.tracks] is there. *)
Inductive searchOutcome : Type :=
| SearchNetworkError
| SearchResponse (status : Z) (tracks : option (list Search.track)).

Record env : Type := {
  now : Z;
  clientId : option string;
  clientSecret : option string;
  tokenEndpoint : tokenOutcome;
  searchEndpoint : option string -> string -> searchOutcome
}.

Definition truthyString := SongInfo.truthyString.

Definition getSpotifyToken (e : env) : M state (option string) :=
  st <- get ;;
  if truthyString (cachedToken st) && (now e <? tokenExpiresAt st)%Z
  then ret (cachedToken st)
  else
    if negb (truthyString (clientId e)) || negb (truthyString (clientSecret e))
    then throw "Spotify credentials not configured"
    else
      tryCatch
        (match tokenEndpoint e with
         | TokenNetworkError => throw "Network Error"
         | TokenResponse status access_token expires_in =>
             if SongInfo.status2xx status
             then
               let seconds :=
                 match expires_in with
                 | Some n => if (n =? 0)%Z then 3600%Z else n
                 | None => 3600%Z
                 end in
               let expiresInMs := (seconds * 1000)%Z in
               modify (fun _ =>
                 {| cachedToken := access_token;
                    tokenExpiresAt := (now e + expiresInMs - 60000)%Z |}) ;;;
               ret access_token
             else throw "Request failed"
         end)
        (fun error => throw error).

Record found : Type := {
  title : string;
  artist : string;
  trackId : string;
  spotifyUrl : string;
  popularity : float
}.

Definition searchSpotify (e : env) (query : string) : M state (option found) :=
  tryCatch
    (token <- getSpotifyToken e ;;
     match searchEndpoint e token query with
     | SearchNetworkError => throw "Network Error"
     | SearchResponse status tracks =>
         if SongInfo.status2xx status
         then
           match tracks with
           | Some (track :: _) =>
               ret (Some {| title := Search.name track;
                            artist := Search.artist track;
                            trackId := Search.id track;
                            spotifyUrl := Search.spotifyUrl track;
                            popularity := Search.popularity track |})
           | _ => ret None
           end
         else throw "Request failed"
     end)
    (fun _ => ret None).

Inductive method : Type := GET | OPTIONS | OtherMethod.

Record request : Type := { reqMethod : method; queryParam : option string }.

Inductive body : Type :=
| NoBody
| ErrorBody (error : string)
| NotFoundBody (query : string)
| FoundBody (r : found).

Record response : Type := { status : Z; payload : body }.

Definition handler (e : env) (req : request) : M state response :=
  match reqMethod req with
  | OPTIONS => ret {| status := 200; payload := NoBody |}
  | OtherMethod =>
      ret {| status := 405; payload := ErrorBody "Method not allowed" |}
  | GET =>
      tryCatch
        (if truthyString (queryParam req)
         then
           let query := default "" (queryParam req) in
           r <- searchSpotify e query ;;
           match r with
           | None => ret {| status := 200; payload := NotFoundBody query |}
           | Some f => ret {| status := 200; payload := FoundBody f |}
           end
         else
           ret {| status := 400; payload := ErrorBody "Missing query parameter" |})
        (fun _ =>
           ret {| status := 500; payload := ErrorBody "Internal server error" |})
  end.

End SpotifySearch.

(* ===================================================================== *)
(** ** Predicates and sample inputs used in the statements *)
(* ===================================================================== *)

Module SlugSpec.
Import Js.

(** The characters of a slug: [[a-z0-9-]]. *)
Definition slugChar (c : ascii) : bool := isLower c || isDigit c || isHyphen c.

(** No hyphen follows a hyphen; with [prev] set, no hyphen comes first
    either. *)
Fixpoint singleHyphens (prev : bool) (s : string) : bool :=
  match s with
  | EmptyString => true
  | String c r =>
      if isHyphen c then negb prev && singleHyphens true r
      else singleHyphens false r
  end.

Fixpoint finalHyphen (s : string) : bool :=
  match s with
  | EmptyString => false
  | String c r => if isEmpty r then isHyphen c else finalHyphen r
  end.

(** A slug: words of [[a-z0-9]] joined by single hyphens, or nothing. *)
Definition isSlug (s : string) : bool :=
  sall slugChar s && singleHyphens true s && negb (finalHyphen s).

End SlugSpec.

Module CacheSpec.
Import Js JsMap Eff SongInfo.

(** What [setCache] removes from a map of at least [cap] entries: the
    entry of the first key. *)
Definition evict (cap : nat) (m : list (string * memEntry))
    : list (string * memEntry) :=
  if (cap <=? List.length m)%nat
  then match m with
       | [] => m
       | (oldestKey, _) :: _ => mapDelete oldestKey m
       end
  else m.

(** The fast tier has nothing usable under [k]: no entry, or one older
    than the time to live. *)
Definition memoryMiss (e : env) (k : string) (st : state) : bool :=
  match mapGet k (memoryCache st) with
  | Some en => (now e - timestamp en >? CACHE_TTL_MS)%Z
  | None => true
  end.

(** The persistent tier holds [d] under [k] and answers. *)
Definition kvHit (e : env) (k : string) (st : state) (d : songInfo) : Prop :=
  kvUp e = true /\
  exists en, kvStore st !! k = Some en /\ (now e < kvExpires en)%Z
             /\ kvData en = d.

(** A run of [getCache] calls, one per key. *)
Fixpoint getAll (e : env) (ks : list string) (st : state) : state :=
  match ks with
  | [] => st
  | k :: rest => getAll e rest (stateAfter (getCache e k) st)
  end.

(** A store that holds the all-null record under each of [ks], and an
    empty fast tier. *)
Definition storeOf (ks : list string) (expires : Z) : state :=
  {| memoryCache := [];
     kvStore := list_to_map
                  (map (fun k => (k, {| kvData := nullInfo;
                                        kvExpires := expires |})) ks);
     requests := [] |}.

(** Fifty-one distinct keys. *)
Definition manyKeys : list string :=
  map (fun n => "song:artist:" +:+ String (ascii_of_nat (40 + n)) EmptyString)
      (seq 0 51).

(** An environment in which no request is answered, at time [t]. *)
Definition quietEnv (t : Z) : env :=
  {| now := t; kvUp := true; http := fun _ => Html.NetworkError |}.

Definition emptyState : state :=
  {| memoryCache := []; kvStore := ∅; requests := [] |}.

(** A fast tier that holds fifty entries. *)
Definition fullState : state :=
  {| memoryCache :=
       map (fun k => (k, {| data := nullInfo; timestamp := 0 |}))
           (firstn 50 manyKeys);
     kvStore := ∅;
     requests := [] |}.

(** The two pages that [fetchSongInfo] asks for first. *)
Definition directUrl (artist title : string) : string :=
  site +:+ "/@" +:+ normalizeForUrl artist +:+ "/" +:+ normalizeForUrl title.

Definition artistUrl (artist : string) : string :=
  site +:+ "/@" +:+ normalizeForUrl artist.

(** A request that brings no usable page: no response (time-out), or a
    status outside 2xx. *)
Definition requestFails (e : env) (url : string) : bool :=
  match http e url with
  | Html.NetworkError => true
  | Html.HttpResponse status _ => negb (status2xx status)
  end.

Definition emptyPage : Html.document := {| Html.ddTags := []; Html.aTags := [] |}.

(** An environment in which the provider knows no page: every request is
    answered 404 with an empty document. *)
Definition notFoundEnv (t : Z) : env :=
  {| now := t; kvUp := true; http := fun _ => Html.HttpResponse 404 emptyPage |}.

Definition songRequest (artist title : string) : request :=
  {| reqMethod := GET; queryArtist := Text artist; queryTitle := Text title |}.

(** A page that shows a tempo of 171. *)
Definition foundPage : Html.document :=
  {| Html.ddTags :=
       [ {| Html.ddText := "3:20"; Html.ddCard := true;
            Html.ddPrevDt := Some "Duration" |};
         {| Html.ddText := " 171 "; Html.ddCard := true;
            Html.ddPrevDt := Some "Tempo (BPM)" |};
         {| Html.ddText := "C# Minor"; Html.ddCard := true;
            Html.ddPrevDt := Some "Key" |} ];
     Html.aTags := [] |}.

(** An environment in which every request is answered with that page. *)
Definition foundEnv (t : Z) : env :=
  {| now := t; kvUp := true; http := fun _ => Html.HttpResponse 200 foundPage |}.

Definition foundInfo : songInfo :=
  {| bpm := Some 171; key := Some "C# Minor"; genre := None |}.

(** A fast tier of fifty entries over a store that holds one key more. *)
Definition brimState : state :=
  {| memoryCache := memoryCache fullState;
     kvStore := kvStore (storeOf manyKeys 1);
     requests := [] |}.

End CacheSpec.

Module ExtractSpec.
Import Js Html.

(** The first element of a list on which [f] gives a value. *)
Fixpoint firstSome {A B : Type} (f : A -> option B) (l : list A) : option B :=
  match l with
  | [] => None
  | x :: r => match f x with Some b => Some b | None => firstSome f r end
  end.

Definition inRange (n : Z) : bool := (40 <=? n)%Z && (n <=? 240)%Z.

(** The value of a [dd] whose text is a bare integer from 40 to 240. *)
Definition bareTempo (elem : dd) : option Z :=
  let text := trim (ddText elem) in
  if allDigits text && inRange (parseInt text) then Some (parseInt text)
  else None.

(** The same for the Express scraper: at most three digits, and a label
    just before that contains "tempo" or "bpm". *)
Definition labelledTempo (elem : dd) : option Z :=
  match Features.numberMatch (trim (ddText elem)) with
  | Some value =>
      if Features.isTempoLabel (Features.labelOf elem) && inRange value
      then Some value else None
  | None => None
  end.

(** A page whose only number is a duration in seconds. *)
Definition durationPage : document :=
  {| ddTags := [ {| ddText := "120"; ddCard := true;
                    ddPrevDt := Some "Duration (s)" |} ];
     aTags := [] |}.

(** A page with two labelled tempo values, the first in a [dd] without
    the class [text-card-foreground]. *)
Definition plainFirstPage : document :=
  {| ddTags := [ {| ddText := "100"; ddCard := false;
                    ddPrevDt := Some "Tempo" |};
                 {| ddText := "120"; ddCard := true;
                    ddPrevDt := Some "BPM" |} ];
     aTags := [] |}.

(** A record in which the tempo is already set. *)
Definition foundInfoSoFar : SongInfo.songInfo :=
  {| SongInfo.bpm := Some 171; SongInfo.key := None; SongInfo.genre := None |}.

End ExtractSpec.

Module SearchSpec.
Import Js Search.
Local Open Scope float_scope.

(** [t] is the top-scored track of [tracks], by the comparison of the
    loop: every track before it scores less, and no track after it scores
    more (the earliest wins a tie). *)
Definition topScored (query : string) (tracks : list track) (t : track) : Prop :=
  exists before after,
    tracks = (before ++ t :: after)%list
    /\ Forall (fun x => gtb (scoreOf query t) (scoreOf query x) = true) before
    /\ Forall (fun x => gtb (scoreOf query x) (scoreOf query t) = false) after.

(** [m] is the most popular track of [tracks], by the comparison of the
    reduction: every track before it is less popular, and no track after
    it is more popular (the earliest wins a tie). *)
Definition mostPopular (tracks : list track) (m : track) : Prop :=
  exists before after,
    tracks = (before ++ m :: after)%list
    /\ Forall (fun x => gtb (popularity m) (popularity x) = true) before
    /\ Forall (fun x => gtb (popularity x) (popularity m) = false) after.

(** The rule for a winner of low confidence. *)
Definition overrideRule (query : string) (t m : track) : track :=
  if (popularity t <? 30) && (scoreOf query t <? 40)
  then if geb (popularity m) 60 then m else t
  else t.

(** Two answers to the query "ab cd": an obscure track that scores 20 and
    a hit that scores 15. *)
Definition obscure : track :=
  {| name := "Ab wxyz wxyz"; artist := "CD"; id := "1";
     spotifyUrl := "https://open.spotify.com/track/1"; popularity := 5 |}.

Definition hit : track :=
  {| name := "One Two Three Four"; artist := "ZZ"; id := "2";
     spotifyUrl := "https://open.spotify.com/track/2"; popularity := 85 |}.

(** Three answers to the query "zz qq", none of which scores above -1:
    -24, -7 and -17. *)
Definition offTarget : track :=
  {| name := "aaa bbb ccc ddd"; artist := "x"; id := "0";
     spotifyUrl := "https://open.spotify.com/track/0"; popularity := 40 |}.

Definition offObscure : track :=
  {| name := "eee"; artist := "y"; id := "1";
     spotifyUrl := "https://open.spotify.com/track/1"; popularity := 5 |}.

Definition offHit : track :=
  {| name := "one two three four five six seven eight"; artist := "w"; id := "2";
     spotifyUrl := "https://open.spotify.com/track/2"; popularity := 85 |}.

(** Two answers to the query "zz" whose scores are 7 / 5 and 47 / 5 - 8. *)
Definition nearFirst : track :=
  {| name := "ab"; artist := "x"; id := "3";
     spotifyUrl := "https://open.spotify.com/track/3"; popularity := 7 |}.

Definition nearSecond : track :=
  {| name := "cde"; artist := "y"; id := "4";
     spotifyUrl := "https://open.spotify.com/track/4"; popularity := 47 |}.

End SearchSpec.

Module SpotifySpec.
Import Js Eff SpotifySearch.

(** No usable token is cached. *)
Definition tokenStale (e : env) (st : state) : bool :=
  negb (truthyString (cachedToken st) && (now e <? tokenExpiresAt st)%Z).

(** The token cannot be obtained: credentials are missing, or the token
    endpoint does not answer or answers outside 2xx. *)
Definition authFails (e : env) : bool :=
  negb (truthyString (clientId e)) || negb (truthyString (clientSecret e))
  || match tokenEndpoint e with
     | TokenNetworkError => true
     | TokenResponse status _ _ => negb (SongInfo.status2xx status)
     end.

(** The track search does not answer, or answers outside 2xx. *)
Definition searchFails (e : env) (token : option string) (query : string)
    : bool :=
  match searchEndpoint e token query with
  | SearchNetworkError => true
  | SearchResponse status _ => negb (SongInfo.status2xx status)
  end.

(** The track search answers within 2xx and lists no track: the answer
    has no [tracks] field, or its [items] are empty. *)
Definition noCandidate (e : env) (token : option string) (query : string)
    : bool :=
  match searchEndpoint e token query with
  | SearchNetworkError => false
  | SearchResponse status tracks =>
      SongInfo.status2xx status
      && match tracks with Some (_ :: _) => false | _ => true end
  end.

(** The result that stands for a track of the catalog. *)
Definition foundOf (track : Search.track) : found :=
  {| title := Search.name track;
     artist := Search.artist track;
     trackId := Search.id track;
     spotifyUrl := Search.spotifyUrl track;
     popularity := Search.popularity track |}.

Definition coldState : state := {| cachedToken := None; tokenExpiresAt := 0 |}.

Definition searchRequest (query : string) : request :=
  {| reqMethod := GET; queryParam := Some query |}.

(** The catalog answers, with no track. *)
Definition emptyCatalog : env :=
  {| now := 0;
     clientId := Some "id";
     clientSecret := Some "secret";
     tokenEndpoint := TokenResponse 200 (Some "token") (Some 3600);
     searchEndpoint := fun _ _ => SearchResponse 200 (Some []) |}.

(** The catalog answers with two tracks. *)
Definition stockedCatalog : env :=
  {| now := 0;
     clientId := Some "id";
     clientSecret := Some "secret";
     tokenEndpoint := TokenResponse 200 (Some "token") (Some 3600);
     searchEndpoint := fun _ _ =>
       SearchResponse 200 (Some [SearchSpec.obscure; SearchSpec.hit]) |}.

(** The token endpoint refuses the credentials. *)
Definition authDown : env :=
  {| now := 0;
     clientId := Some "id";
     clientSecret := Some "wrong";
     tokenEndpoint := TokenResponse 401 None None;
     searchEndpoint := fun _ _ => SearchResponse 401 None |}.

(** The token is granted and the catalog times out. *)
Definition catalogDown : env :=
  {| now := 0;
     clientId := Some "id";
     clientSecret := Some "secret";
     tokenEndpoint := TokenResponse 200 (Some "token") (Some 3600);
     searchEndpoint := fun _ _ => SearchNetworkError |}.

End SpotifySpec.

Module SongInfoSpec.
Import Js JsMap Html Eff SongInfo.

(** [c] is neither a letter of [[a-z]] nor a digit. *)
Definition plainSymbol (c : ascii) : bool := negb (isLower c) && negb (isDigit c).

Definition notColon (c : ascii) : bool := negb (Ascii.eqb c ":").

(** The text of a [dd] that reads as a key, and as a genre. *)
Definition keyText (elem : dd) : option string :=
  let text := trim (ddText elem) in
  if negb (isEmpty text)
     && (includes (toLowerCase text) "major"
         || includes (toLowerCase text) "minor")
  then Some text else None.

Definition genreText (elem : dd) : option string :=
  let text := trim (ddText elem) in
  if negb (isEmpty text)
     && existsb (fun g => includes (toLowerCase text) g) genres
  then Some text else None.

(** A record that the pipeline stores: its tempo is set, from 40 to 240. *)
Definition storable (i : songInfo) : Prop :=
  match bpm i with
  | Some b => (40 <= b <= 240)%Z
  | None => False
  end.

Definition storableEntry (entry : string * memEntry) : Prop :=
  storable (data (snd entry)).

(** Both tiers hold storable records only. *)
Definition cleanCache (st : state) : Prop :=
  Forall storableEntry (memoryCache st)
  /\ map_Forall (fun _ en => storable (kvData en)) (kvStore st).

(** The parameter is given several times. *)
Definition repeated (v : queryValue) : bool :=
  match v with Several _ => true | _ => false end.

(** The status with which the handler answers a request. *)
Definition expectedStatus (req : request) : Z :=
  match reqMethod req with
  | OPTIONS => 200
  | OtherMethod => 405
  | GET =>
      if negb (truthyValue (queryArtist req))
         || negb (truthyValue (queryTitle req))
      then 400
      else if repeated (queryArtist req) || repeated (queryTitle req)
           then 500 else 200
  end.

(** A process that starts with an empty fast tier over the store that
    [st] leaves. *)
Definition coldStart (st : state) : state :=
  {| memoryCache := []; kvStore := kvStore st; requests := [] |}.

End SongInfoSpec.

(* ===================================================================== *)
(** ** The Express scraper: slug, URL lookup, route *)
(* ===================================================================== *)

Module Express.
Import Js Html Eff.
Local Open Scope eff_scope.

(** *** createSlug *)

Definition noLineTerminator (s : string) : bool :=
  sall (fun c => negb (isLineTerminator c)) s.

(** [s.replace(/TAG\.?.*$/gi, '')]: the match starts at the first [TAG]
    that no line terminator follows, and runs to the end of the string. *)
Fixpoint truncateAt (tag : string) (s : string) : string :=
  match s with
  | EmptyString => EmptyString
  | String c r =>
      if startsWith_ci s tag && noLineTerminator (drop (String.length tag) s)
      then EmptyString
      else String c (truncateAt tag r)
  end.

(** The class [[a-z0-9\s]]. *)
Definition keptChar (c : ascii) : bool := isLower c || isDigit c || isSpace c.

Definition createSlug (text : string) : string :=
  let s := toLowerCase text in
  let s := SongInfo.removeAnnotations "feat" 0 s in
  let s := SongInfo.removeAnnotations "ft" 0 s in
  let s := truncateAt "feat" s in
  let s := truncateAt "ft" s in
  let s := sfilter keptChar s in
  let s := collapseRuns isSpace "-" false s in
  let s := collapseRuns isHyphen "-" false s in
  let s := SongInfo.stripEdgeHyphens s in
  trim s.

(** *** findSongBPMUrl *)

(** An [a] element of the search page: its [href], its text and the text
    of its parent. *)
Record link : Type := {
  linkHref : option string;
  linkText : string;
  parentText : string
}.

(** What [fetch] resolves to: the status, the final URL after redirects,
    and the body as the two selectors of the code see it. *)
Record response : Type := {
  respStatus : Z;
  respUrl : string;
  respLinks : list link;
  respDoc : document
}.

(** The network: a HEAD and a GET request per URL, [None] when [fetch]
    rejects; and the builtin [encodeURIComponent]. *)
Record env : Type := {
  fetchHead : string -> option response;
  fetchGet : string -> option response;
  encodeURIComponent : string -> string
}.

Definition ok (r : response) : bool := SongInfo.status2xx (respStatus r).

Definition site : string := "https://songbpm.com".

Definition directUrl (songTitle artistName : string) : string :=
  site +:+ "/@" +:+ createSlug artistName +:+ "/" +:+ createSlug songTitle.

Definition mentions (l : link) (needle : string) : bool :=
  includes (toLowerCase (linkText l)) (toLowerCase needle)
  || includes (toLowerCase (parentText l)) (toLowerCase needle).

(** The loop over [$search('a[href^="/@"]')] on the variable [foundUrl]. *)
Fixpoint linkLoop (songTitle artistName : string) (links : list link)
    (foundUrl : option string) : option string :=
  match links with
  | [] => foundUrl
  | elem :: rest =>
      match linkHref elem, foundUrl with
      | Some h, None =>
          if isEmpty h then linkLoop songTitle artistName rest foundUrl
          else
            let fullUrl := site +:+ h in
            let matchesSong := mentions elem songTitle in
            let matchesArtist := mentions elem artistName in
            if matchesSong && matchesArtist then Some fullUrl
            else if matchesSong || matchesArtist
                 then linkLoop songTitle artistName rest (Some fullUrl)
                 else linkLoop songTitle artistName rest foundUrl
      | _, _ => linkLoop songTitle artistName rest foundUrl
      end
  end.

Definition songLinks (links : list link) : list link :=
  List.filter (fun l => match linkHref l with
                        | Some h => startsWith h "/@"
                        | None => false
                        end) links.

Definition findSongBPMUrl (e : env) (songTitle artistName : string)
    : outcome string :=
  let attempt : outcome string :=
    match fetchHead e (directUrl songTitle artistName) with
    | None => Thrown "fetch failed"
    | Some directResponse =>
        if ok directResponse then Returned (directUrl songTitle artistName)
        else
          let searchUrl :=
            site +:+ "/searches?query="
            +:+ encodeURIComponent e (songTitle +:+ " " +:+ artistName) in
          match fetchGet e searchUrl with
          | None => Thrown "fetch failed"
          | Some searchResponse =>
              if negb (ok searchResponse)
              then Thrown "Search failed on SongBPM.com"
              else
                let foundUrl :=
                  if negb (isEmpty (respUrl searchResponse))
                     && includes (respUrl searchResponse) "/@"
                  then Some (respUrl searchResponse) else None in
                let foundUrl :=
                  match foundUrl with
                  | Some u => Some u
                  | None =>
                      linkLoop songTitle artistName
                               (songLinks (respLinks searchResponse)) None
                  end in
                match foundUrl with
                | Some u => Returned u
                | None => Returned (directUrl songTitle artistName)
                end
          end
    end in
  match attempt with
  | Returned u => Returned u
  | Thrown _ => Returned (directUrl songTitle artistName)
  end.

(** *** scrapeSongBPM, getBPM and the route *)

Definition pageOf (r : option response) : httpOutcome :=
  match r with
  | None => NetworkError
  | Some r => HttpResponse (respStatus r) (respDoc r)
  end.

(** The whole of [scrapeSongBPM]: the URL lookup, the request, and the
    parsing modelled in [Features.scrapeSongBPM]. *)
Definition scrapeSongBPM (e : env) (songTitle artistName : string)
    : outcome Features.features :=
  match findSongBPMUrl e songTitle artistName with
  | Thrown msg => Thrown msg
  | Returned url => Features.scrapeSongBPM (pageOf (fetchGet e url))
  end.

(** The [bpm] field of what [getBPM] returns: a number, or the text
    "BPM unavailable". *)
Inductive tempo : Type :=
| Bpm (n : Z)
| Unavailable.

Record detected : Type := { bpm : tempo; key : option string }.

(** [getBPM], called by the route with values of [req.query]. On an
    array [createSlug] fails, since an array has no [toLowerCase]: first
    in the [try] block of [findSongBPMUrl], then again in its [catch]
    block, so that the error leaves [findSongBPMUrl] and [scrapeSongBPM]
    and is caught here. *)
Definition getBPM (e : env) (songTitle artistName : queryValue)
    : outcome detected :=
  let attempt : outcome Features.features :=
    match songTitle, artistName with
    | Text title, Text artist => scrapeSongBPM e title artist
    | _, _ => Thrown "text.toLowerCase is not a function"
    end in
  match attempt with
  | Returned f =>
      Returned {| bpm := Bpm (Features.bpm f); key := Features.key f |}
  | Thrown _ => Returned {| bpm := Unavailable; key := None |}
  end.

Record request : Type := {
  paramId : option string;
  queryTitle : queryValue;
  queryArtist : queryValue
}.

Inductive body : Type :=
| ErrorBody (error details : string)
| FeaturesBody (tempo : tempo) (key_info : string).

Record reply : Type := { status : Z; payload : body }.

(** [x || fallback] on a string that may be missing. *)
Definition orElse (x : option string) (fallback : string) : string :=
  match x with
  | Some s => if isEmpty s then fallback else s
  | None => fallback
  end.

(** [x || fallback] on a value of [req.query]. *)
Definition valueOrElse (x : queryValue) (fallback : string) : queryValue :=
  if truthyValue x then x else Text fallback.

(** The handler of [GET /:id]. *)
Definition featuresRoute (e : env) (req : request) : reply :=
  let id := trim (orElse (paramId req) "") in
  let attempt : outcome reply :=
    if isEmpty id
    then Returned {| status := 400;
                     payload := ErrorBody "bad_request" "Missing track id" |}
    else
      let songTitle := valueOrElse (queryTitle req) "Unknown" in
      let artistName := valueOrElse (queryArtist req) "Unknown" in
      match getBPM e songTitle artistName with
      | Thrown msg => Thrown msg
      | Returned result =>
          Returned {| status := 200;
                      payload := FeaturesBody (bpm result)
                                   (orElse (key result) "Unknown") |}
      end in
  match attempt with
  | Returned r => r
  | Thrown msg => {| status := 500; payload := ErrorBody "server_error" msg |}
  end.

End Express.

Module ExpressSpec.
Import Js Html Eff Express.

(** A letter of [[a-z]] or a digit. *)
Definition alnum (c : ascii) : bool := isLower c || isDigit c.

Definition noSpace (c : ascii) : bool := negb (isSpace c).

(** A letter of [[A-Za-z]], a digit or a space. *)
Definition plainChar (c : ascii) : bool :=
  isLower (lowerChar c) || isDigit c || Ascii.eqb c " ".

(** The URL that a link of the search page stands for when its text or
    that of its parent names the song or the artist. *)
Definition pickLink (songTitle artistName : string) (l : link) : option string :=
  match linkHref l with
  | Some h =>
      if negb (isEmpty h) && (mentions l songTitle || mentions l artistName)
      then Some (site +:+ h) else None
  | None => None
  end.

(** A key as the Express scraper returns it from a text of the range
    modelled here: a letter from A to G, alone or followed by [#] or [B]. *)
Definition validKey (k : string) : bool :=
  match k with
  | String a EmptyString => between 65 71 a
  | String a (String b EmptyString) =>
      between 65 71 a && (Ascii.eqb b "#" || Ascii.eqb b "B")
  | _ => false
  end.

(** A key as the route reports it, whatever the sign: a letter from A
    to G, alone or followed by one more character. *)
Definition keyShape (k : string) : bool :=
  match k with
  | String a EmptyString => between 65 71 a
  | String a (String _ EmptyString) => between 65 71 a
  | _ => false
  end.

Definition tempoInRange (t : tempo) : Prop :=
  match t with
  | Bpm n => (40 <= n <= 240)%Z
  | Unavailable => True
  end.

(** A search page with two links: the first names the artist only, the
    second names the song and the artist. *)
Definition twoLinks : list link :=
  [ {| linkHref := Some "/@keshi/other-song"; linkText := "Other Song";
       parentText := "Other Song keshi" |};
    {| linkHref := Some "/@keshi/2-soon"; linkText := "2 Soon";
       parentText := "2 Soon keshi" |} ].

Definition emptyDoc : document := {| ddTags := []; aTags := [] |}.

(** A network on which the direct page is missing and the search answers
    with [twoLinks]. *)
Definition searchingEnv : env :=
  {| fetchHead := fun _ =>
       Some {| respStatus := 404; respUrl := ""; respLinks := [];
               respDoc := emptyDoc |};
     fetchGet := fun url =>
       Some {| respStatus := 200;
               respUrl := "https://songbpm.com/searches";
               respLinks := twoLinks; respDoc := emptyDoc |};
     encodeURIComponent := fun s => s |}.

End ExpressSpec.

(* ===================================================================== *)
(** ** The Express search route: token, query parsing, catalog search *)
(* ===================================================================== *)

Module SpotifyAuth.
Import Js Eff.
Local Open Scope eff_scope.

(** The module state: [cachedToken] and [tokenExpiresAt]. *)
Record state : Type := {
  cachedToken : option string;
  tokenExpiresAt : Z
}.

(** The answer of the token endpoint, when [fetch] resolves. *)
Record tokenResponse : Type := {
  tokenStatus : Z;
  access_token : option string;
  expires_in : option Z
}.

(** [Date.now()], the two variables of the process environment, and the
    token endpoint ([None] when [fetch] rejects). *)
Record env : Type := {
  now : Z;
  SPOTIFY_CLIENT_ID : option string;
  SPOTIFY_CLIENT_SECRET : option string;
  tokenEndpoint : option tokenResponse
}.

(** [(process.env.X || '').trim()]. *)
Definition credential (x : option string) : string :=
  trim (match x with Some s => s | None => "" end).

Definition clientId (e : env) : string := credential (SPOTIFY_CLIENT_ID e).
Definition clientSecret (e : env) : string := credential (SPOTIFY_CLIENT_SECRET e).

Definition truthyString := SongInfo.truthyString.

Definition getAccessToken (e : env) (force : bool) : M state (option string) :=
  st <- get ;;
  if negb force && truthyString (cachedToken st)
     && (now e <? tokenExpiresAt st)%Z
  then ret (cachedToken st)
  else
    if isEmpty (clientId e) || isEmpty (clientSecret e)
    then throw "Spotify credentials not configured"
    else
      tryCatch
        (match tokenEndpoint e with
         | None => throw "fetch failed"
         | Some res =>
             if negb (SongInfo.status2xx (tokenStatus res))
             then throw "Failed to fetch Spotify token"
             else
               let seconds :=
                 match expires_in res with Some n => n | None => 3600%Z end in
               let expiresInMs := (seconds * 1000)%Z in
               modify (fun _ =>
                 {| cachedToken := access_token res;
                    tokenExpiresAt := (now e + expiresInMs - 60000)%Z |}) ;;;
               ret (access_token res)
         end)
        (fun err => throw err).

End SpotifyAuth.

Module ExpressSearch.
Import Js Eff.
Local Open Scope eff_scope.

(** [s.replace(/(P)(Q)/g, '$1 $2')] for two character classes: a space
    goes between a [P] character and the [Q] character that follows it. *)
Fixpoint spaceBetween (p q : ascii -> bool) (s : string) : string :=
  match s with
  | String a (String b r as t) =>
      if p a && q b
      then String a (String " " (String b (spaceBetween p q r)))
      else String a (spaceBetween p q t)
  | _ => s
  end.

(** The normalization at the head of [parseSongQuery]. *)
Definition cleanQuery (query : string) : string :=
  let s := trim (collapseRuns isSpace " " false (toLowerCase query)) in
  let s := spaceBetween isDigit isLower s in
  spaceBetween isLower isDigit s.

(** [s.split(sep)[0]], and the rest of [s] after the first [sep]. *)
Fixpoint beforeSep (sep s : string) : string :=
  match s with
  | EmptyString => EmptyString
  | String c r =>
      if startsWith s sep then EmptyString else String c (beforeSep sep r)
  end.

Fixpoint afterSep (sep s : string) : option string :=
  match s with
  | EmptyString => None
  | String c r =>
      if startsWith s sep then Some (drop (String.length sep) s)
      else afterSep sep r
  end.

(** The answer of the catalog to the track search, when [fetch]
    resolves: [items] is [data.tracks.items] when it is there. *)
Record catalogResponse : Type := {
  catalogStatus : Z;
  items : option (list Search.track)
}.

Record env : Type := {
  auth : SpotifyAuth.env;
  catalog : string -> option string -> option catalogResponse;
  encodeURIComponent : string -> string
}.

Definition searchUrl (e : env) (query : string) : string :=
  "https://api.spotify.com/v1/search?q=" +:+ encodeURIComponent e query
  +:+ "&type=track&limit=10".

Definition searchSpotifyAPI (e : env) (query : string)
    : M SpotifyAuth.state (option Search.result) :=
  tryCatch
    (token <- SpotifyAuth.getAccessToken (auth e) false ;;
     match catalog e (searchUrl e query) token with
     | None => throw "fetch failed"
     | Some response =>
         if negb (SongInfo.status2xx (catalogStatus response))
         then throw "Spotify API returned an error"
         else ret match items response with
                  | Some tracks => Search.selectTrack query tracks
                  | None => None
                  end
     end)
    (fun _ => ret None).

(** What [parseSongQuery] returns: the two parts of a query with a
    separator, a track of the catalog, or the placeholder. [stamp] is the
    [Date.now()] of the track id. *)
Inductive parsed : Type :=
| UserInput (title artist : string) (stamp : Z)
| FromCatalog (r : Search.result)
| NotFound (title : string) (stamp : Z).

Definition splitAt (sep cleaned : string) (stamp : Z) : option parsed :=
  match afterSep sep cleaned with
  | Some rest =>
      Some (UserInput (trim (beforeSep sep cleaned))
                      (trim (beforeSep sep rest)) stamp)
  | None => None
  end.

Definition parseSongQuery (e : env) (query : string)
    : M SpotifyAuth.state parsed :=
  let cleaned := cleanQuery query in
  let stamp := SpotifyAuth.now (auth e) in
  match splitAt " - " cleaned stamp with
  | Some p => ret p
  | None =>
      match splitAt " by " cleaned stamp with
      | Some p => ret p
      | None =>
          found <- tryCatch (searchSpotifyAPI e cleaned) (fun _ => ret None) ;;
          match found with
          | Some r => ret (FromCatalog r)
          | None => ret (NotFound cleaned stamp)
          end
      end
  end.

Inductive body : Type :=
| ErrorBody (error details : string)
| Results (r : list parsed).

Record reply : Type := { status : Z; payload : body }.

(** The handler of [GET /]. [req.query.query?.trim()] is undefined when
    the parameter is missing, and fails on an array, which has no
    [trim]. *)
Definition searchRoute (e : env) (queryParam : queryValue)
    : M SpotifyAuth.state reply :=
  tryCatch
    (query <- match queryParam with
              | Absent => ret None
              | Text s => ret (Some (trim s))
              | Several _ => throw "req.query.query?.trim is not a function"
              end ;;
     if SongInfo.truthyString query
     then
       result <- parseSongQuery e (default "" query) ;;
       ret {| status := 200; payload := Results [result] |}
     else ret {| status := 400;
                 payload := ErrorBody "bad_request" "Missing query parameter" |})
    (fun msg => ret {| status := 500; payload := ErrorBody "parse_error" msg |}).

End ExpressSearch.

Module SearchRouteSpec.
Import Js Eff.

(** Some [p] character of [s] is followed at once by a [q] character. *)
Fixpoint adjacent (p q : ascii -> bool) (s : string) : bool :=
  match s with
  | String a (String b _ as t) => (p a && q b) || adjacent p q t
  | _ => false
  end.

(** The token cannot be obtained afresh: a credential is missing or
    blank, or the token endpoint does not answer or answers outside 2xx. *)
Definition authFails (e : SpotifyAuth.env) : bool :=
  isEmpty (SpotifyAuth.clientId e) || isEmpty (SpotifyAuth.clientSecret e)
  || match SpotifyAuth.tokenEndpoint e with
     | None => true
     | Some res => negb (SongInfo.status2xx (SpotifyAuth.tokenStatus res))
     end.

(** No usable token is cached. *)
Definition tokenStale (e : SpotifyAuth.env) (st : SpotifyAuth.state) : bool :=
  negb (SongInfo.truthyString (SpotifyAuth.cachedToken st)
        && (SpotifyAuth.now e <? SpotifyAuth.tokenExpiresAt st)%Z).

(** The trimmed query, when the parameter is a string. *)
Definition trimmed (queryParam : queryValue) : option string :=
  option_map trim (textOf queryParam).

(** The query has neither of the two separators. *)
Definition noSeparator (cleaned : string) : bool :=
  match ExpressSearch.afterSep " - " cleaned,
        ExpressSearch.afterSep " by " cleaned with
  | None, None => true
  | _, _ => false
  end.

(** The instant until which a token granted at [now e] is reused. *)
Definition reuseUntil (e : SpotifyAuth.env) (res : SpotifyAuth.tokenResponse) : Z :=
  (SpotifyAuth.now e
   + match SpotifyAuth.expires_in res with Some n => n | None => 3600 end * 1000
   - 60000)%Z.

Definition granted (tok : string) (seconds : Z) : SpotifyAuth.tokenResponse :=
  {| SpotifyAuth.tokenStatus := 200;
     SpotifyAuth.access_token := Some tok;
     SpotifyAuth.expires_in := Some seconds |}.

Definition authAt (t : Z) (endpoint : option SpotifyAuth.tokenResponse)
    : SpotifyAuth.env :=
  {| SpotifyAuth.now := t;
     SpotifyAuth.SPOTIFY_CLIENT_ID := Some "id";
     SpotifyAuth.SPOTIFY_CLIENT_SECRET := Some "secret";
     SpotifyAuth.tokenEndpoint := endpoint |}.

Definition noToken : SpotifyAuth.state :=
  {| SpotifyAuth.cachedToken := None; SpotifyAuth.tokenExpiresAt := 0 |}.

(** A process without credentials, in front of a catalog that would
    answer. *)
Definition noCredentials : ExpressSearch.env :=
  {| ExpressSearch.auth :=
       {| SpotifyAuth.now := 0;
          SpotifyAuth.SPOTIFY_CLIENT_ID := None;
          SpotifyAuth.SPOTIFY_CLIENT_SECRET := Some "  ";
          SpotifyAuth.tokenEndpoint := Some (granted "token" 3600) |};
     ExpressSearch.catalog := fun _ _ =>
       Some {| ExpressSearch.catalogStatus := 200;
               ExpressSearch.items := Some [SearchSpec.hit] |};
     ExpressSearch.encodeURIComponent := fun s => s |}.

End SearchRouteSpec.

Module TokenSpec.
Import Js Eff SpotifySearch.

(** The instant until which the search function reuses a token granted
    at [now e]: an [expires_in] of zero counts as 3600 seconds. *)
Definition reuseUntil (e : env) (expires_in : option Z) : Z :=
  (now e
   + match expires_in with
     | Some n => if (n =? 0)%Z then 3600 else n
     | None => 3600
     end * 1000
   - 60000)%Z.

Definition envAt (t : Z) (endpoint : tokenOutcome) : env :=
  {| now := t;
     clientId := Some "id";
     clientSecret := Some "secret";
     tokenEndpoint := endpoint;
     searchEndpoint := fun _ _ => SearchNetworkError |}.

(** The status with which the handler answers a request. *)
Definition expectedStatus (req : request) : Z :=
  match reqMethod req with
  | OPTIONS => 200
  | OtherMethod => 405
  | GET => if truthyString (queryParam req) then 200 else 400
  end.

End TokenSpec.

Module EdgeSpec.
Import Js Html SongInfo.

(** The address behind a link into the namespace of the artist. *)
Definition namespaceLink (artistSlug : string) (a : anchor) : option string :=
  match href a with
  | Some h =>
      if includes h ("/@" +:+ artistSlug +:+ "/") then Some (site +:+ h) else None
  | None => None
  end.

End EdgeSpec.

(* ===================================================================== *)
(** * Properties *)
(* ===================================================================== *)

(** ** The definitions on small inputs *)

Module Examples.
Import Js Html Eff.
Local Open Scope float_scope.

Example normalize_artist : SongInfo.normalizeForUrl "The Weeknd" = "the-weeknd".
Proof. reflexivity. Qed.

Example normalize_featuring :
  SongInfo.normalizeForUrl "  Stay (feat. Justin Bieber) - Remix! " = "stay-remix".
Proof. reflexivity. Qed.

Example normalize_punctuation : SongInfo.normalizeForUrl "?!-" = "".
Proof. reflexivity. Qed.

Example split_edges : splitSpaces " a  b " = [""; "a"; "b"; ""].
Proof. reflexivity. Qed.

Example extract_found :
  SongInfo.extractSongInfo CacheSpec.foundPage = CacheSpec.foundInfo.
Proof. reflexivity. Qed.

Example scrape_found :
  Features.scrapeSongBPM (HttpResponse 200 CacheSpec.foundPage) =
  Returned {| Features.bpm := 171; Features.key := None |}.
Proof. reflexivity. Qed.

Example scrape_missing :
  Features.scrapeSongBPM (HttpResponse 404 CacheSpec.emptyPage) =
  Thrown "Song not found on SongBPM.com".
Proof. reflexivity. Qed.

Example score_obscure : Search.scoreOf "ab cd" SearchSpec.obscure = 20.
Proof. reflexivity. Qed.

Example score_hit : Search.scoreOf "ab cd" SearchSpec.hit = 15.
Proof. reflexivity. Qed.

Example scores_off_target :
  map (Search.scoreOf "zz qq")
      [SearchSpec.offTarget; SearchSpec.offObscure; SearchSpec.offHit] =
  [-24; -7; -17].
Proof. reflexivity. Qed.

(** A parameter given twice reaches the handlers as an array. *)
Example song_info_repeated_artist :
  valueOf (SongInfo.handler (CacheSpec.quietEnv 0)
             {| SongInfo.reqMethod := SongInfo.GET;
                SongInfo.queryArtist := Several ["a"; "b"];
                SongInfo.queryTitle := Text "c" |})
          CacheSpec.emptyState =
  Returned {| SongInfo.status := 500;
              SongInfo.payload := SongInfo.ErrorBody "Internal server error" |}.
Proof. reflexivity. Qed.

Example search_route_repeated_query :
  valueOf (ExpressSearch.searchRoute SearchRouteSpec.noCredentials
             (Several ["a"; "b"]))
          SearchRouteSpec.noToken =
  Returned {| ExpressSearch.status := 500;
              ExpressSearch.payload :=
                ExpressSearch.ErrorBody "parse_error"
                  "req.query.query?.trim is not a function" |}.
Proof. reflexivity. Qed.

Example features_route_repeated_title :
  Express.featuresRoute ExpressSpec.searchingEnv
    {| Express.paramId := Some "id";
       Express.queryTitle := Several ["a"; "b"];
       Express.queryArtist := Absent |} =
  {| Express.status := 200;
     Express.payload := Express.FeaturesBody Express.Unavailable "Unknown" |}.
Proof. reflexivity. Qed.

(** Rounding decides: 7 / 5 and 47 / 5 - 8 are both 1.4 as fractions, and
    the second is the larger as doubles, so the second track wins. *)
Example scores_rounded :
  Search.gtb (Search.scoreOf "zz" SearchSpec.nearSecond)
             (Search.scoreOf "zz" SearchSpec.nearFirst) = true
  /\ Search.selectTrack "zz" [SearchSpec.nearFirst; SearchSpec.nearSecond;
                              SearchSpec.offHit] =
     Some (Search.resultOf SearchSpec.nearSecond Search.medium).
Proof. split; reflexivity. Qed.

End Examples.

(** ** The normalizer *)

Module SlugFacts.
Import Js SongInfo SlugSpec.

Ltac each_char c :=
  destruct c as [[|] [|] [|] [|] [|] [|] [|] [|]]; vm_compute;
  try reflexivity; try discriminate; try congruence.

Lemma slugChar_lower c : slugChar c = true -> lowerChar c = c.
Proof. each_char c. Qed.

Lemma slugChar_not_space c : slugChar c = true -> isSpace c = false.
Proof. each_char c. Qed.

Lemma slugChar_not_paren c :
  slugChar c = true -> Ascii.eqb (lowerChar "(") (lowerChar c) = false.
Proof. each_char c. Qed.

Lemma slugChar_kept c : slugChar c = true -> keptChar c = true.
Proof. each_char c. Qed.

Lemma kept_not_space_slug c :
  keptChar c = true -> isSpace c = false -> slugChar c = true.
Proof. each_char c. Qed.

Lemma isHyphen_eq c : isHyphen c = true -> c = "-"%char.
Proof. each_char c. Qed.

Lemma sall_cons p c r : sall p (String c r) = true -> p c = true /\ sall p r = true.
Proof. simpl. apply andb_true_iff. Qed.

(** *** Each step leaves a slug alone *)

Lemma toLowerCase_slug s : sall slugChar s = true -> toLowerCase s = s.
Proof.
  induction s as [|c r IH]; [reflexivity|].
  intros [Hc Hr]%sall_cons. unfold toLowerCase in *. simpl.
  rewrite (slugChar_lower _ Hc), (IH Hr). reflexivity.
Qed.

Lemma trimStart_slug s : sall slugChar s = true -> trimStart s = s.
Proof.
  destruct s as [|c r]; [reflexivity|].
  intros [Hc _]%sall_cons. simpl. now rewrite (slugChar_not_space _ Hc).
Qed.

Lemma trimEnd_slug s : sall slugChar s = true -> trimEnd s = s.
Proof.
  induction s as [|c r IH]; [reflexivity|].
  intros [Hc Hr]%sall_cons. simpl.
  rewrite (slugChar_not_space _ Hc), (IH Hr). reflexivity.
Qed.

Lemma removeAnnotations_slug tag s :
  sall slugChar s = true -> removeAnnotations tag 0 s = s.
Proof.
  induction s as [|c r IH]; [reflexivity|].
  intros [Hc Hr]%sall_cons.
  cbn [removeAnnotations]. unfold matchAnnotation.
  cbn [startsWith_ci]. rewrite (slugChar_not_paren _ Hc). cbn [andb].
  now rewrite (IH Hr).
Qed.

Lemma sfilter_slug s : sall slugChar s = true -> sfilter keptChar s = s.
Proof.
  induction s as [|c r IH]; [reflexivity|].
  intros [Hc Hr]%sall_cons. simpl.
  rewrite (slugChar_kept _ Hc), (IH Hr). reflexivity.
Qed.

Lemma collapseSpaces_slug b s :
  sall slugChar s = true -> collapseRuns isSpace "-" b s = s.
Proof.
  revert b. induction s as [|c r IH]; intros b; [reflexivity|].
  intros [Hc Hr]%sall_cons. simpl.
  rewrite (slugChar_not_space _ Hc), (IH _ Hr). reflexivity.
Qed.

Lemma collapseHyphens_single b s :
  singleHyphens b s = true -> collapseRuns isHyphen "-" b s = s.
Proof.
  revert b. induction s as [|c r IH]; intros b; [reflexivity|].
  simpl. destruct (isHyphen c) eqn:Hc.
  - intros [Hb Hr]%andb_true_iff. destruct b; [discriminate|].
    rewrite (IH _ Hr), (isHyphen_eq _ Hc). reflexivity.
  - intros Hr. now rewrite (IH _ Hr).
Qed.

Lemma dropFinalHyphen_id s : finalHyphen s = false -> dropFinalHyphen s = s.
Proof.
  induction s as [|c r IH]; [reflexivity|].
  simpl. destruct (isEmpty r) eqn:Hr.
  - intros ->. destruct r; [reflexivity|discriminate].
  - intros H. rewrite andb_false_r, (IH H). reflexivity.
Qed.

Lemma stripEdgeHyphens_slug s :
  singleHyphens true s = true -> finalHyphen s = false ->
  stripEdgeHyphens s = s.
Proof.
  destruct s as [|c r]; [reflexivity|].
  intros Hs Hf. unfold stripEdgeHyphens.
  destruct (isHyphen c) eqn:Hc.
  - simpl in Hs. rewrite Hc in Hs. discriminate.
  - now apply dropFinalHyphen_id.
Qed.

Lemma singleHyphens_weaken b s :
  singleHyphens true s = true -> singleHyphens b s = true.
Proof.
  destruct s as [|c r]; [reflexivity|]. simpl.
  destruct (isHyphen c); [discriminate|auto].
Qed.

Lemma normalizeForUrl_slug s : isSlug s = true -> normalizeForUrl s = s.
Proof.
  unfold isSlug. intros [[Ha Hs]%andb_true_iff Hf%negb_true_iff]%andb_true_iff.
  unfold normalizeForUrl, trim.
  rewrite (toLowerCase_slug _ Ha), (trimStart_slug _ Ha), (trimEnd_slug _ Ha).
  rewrite !(removeAnnotations_slug _ _ Ha), (sfilter_slug _ Ha).
  rewrite (collapseSpaces_slug _ _ Ha).
  rewrite (collapseHyphens_single _ _ (singleHyphens_weaken false _ Hs)).
  now apply stripEdgeHyphens_slug.
Qed.

(** *** The output is a slug *)

Lemma sall_sfilter p s : sall p (sfilter p s) = true.
Proof.
  induction s as [|c r IH]; [reflexivity|]. simpl.
  destruct (p c) eqn:Hc; [simpl; now rewrite Hc|exact IH].
Qed.

Lemma sall_collapseSpaces b s :
  sall keptChar s = true ->
  sall slugChar (collapseRuns isSpace "-" b s) = true.
Proof.
  revert b. induction s as [|c r IH]; intros b; [reflexivity|].
  intros [Hc Hr]%sall_cons. simpl.
  destruct (isSpace c) eqn:Hsp.
  - destruct b; simpl; auto.
  - simpl. now rewrite (kept_not_space_slug _ Hc Hsp), IH.
Qed.

Lemma sall_collapseHyphens b s :
  sall slugChar s = true ->
  sall slugChar (collapseRuns isHyphen "-" b s) = true.
Proof.
  revert b. induction s as [|c r IH]; intros b; [reflexivity|].
  intros [Hc Hr]%sall_cons. cbn [collapseRuns].
  destruct (isHyphen c); [destruct b|]; cbn [sall]; auto.
  - change (slugChar "-") with true. cbn [andb]. auto.
  - rewrite Hc. cbn [andb]. auto.
Qed.

Lemma single_collapseHyphens b s :
  singleHyphens b (collapseRuns isHyphen "-" b s) = true.
Proof.
  revert b. induction s as [|c r IH]; intros b; [reflexivity|].
  simpl. destruct (isHyphen c) eqn:Hc.
  - destruct b; [apply IH|]. simpl. apply IH.
  - simpl. rewrite Hc. apply IH.
Qed.

Lemma sall_dropFinalHyphen p s :
  sall p s = true -> sall p (dropFinalHyphen s) = true.
Proof.
  induction s as [|c r IH]; [reflexivity|].
  intros [Hc Hr]%sall_cons. simpl.
  destruct (isHyphen c && isEmpty r); [reflexivity|].
  simpl. now rewrite Hc, IH.
Qed.

Lemma single_dropFinalHyphen b s :
  singleHyphens b s = true -> singleHyphens b (dropFinalHyphen s) = true.
Proof.
  revert b. induction s as [|c r IH]; intros b; [reflexivity|].
  simpl. destruct (isHyphen c) eqn:Hc; simpl.
  - intros [Hb Hr]%andb_true_iff.
    destruct (isEmpty r); [reflexivity|]. simpl.
    rewrite Hc, Hb. now apply IH.
  - intros Hr. simpl. rewrite Hc. now apply IH.
Qed.

Lemma dropFinalHyphen_empty s :
  dropFinalHyphen s = EmptyString -> s = EmptyString \/ s = "-".
Proof.
  destruct s as [|c r]; [now left|]. simpl.
  destruct (isHyphen c) eqn:Hc; simpl; [|discriminate].
  destruct r; simpl; [|discriminate].
  intros _. right. now rewrite (isHyphen_eq _ Hc).
Qed.

Lemma final_dropFinalHyphen b s :
  singleHyphens b s = true -> finalHyphen (dropFinalHyphen s) = false.
Proof.
  revert b. induction s as [|c r IH]; intros b; [reflexivity|].
  intros Hs. cbn [dropFinalHyphen].
  destruct (isHyphen c && isEmpty r) eqn:Hlast; [reflexivity|].
  cbn [finalHyphen].
  destruct (dropFinalHyphen r) as [|c' r'] eqn:Hd.
  - cbn [isEmpty].
    destruct (dropFinalHyphen_empty _ Hd) as [-> | ->].
    + now rewrite andb_true_r in Hlast.
    + simpl in Hs. destruct (isHyphen c); [|reflexivity].
      now rewrite andb_false_r in Hs.
  - cbn [isEmpty].
    simpl in Hs. destruct (isHyphen c).
    + apply andb_true_iff in Hs as [_ Hs]. now apply (IH true).
    + now apply (IH false).
Qed.

Lemma stripEdgeHyphens_spec s :
  sall slugChar s = true -> singleHyphens false s = true ->
  isSlug (stripEdgeHyphens s) = true.
Proof.
  intros Ha Hs. unfold isSlug.
  destruct s as [|c r]; [reflexivity|].
  apply sall_cons in Ha as [Hc Hr].
  unfold stripEdgeHyphens. simpl in Hs.
  destruct (isHyphen c) eqn:Hy.
  - simpl in Hs.
    rewrite (sall_dropFinalHyphen _ _ Hr), (single_dropFinalHyphen _ _ Hs).
    now rewrite (final_dropFinalHyphen _ _ Hs).
  - assert (Hs' : singleHyphens true (String c r) = true)
      by (simpl; now rewrite Hy).
    assert (Ha' : sall slugChar (String c r) = true)
      by (simpl; now rewrite Hc, Hr).
    rewrite (sall_dropFinalHyphen _ _ Ha'), (single_dropFinalHyphen _ _ Hs').
    now rewrite (final_dropFinalHyphen _ _ Hs').
Qed.

(** Whatever the input, the normalizer returns a slug. *)
Lemma normalizeForUrl_isSlug text : isSlug (normalizeForUrl text) = true.
Proof.
  unfold normalizeForUrl.
  apply stripEdgeHyphens_spec.
  - apply sall_collapseHyphens, sall_collapseSpaces, sall_sfilter.
  - apply single_collapseHyphens.
Qed.

(** C9. The slug normalizer is idempotent: normalizing the output of the
    normalizer returns that output unchanged, for every input text. *)
Theorem normalizeForUrl_idempotent (text : string) :
  normalizeForUrl (normalizeForUrl text) = normalizeForUrl text.
Proof. apply normalizeForUrl_slug, normalizeForUrl_isSlug. Qed.

End SlugFacts.

(** ** The monad *)

Module EffFacts.
Import Eff.

Section Inversion.
Context {S A B : Type}.

Lemma bind_returned (m : M S A) (f : A -> M S B) st b st' :
  bind m f st = (Returned b, st') ->
  exists a st0, m st = (Returned a, st0) /\ f a st0 = (Returned b, st').
Proof.
  unfold bind. destruct (m st) as [[a|msg] st0]; [eauto|discriminate].
Qed.

Lemma bind_run (m : M S A) (f : A -> M S B) st a st0 :
  m st = (Returned a, st0) -> bind m f st = f a st0.
Proof. unfold bind. now intros ->. Qed.

Lemma bind_thrown (m : M S A) (f : A -> M S B) st msg st0 :
  m st = (Thrown msg, st0) -> bind m f st = (Thrown msg, st0).
Proof. unfold bind. now intros ->. Qed.

End Inversion.

Lemma tryCatch_total {S A} (m : M S A) (h : string -> M S A) st :
  (forall msg st0, isReturned (fst (h msg st0)) = true) ->
  isReturned (fst (tryCatch m h st)) = true.
Proof.
  intros Hh. unfold tryCatch.
  destruct (m st) as [[a|msg] st0]; [reflexivity|apply Hh].
Qed.

End EffFacts.

(** ** The map *)

Module JsMapFacts.
Import JsMap.
Section Facts.
Context {V : Type}.
Implicit Types (m : list (string * V)) (k : string) (v : V).

Lemma mapGet_mapSet_eq k v m : mapGet k (mapSet k v m) = Some v.
Proof.
  induction m as [|[k' v'] r IH]; simpl.
  - now rewrite String.eqb_refl.
  - destruct (String.eqb k k') eqn:E; simpl; rewrite ?String.eqb_refl, ?E; auto.
Qed.

Lemma mapGet_mapSet_ne k k' v m :
  k <> k' -> mapGet k' (mapSet k v m) = mapGet k' m.
Proof.
  intros Hne. induction m as [|[k0 v0] r IH]; simpl.
  - destruct (String.eqb_spec k' k); congruence.
  - destruct (String.eqb_spec k k0) as [->|]; simpl.
    + destruct (String.eqb_spec k' k0); congruence.
    + now rewrite IH.
Qed.

Lemma mapSet_fresh k v m : mapGet k m = None -> mapSet k v m = (m ++ [(k, v)])%list.
Proof.
  induction m as [|[k' v'] r IH]; simpl; [reflexivity|].
  destruct (String.eqb k k'); [discriminate|]. intros H. now rewrite IH.
Qed.

Lemma length_mapSet_fresh k v m :
  mapGet k m = None -> List.length (mapSet k v m) = Datatypes.S (List.length m).
Proof.
  intros H. rewrite (mapSet_fresh _ _ _ H), length_app. simpl. lia.
Qed.

Lemma mapDelete_absent k m : mapGet k m = None -> mapDelete k m = m.
Proof.
  induction m as [|[k' v'] r IH]; simpl; [reflexivity|].
  destruct (String.eqb k k'); [discriminate|]. intros H. now rewrite IH.
Qed.

Lemma mapGet_In k v m : mapGet k m = Some v -> In k (keys m).
Proof.
  induction m as [|[k' v'] r IH]; simpl; [discriminate|].
  destruct (String.eqb_spec k k'); [now left|]. intros H. right. now apply IH.
Qed.

Lemma mapGet_notIn k m : ~ In k (keys m) -> mapGet k m = None.
Proof.
  intros H. destruct (mapGet k m) eqn:E; [|reflexivity].
  elim H. eapply mapGet_In, E.
Qed.

Lemma keys_mapDelete_incl k m x : In x (keys (mapDelete k m)) -> In x (keys m).
Proof.
  induction m as [|[k' v'] r IH]; simpl; [tauto|].
  destruct (String.eqb k k'); simpl; tauto.
Qed.

(** The keys of a map stay distinct. *)
Lemma NoDup_mapDelete k m : List.NoDup (keys m) -> List.NoDup (keys (mapDelete k m)).
Proof.
  induction m as [|[k' v'] r IH]; simpl; [auto|].
  intros H. apply List.NoDup_cons_iff in H as [Hn Hr].
  destruct (String.eqb k k'); [exact Hr|]. simpl.
  apply List.NoDup_cons_iff. split; [|auto].
  intros Hin. apply Hn. eapply keys_mapDelete_incl, Hin.
Qed.

Lemma keys_mapSet k v m :
  keys (mapSet k v m) =
  match mapGet k m with Some _ => keys m | None => (keys m ++ [k])%list end.
Proof.
  induction m as [|[k' v'] r IH]; simpl; [reflexivity|].
  destruct (String.eqb_spec k k') as [->|]; simpl; [reflexivity|].
  rewrite IH. now destruct (mapGet k r).
Qed.

Lemma NoDup_mapSet k v m : List.NoDup (keys m) -> List.NoDup (keys (mapSet k v m)).
Proof.
  intros H. rewrite keys_mapSet. destruct (mapGet k m) eqn:E; [exact H|].
  apply List.NoDup_app; [exact H| |].
  - constructor; [simpl; tauto|constructor].
  - intros x Hx [Hk|[]]. subst x.
    destruct (in_map_iff fst m k) as [[[k0 v0] [Hk0 Hin]] _]; [exact Hx|].
    simpl in Hk0. subst k0. clear Hx H.
    induction m as [|[k' v'] r IH]; [destruct Hin|].
    simpl in E. destruct (String.eqb_spec k k'); [discriminate|].
    destruct Hin as [Heq|Hin]; [congruence|auto].
Qed.

End Facts.
End JsMapFacts.

(** ** The hybrid cache *)

Module CacheFacts.
Import Js JsMap Html Eff SongInfo CacheSpec JsMapFacts.

Ltac run := unfold stateAfter, valueOf, setCache, setCacheAt, getCache, kvSet,
  kvGet, setMemory, tryCatch, bind, ret, throw, get, modify in *; cbn [fst snd] in *.

(** [setCache] in one step: the oldest entry leaves a full map, the new
    entry goes in, and the store is written when it answers. *)
Lemma setCacheAt_run cap e k d st :
  setCacheAt cap e k d st =
  (Returned tt,
   {| memoryCache :=
        mapSet k {| data := d; timestamp := now e |}
               (evict cap (memoryCache st));
      kvStore :=
        if kvUp e
        then <[k := {| kvData := d;
                       kvExpires := now e + CACHE_TTL_SECONDS * 1000 |}]>
               (kvStore st)
        else kvStore st;
      requests := requests st |}).
Proof.
  destruct st as [mem store reqs]. unfold evict. run. cbn.
  destruct (cap <=? List.length mem)%nat; destruct mem as [|[k0 e0] r];
    destruct (kvUp e); reflexivity.
Qed.

(** A fresh entry of the fast tier answers, and nothing changes. *)
Lemma getCache_memory_hit e k st en :
  mapGet k (memoryCache st) = Some en ->
  now e - timestamp en <= CACHE_TTL_MS ->
  getCache e k st =
  (Returned (Some {| cachedData := data en; cachedLayer := memory |}), st).
Proof.
  intros Hget Hfresh. run. rewrite Hget.
  destruct (Z.gtb_spec (now e - timestamp en) CACHE_TTL_MS); [lia|reflexivity].
Qed.

Lemma mapGet_mapDelete_ne {V} (k k' : string) (m : list (string * V)) :
  k <> k' -> mapGet k' (mapDelete k m) = mapGet k' m.
Proof.
  intros Hne. induction m as [|[k0 v0] r IH]; simpl; [reflexivity|].
  destruct (String.eqb_spec k k0) as [->|]; simpl.
  - destruct (String.eqb_spec k' k0); congruence.
  - now rewrite IH.
Qed.

(** A miss of the fast tier followed by a hit of the store. *)
Lemma getCache_promote e k st d :
  memoryMiss e k st = true -> kvHit e k st d ->
  getCache e k st =
  (Returned (Some {| cachedData := d; cachedLayer := kv |}),
   {| memoryCache :=
        mapSet k {| data := d; timestamp := now e |}
               (mapDelete k (memoryCache st));
      kvStore := kvStore st;
      requests := requests st |}).
Proof.
  unfold memoryMiss, kvHit. intros Hmiss (Hup & en & Hlook & Hlive & <-).
  destruct st as [mem store reqs]. run. cbn in *.
  destruct (mapGet k mem) as [old|] eqn:Hget.
  - rewrite Hmiss. cbn. rewrite Hup. cbn. rewrite Hlook.
    destruct (Z.ltb_spec (now e) (kvExpires en)); [reflexivity|lia].
  - rewrite Hup. cbn. rewrite Hlook, (mapDelete_absent _ _ Hget).
    destruct (Z.ltb_spec (now e) (kvExpires en)); [reflexivity|lia].
Qed.

(** The keys of the fast tier stay distinct, as those of a [Map] are. *)
Lemma setCacheAt_keys_distinct cap e k d st :
  List.NoDup (keys (memoryCache st)) ->
  List.NoDup (keys (memoryCache (stateAfter (setCacheAt cap e k d) st))).
Proof.
  intros Hst. unfold stateAfter. rewrite setCacheAt_run. cbn [snd memoryCache].
  apply NoDup_mapSet. unfold evict.
  destruct (cap <=? List.length (memoryCache st))%nat; [|exact Hst].
  destruct (memoryCache st) as [|[k0 e0] r]; [exact Hst|].
  now apply NoDup_mapDelete.
Qed.

Lemma getCache_keys_distinct e k st :
  List.NoDup (keys (memoryCache st)) ->
  List.NoDup (keys (memoryCache (stateAfter (getCache e k) st))).
Proof.
  intros Hst. destruct st as [mem store reqs]. run. cbn in *.
  assert (Hdel := NoDup_mapDelete k mem Hst).
  assert (Hpro : forall d t, List.NoDup
            (keys (mapSet k {| data := d; timestamp := t |} (mapDelete k mem))))
    by (intros; now apply NoDup_mapSet).
  assert (Hset : forall d t, List.NoDup
            (keys (mapSet k {| data := d; timestamp := t |} mem)))
    by (intros; now apply NoDup_mapSet).
  destruct (mapGet k mem) as [en|]; cbn.
  - destruct (now e - timestamp en >? CACHE_TTL_MS)%Z; cbn; [|exact Hst].
    destruct (kvUp e); cbn; [|exact Hdel].
    destruct (store !! k) as [s|]; cbn; [|exact Hdel].
    destruct (now e <? kvExpires s)%Z; cbn; [apply Hpro|exact Hdel].
  - destruct (kvUp e); cbn; [|exact Hst].
    destruct (store !! k) as [s|]; cbn; [|exact Hst].
    destruct (now e <? kvExpires s)%Z; cbn; [apply Hset|exact Hst].
Qed.

(** C5. Read your writes: [setCache k v] followed by [getCache k] returns
    the value [v] just set, from the fast tier, for every key, value and
    state, as long as no more than the time to live has passed between
    the two calls. *)
Theorem getCache_after_setCache
    (e1 e2 : env) (k : string) (v : songInfo) (st : state) :
  now e2 - now e1 <= CACHE_TTL_MS ->
  valueOf (getCache e2 k) (stateAfter (setCache e1 k v) st) =
  Returned (Some {| cachedData := v; cachedLayer := memory |}).
Proof.
  intros Hfresh. unfold stateAfter, valueOf, setCache.
  rewrite setCacheAt_run. cbn [snd].
  rewrite (getCache_memory_hit _ _ _ {| data := v; timestamp := now e1 |});
    [reflexivity| |exact Hfresh].
  cbn. apply mapGet_mapSet_eq.
Qed.

Lemma getCache_after_setCache_witness :
  valueOf (getCache (quietEnv 1000) "song:a:b")
          (stateAfter (setCache (quietEnv 0) "song:a:b" nullInfo) emptyState) =
  Returned (Some {| cachedData := nullInfo; cachedLayer := memory |}).
Proof.
  apply (getCache_after_setCache (quietEnv 0) (quietEnv 1000)).
  vm_compute. discriminate.
Defined.

(** C6. A [setCache] on a fast tier that holds the bound of 50 entries (or
    more) removes exactly the entry of the first key in insertion order,
    then inserts; a hit of the fast tier leaves the order as it is, so the
    order is that of insertion and not that of access; and with a bound of
    2, setting distinct keys A, B, C in this order on an empty fast tier
    leaves exactly B and C. *)
Theorem setCache_evicts_oldest :
  (forall (e : env) (k : string) (v : songInfo) (st : state)
          (oldestKey : string) (oldest : memEntry)
          (others : list (string * memEntry)),
     memoryCache st = (oldestKey, oldest) :: others ->
     (MAX_MEMORY_CACHE_SIZE <= List.length (memoryCache st))%nat ->
     memoryCache (stateAfter (setCache e k v) st) =
     mapSet k {| data := v; timestamp := now e |} others)
  /\
  (forall (e : env) (k : string) (st : state) (en : memEntry),
     mapGet k (memoryCache st) = Some en ->
     now e - timestamp en <= CACHE_TTL_MS ->
     memoryCache (stateAfter (getCache e k) st) = memoryCache st)
  /\
  (forall (e1 e2 e3 : env) (A B C : string) (va vb vc : songInfo) (st : state),
     memoryCache st = [] -> A <> B -> A <> C -> B <> C ->
     keys (memoryCache
             (stateAfter (setCacheAt 2 e3 C vc)
                (stateAfter (setCacheAt 2 e2 B vb)
                   (stateAfter (setCacheAt 2 e1 A va) st)))) = [B; C]).
Proof.
  split; [|split].
  - intros e k v st oldestKey oldest others Hmem Hfull.
    unfold stateAfter, setCache. rewrite setCacheAt_run. cbn [snd memoryCache].
    unfold evict. apply Nat.leb_le in Hfull. rewrite Hfull, Hmem.
    cbn. now rewrite String.eqb_refl.
  - intros e k st en Hget Hfresh. unfold stateAfter.
    now rewrite (getCache_memory_hit _ _ _ _ Hget Hfresh).
  - intros e1 e2 e3 A B C va vb vc st Hmem HAB HAC HBC.
    unfold stateAfter. rewrite !setCacheAt_run. cbn [snd memoryCache].
    rewrite Hmem. cbn.
    destruct (String.eqb_spec B A); [congruence|]. cbn.
    rewrite String.eqb_refl. cbn.
    destruct (String.eqb_spec C B); [congruence|]. reflexivity.
Qed.

Lemma setCache_evicts_oldest_witness :
  memoryCache (stateAfter (setCache (quietEnv 5) "song:x:y" nullInfo) fullState) =
  mapSet "song:x:y" {| data := nullInfo; timestamp := 5 |}
         (List.tl (memoryCache fullState))
  /\ memoryCache (stateAfter (getCache (quietEnv 5) "song:artist:(") fullState) =
     memoryCache fullState
  /\ keys (memoryCache
             (stateAfter (setCacheAt 2 (quietEnv 3) "C" nullInfo)
                (stateAfter (setCacheAt 2 (quietEnv 2) "B" nullInfo)
                   (stateAfter (setCacheAt 2 (quietEnv 1) "A" nullInfo)
                      emptyState)))) = ["B"; "C"].
Proof.
  destruct setCache_evicts_oldest as (Hevict & Hhit & Hscenario).
  split; [|split].
  - apply (Hevict (quietEnv 5) "song:x:y" nullInfo fullState "song:artist:("
                  {| data := nullInfo; timestamp := 0 |}).
    + reflexivity.
    + vm_compute. lia.
  - apply (Hhit (quietEnv 5) "song:artist:(" fullState
                {| data := nullInfo; timestamp := 0 |}).
    + reflexivity.
    + vm_compute. discriminate.
  - apply Hscenario; [reflexivity|discriminate..].
Defined.

(** C10. A [getCache] that misses the fast tier and hits the store puts
    the promoted entry into the fast tier with no test of its size and
    without removing the entry of any other key, so that the tier gains
    one entry when the key was absent, whatever its size; fifty-one such
    calls on an empty fast tier leave fifty-one entries, above the bound
    of 50 that only [setCache] enforces. *)
Theorem getCache_promotes_unbounded :
  (forall (e : env) (k : string) (st : state) (d : songInfo),
     memoryMiss e k st = true -> kvHit e k st d ->
     let mem' := memoryCache (stateAfter (getCache e k) st) in
     valueOf (getCache e k) st =
       Returned (Some {| cachedData := d; cachedLayer := kv |})
     /\ mapGet k mem' = Some {| data := d; timestamp := now e |}
     /\ (forall k', k' <> k -> mapGet k' mem' = mapGet k' (memoryCache st))
     /\ (mapGet k (memoryCache st) = None ->
         mem' = (memoryCache st ++ [(k, {| data := d; timestamp := now e |})])%list
         /\ List.length mem' = S (List.length (memoryCache st))))
  /\
  (memoryCache (storeOf manyKeys 1) = []
   /\ (MAX_MEMORY_CACHE_SIZE <
       List.length (memoryCache (getAll (quietEnv 0) manyKeys
                                        (storeOf manyKeys 1))))%nat).
Proof.
  split.
  - intros e k st d Hmiss Hhit mem'. subst mem'.
    unfold stateAfter, valueOf. rewrite (getCache_promote _ _ _ _ Hmiss Hhit).
    cbn [fst snd memoryCache]. repeat split.
    + apply mapGet_mapSet_eq.
    + intros k' Hne.
      rewrite mapGet_mapSet_ne by congruence.
      apply mapGet_mapDelete_ne. congruence.
    + rewrite (mapDelete_absent _ _ H). now apply mapSet_fresh.
    + rewrite (mapDelete_absent _ _ H). now apply length_mapSet_fresh.
  - split; [reflexivity|]. vm_compute. lia.
Qed.

Lemma getCache_promotes_unbounded_witness :
  valueOf (getCache (quietEnv 0) "song:artist:Z") brimState =
    Returned (Some {| cachedData := nullInfo; cachedLayer := kv |})
  /\ List.length (memoryCache brimState) = 50%nat
  /\ List.length
       (memoryCache (stateAfter (getCache (quietEnv 0) "song:artist:Z") brimState))
     = 51%nat.
Proof.
  destruct getCache_promotes_unbounded as [Hpromote _].
  destruct (Hpromote (quietEnv 0) "song:artist:Z" brimState nullInfo)
    as (Hv & _ & _ & Hlen).
  - reflexivity.
  - split; [reflexivity|].
    exists {| kvData := nullInfo; kvExpires := 1 |}.
    split; [vm_compute; reflexivity|]. split; reflexivity.
  - split; [exact Hv|]. split; [reflexivity|].
    destruct Hlen as [_ Hlen]; [reflexivity|]. exact Hlen.
Defined.

End CacheFacts.

(** ** The resolution pipeline *)

Module PipelineFacts.
Import Js JsMap Html Eff SongInfo CacheSpec JsMapFacts CacheFacts.

Ltac step := unfold tryCatch, bind, ret, throw, get, modify; cbn [fst snd].

(** [getCache] never throws. When it answers [null], the store and the
    request log are as before and the fast tier has lost at most the
    expired entry of the key. *)
Lemma getCache_cases e k st :
  (exists c st', getCache e k st = (Returned (Some c), st'))
  \/ (getCache e k st =
        (Returned None,
         {| memoryCache :=
              if memoryMiss e k st then mapDelete k (memoryCache st)
              else memoryCache st;
            kvStore := kvStore st;
            requests := requests st |})
      /\ memoryMiss e k st = true).
Proof.
  destruct st as [mem store reqs]. unfold memoryMiss. run. cbn.
  destruct (mapGet k mem) as [en|] eqn:Hget; cbn.
  - destruct (now e - timestamp en >? CACHE_TTL_MS)%Z; cbn; [|eauto].
    destruct (kvUp e); cbn; [|now right].
    destruct (store !! k) as [s|]; cbn; [|now right].
    destruct (now e <? kvExpires s)%Z; cbn; [eauto|now right].
  - rewrite (mapDelete_absent _ _ Hget).
    destruct (kvUp e); cbn; [|now right].
    destruct (store !! k) as [s|]; cbn; [|now right].
    destruct (now e <? kvExpires s)%Z; cbn; [eauto|now right].
Qed.

(** The scraper proper. It returns a record only after [setCache] has
    stored it, and that record has a tempo; on every other way out,
    thrown errors included, the two tiers are as they were. *)
Lemma scrape_cases e k artist title st :
  match scrape e k artist title st with
  | (Returned (Some i), st') =>
      truthyNumber (bpm i) = true
      /\ st' = stateAfter (setCache e k i)
                 {| memoryCache := memoryCache st;
                    kvStore := kvStore st;
                    requests := requests st' |}
  | (Returned None, st') | (Thrown _, st') =>
      memoryCache st' = memoryCache st /\ kvStore st' = kvStore st
  end.
Proof.
  destruct st as [mem store reqs].
  unfold scrape, axiosGet, stateAfter, setCache. step.
  repeat
    (match goal with
     | |- context [setCacheAt ?c ?e' ?k' ?i ?s] =>
         rewrite (setCacheAt_run c e' k' i s)
     | |- context [match ?x with _ => _ end] =>
         lazymatch x with
         | context [match _ with _ => _ end] => fail
         | kvUp _ => fail
         | _ => destruct x eqn:?
         end
     end; cbn [fst snd memoryCache kvStore requests]);
    auto.
Qed.

(** After a miss of both tiers, [fetchSongInfo] is the scraper with its
    errors caught. *)
Lemma fetchSongInfo_miss e artist title st st0 :
  getCache e (getCacheKey artist title) st = (Returned None, st0) ->
  fetchSongInfo e artist title st =
  match scrape e (getCacheKey artist title) artist title st0 with
  | (Returned (Some i), st') => (Returned (fresh i), st')
  | (Returned None, st') | (Thrown _, st') => (Returned (fresh nullInfo), st')
  end.
Proof.
  intros Hmiss. unfold fetchSongInfo.
  rewrite (EffFacts.bind_run _ _ _ _ _ Hmiss). step.
  destruct (scrape _ _ _ _ st0) as [[[i|]|msg] st']; reflexivity.
Qed.

Lemma fetchSongInfo_hit e artist title st c st0 :
  getCache e (getCacheKey artist title) st = (Returned (Some c), st0) ->
  fetchSongInfo e artist title st =
  (Returned {| info := cachedData c;
               cacheLayer := Some (cachedLayer c);
               fromCache := true |}, st0).
Proof.
  intros Hhit. unfold fetchSongInfo.
  now rewrite (EffFacts.bind_run _ _ _ _ _ Hhit).
Qed.

(** [fetchSongInfo] always returns. *)
Lemma fetchSongInfo_total e artist title st :
  exists r st', fetchSongInfo e artist title st = (Returned r, st').
Proof.
  destruct (getCache_cases e (getCacheKey artist title) st)
    as [(c & st0 & Hhit) | [Hmiss _]].
  - rewrite (fetchSongInfo_hit _ _ _ _ _ _ Hhit). eauto.
  - rewrite (fetchSongInfo_miss _ _ _ _ _ Hmiss).
    destruct (scrape _ _ _ _ _) as [[[i|]|msg] st']; eauto.
Qed.

(** C1, as the code has it. When the lookup misses and the scraper finds
    a tempo, the result is stored with [setCache], and a second resolve of
    the same artist and title within the time to live is served from the
    fast tier without any request (the state, request log included, is
    unchanged). When the scraper finds no tempo, the all-null record is
    returned and nothing is stored in either tier. *)
Theorem fetchSongInfo_caches_found :
  (forall (e1 e2 : env) (artist title : string) (st st1 : state) (r : fetched),
     fetchSongInfo e1 artist title st = (Returned r, st1) ->
     fromCache r = false ->
     truthyNumber (bpm (info r)) = true ->
     now e2 - now e1 <= CACHE_TTL_MS ->
     mapGet (getCacheKey artist title) (memoryCache st1) =
       Some {| data := info r; timestamp := now e1 |}
     /\ fetchSongInfo e2 artist title st1 =
        (Returned {| info := info r; cacheLayer := Some memory;
                     fromCache := true |}, st1))
  /\
  (forall (e : env) (artist title : string) (st st1 : state) (r : fetched),
     fetchSongInfo e artist title st = (Returned r, st1) ->
     fromCache r = false ->
     truthyNumber (bpm (info r)) = false ->
     r = fresh nullInfo
     /\ memoryCache st1 =
        memoryCache (stateAfter (getCache e (getCacheKey artist title)) st)
     /\ kvStore st1 = kvStore st).
Proof.
  split.
  - intros e1 e2 artist title st st1 r Hrun Hfresh Hbpm Httl.
    destruct (getCache_cases e1 (getCacheKey artist title) st)
      as [(c & st0 & Hhit) | [Hmiss _]].
    { rewrite (fetchSongInfo_hit _ _ _ _ _ _ Hhit) in Hrun.
      injection Hrun as <- <-. discriminate. }
    rewrite (fetchSongInfo_miss _ _ _ _ _ Hmiss) in Hrun.
    pose proof (scrape_cases e1 (getCacheKey artist title) artist title
                  {| memoryCache :=
                       if memoryMiss e1 (getCacheKey artist title) st
                       then mapDelete (getCacheKey artist title) (memoryCache st)
                       else memoryCache st;
                     kvStore := kvStore st;
                     requests := requests st |}) as Hscrape.
    destruct (scrape _ _ _ _ _) as [[[i|]|msg] st'];
      injection Hrun as <- <-; try discriminate.
    destruct Hscrape as [_ Hst].
    assert (Hget : mapGet (getCacheKey artist title) (memoryCache st') =
                   Some {| data := i; timestamp := now e1 |}).
    { rewrite Hst. unfold stateAfter, setCache. rewrite setCacheAt_run.
      cbn [snd memoryCache]. apply mapGet_mapSet_eq. }
    split; [exact Hget|].
    apply (fetchSongInfo_hit e2 artist title st'
             {| cachedData := i; cachedLayer := memory |} st').
    now rewrite (getCache_memory_hit _ _ _ _ Hget Httl).
  - intros e artist title st st1 r Hrun Hfresh Hbpm.
    destruct (getCache_cases e (getCacheKey artist title) st)
      as [(c & st0 & Hhit) | [Hmiss _]].
    { rewrite (fetchSongInfo_hit _ _ _ _ _ _ Hhit) in Hrun.
      injection Hrun as <- <-. discriminate. }
    unfold stateAfter. rewrite Hmiss. cbn [snd memoryCache].
    rewrite (fetchSongInfo_miss _ _ _ _ _ Hmiss) in Hrun.
    pose proof (scrape_cases e (getCacheKey artist title) artist title
                  {| memoryCache :=
                       if memoryMiss e (getCacheKey artist title) st
                       then mapDelete (getCacheKey artist title) (memoryCache st)
                       else memoryCache st;
                     kvStore := kvStore st;
                     requests := requests st |}) as Hscrape.
    destruct (scrape _ _ _ _ _) as [[[i|]|msg] st'];
      injection Hrun as <- <-; cbn in *.
    + destruct Hscrape as [Hi _]. congruence.
    + destruct Hscrape as [Hm Hk]. auto.
    + destruct Hscrape as [Hm Hk]. auto.
Qed.

Lemma fetchSongInfo_caches_found_witness :
  fetchSongInfo (foundEnv 1000) "The Weeknd" "Blinding Lights"
    (stateAfter (fetchSongInfo (foundEnv 0) "The Weeknd" "Blinding Lights")
                emptyState) =
  (Returned {| info := foundInfo; cacheLayer := Some memory; fromCache := true |},
   stateAfter (fetchSongInfo (foundEnv 0) "The Weeknd" "Blinding Lights")
              emptyState)
  /\ memoryCache
       (stateAfter (fetchSongInfo (notFoundEnv 0) "Nobody" "Nothing") emptyState)
     = [].
Proof.
  destruct fetchSongInfo_caches_found as [Hfound Hnone]. split.
  - apply (Hfound (foundEnv 0) (foundEnv 1000) "The Weeknd" "Blinding Lights"
                  emptyState _ (fresh foundInfo)).
    + vm_compute. reflexivity.
    + reflexivity.
    + reflexivity.
    + vm_compute. discriminate.
  - destruct (Hnone (notFoundEnv 0) "Nobody" "Nothing" emptyState
                (stateAfter (fetchSongInfo (notFoundEnv 0) "Nobody" "Nothing")
                            emptyState)
                (fresh nullInfo)) as (_ & Hmem & _).
    + vm_compute. reflexivity.
    + reflexivity.
    + reflexivity.
    + rewrite Hmem. reflexivity.
Defined.

(** C1 as stated fails: after a resolve that found nothing, neither tier
    holds anything, and a second resolve of the same artist and title at
    the same instant asks the provider for the same two pages again. *)
Lemma not_found_is_scraped_again :
  valueOf (fetchSongInfo (notFoundEnv 0) "Nobody" "Nothing") emptyState =
    Returned (fresh nullInfo)
  /\ memoryCache
       (stateAfter (fetchSongInfo (notFoundEnv 0) "Nobody" "Nothing") emptyState)
     = []
  /\ valueOf (fetchSongInfo (notFoundEnv 0) "Nobody" "Nothing")
       (stateAfter (fetchSongInfo (notFoundEnv 0) "Nobody" "Nothing") emptyState)
     = Returned (fresh nullInfo)
  /\ requests
       (stateAfter (fetchSongInfo (notFoundEnv 0) "Nobody" "Nothing")
          (stateAfter (fetchSongInfo (notFoundEnv 0) "Nobody" "Nothing")
                      emptyState))
     = [ "https://songbpm.com/@nobody/nothing"; "https://songbpm.com/@nobody";
         "https://songbpm.com/@nobody/nothing"; "https://songbpm.com/@nobody" ].
Proof. repeat split; vm_compute; reflexivity. Qed.

(** The handler answers 200 to every GET that names an artist and a
    title. *)
Lemma handler_get_200 e req st :
  reqMethod req = GET ->
  truthyString (textOf (queryArtist req)) = true ->
  truthyString (textOf (queryTitle req)) = true ->
  exists resp st', handler e req st = (Returned resp, st') /\ status resp = 200.
Proof.
  intros Hm Ha Ht. unfold handler. rewrite Hm.
  destruct (queryArtist req) as [|artist|]; try discriminate Ha.
  destruct (queryTitle req) as [|title|]; try discriminate Ht.
  cbn [textOf truthyString truthyValue] in *. rewrite Ha, Ht. cbn [andb].
  destruct (fetchSongInfo_total e artist title st) as (r & st' & Hrun).
  step. rewrite Hrun. eauto.
Qed.

(** C2, as the code has it. [fetchSongInfo] never raises: every error of
    the direct or of the fallback request is caught. When the lookup
    misses and both the direct and the artist-page request fail (no
    response, or a status outside 2xx), the all-null record is returned
    and nothing is stored; the handler then answers 200, as it does for
    every GET whose artist and title are non-empty strings. *)
Theorem fetchSongInfo_never_throws :
  (forall (e : env) (artist title : string) (st : state),
     isReturned (valueOf (fetchSongInfo e artist title) st) = true)
  /\
  (forall (e : env) (artist title : string) (st : state),
     valueOf (getCache e (getCacheKey artist title)) st = Returned None ->
     requestFails e (directUrl artist title) = true ->
     requestFails e (artistUrl artist) = true ->
     valueOf (fetchSongInfo e artist title) st = Returned (fresh nullInfo)
     /\ memoryCache (stateAfter (fetchSongInfo e artist title) st) =
        memoryCache (stateAfter (getCache e (getCacheKey artist title)) st)
     /\ kvStore (stateAfter (fetchSongInfo e artist title) st) = kvStore st)
  /\
  (forall (e : env) (req : request) (st : state),
     reqMethod req = GET ->
     truthyString (textOf (queryArtist req)) = true ->
     truthyString (textOf (queryTitle req)) = true ->
     exists resp, valueOf (handler e req) st = Returned resp
                  /\ status resp = 200).
Proof.
  split; [|split].
  - intros e artist title st. unfold valueOf.
    destruct (fetchSongInfo_total e artist title st) as (r & st' & ->).
    reflexivity.
  - intros e artist title st Hlookup Hdirect Hartist.
    destruct (getCache_cases e (getCacheKey artist title) st)
      as [(c & st0 & Hhit) | [Hmiss _]].
    { unfold valueOf in Hlookup. rewrite Hhit in Hlookup. discriminate. }
    unfold valueOf, stateAfter.
    rewrite (fetchSongInfo_miss _ _ _ _ _ Hmiss), Hmiss. cbn [snd].
    unfold requestFails, directUrl, artistUrl in *.
    unfold scrape, axiosGet, setCache. step.
    destruct (http e (site +:+ "/@" +:+ normalizeForUrl artist +:+ "/"
                      +:+ normalizeForUrl title)) as [|s1 b1];
      cbn; [auto|].
    apply negb_true_iff in Hdirect.
    destruct (s1 <? 500)%Z; cbn; [|auto].
    assert (Hs1 : (s1 =? 200)%Z = false).
    { unfold status2xx in Hdirect. lia. }
    rewrite Hs1. cbn.
    destruct (http e (site +:+ "/@" +:+ normalizeForUrl artist)) as [|s2 b2];
      cbn; [auto|].
    apply negb_true_iff in Hartist. rewrite Hartist. cbn. auto.
  - intros e req st Hm Ha Ht.
    destruct (handler_get_200 e req st Hm Ha Ht) as (resp & st' & Hrun & Hst).
    exists resp. unfold valueOf. now rewrite Hrun.
Qed.

Lemma fetchSongInfo_never_throws_witness :
  (valueOf (fetchSongInfo (quietEnv 0) "Nobody" "Nothing") emptyState =
     Returned (fresh nullInfo)
   /\ memoryCache (stateAfter (fetchSongInfo (quietEnv 0) "Nobody" "Nothing")
                              emptyState) =
      memoryCache (stateAfter (getCache (quietEnv 0)
                                        (getCacheKey "Nobody" "Nothing"))
                              emptyState)
   /\ kvStore (stateAfter (fetchSongInfo (quietEnv 0) "Nobody" "Nothing")
                          emptyState) = kvStore emptyState)
  /\ exists resp,
       valueOf (handler (quietEnv 0) (songRequest "Nobody" "Nothing")) emptyState
       = Returned resp /\ status resp = 200.
Proof.
  destruct fetchSongInfo_never_throws as (_ & Hnull & Hhandler). split.
  - apply Hnull; reflexivity.
  - apply Hhandler; reflexivity.
Defined.

(** C2 as stated fails: with no response to any request (a time-out on
    the direct request, after which the fallback is not even tried),
    [fetchSongInfo] returns the all-null record instead of raising, and the
    handler answers 200. *)
Lemma network_failure_is_not_raised :
  requestFails (quietEnv 0) (directUrl "Nobody" "Nothing") = true
  /\ requestFails (quietEnv 0) (artistUrl "Nobody") = true
  /\ valueOf (fetchSongInfo (quietEnv 0) "Nobody" "Nothing") emptyState =
     Returned (fresh nullInfo)
  /\ valueOf (handler (quietEnv 0) (songRequest "Nobody" "Nothing")) emptyState =
     Returned {| status := 200;
                 payload := SongBody "Nobody" "Nothing" nullInfo false "fresh" 0 |}.
Proof. repeat split; vm_compute; reflexivity. Qed.

End PipelineFacts.

(** ** The extractors *)

Module ExtractFacts.
Import Js Html Eff SongInfo ExtractSpec.

Lemma digits_no_colon s : sall isDigit s = true -> includes s ":" = false.
Proof.
  induction s as [|c r IH]; [reflexivity|].
  intros [Hc Hr]%SlugFacts.sall_cons. cbn [includes startsWith].
  rewrite (IH Hr), orb_false_r.
  destruct (Ascii.eqb_spec ":" c) as [<-|]; [discriminate Hc|reflexivity].
Qed.

(** What one turn of the loop does to the tempo. *)
Lemma extractStep_bpm result elem :
  bpm (extractStep result elem) =
  if truthyNumber (bpm result) then bpm result
  else match bareTempo elem with Some n => Some n | None => bpm result end.
Proof.
  unfold extractStep, bareTempo, inRange, allDigits.
  destruct (trim (ddText elem)) as [|c r] eqn:Htext; cbn [isEmpty negb andb].
  - now destruct (truthyNumber (bpm result)).
  - set (text := String c r).
    assert (Hbpm : forall res : songInfo,
      bpm (let res1 :=
             if (includes (toLowerCase text) "major"
                 || includes (toLowerCase text) "minor")
                && negb (truthyString (key res))
             then {| bpm := bpm res; key := Some text; genre := genre res |}
             else res in
           if negb (truthyString (genre res1))
              && existsb (fun g => includes (toLowerCase text) g) genres
           then {| bpm := bpm res1; key := key res1; genre := Some text |}
           else res1) = bpm res).
    { intros res. cbv zeta.
      repeat match goal with
             | |- context [if ?b then _ else _] => destruct b
             end; reflexivity. }
    cbv zeta. rewrite Hbpm.
    destruct (sall isDigit text) eqn:Hd; cbn [andb].
    + rewrite (digits_no_colon _ Hd). cbn [negb].
      replace (parseInt text >=? 40)%Z with (40 <=? parseInt text)%Z
        by (rewrite Z.geb_leb; reflexivity).
      destruct ((40 <=? parseInt text)%Z && (parseInt text <=? 240)%Z);
        cbn [andb]; destruct (truthyNumber (bpm result)); reflexivity.
    + now destruct (truthyNumber (bpm result)).
Qed.

Lemma bareTempo_range elem n : bareTempo elem = Some n -> 40 <= n <= 240.
Proof.
  unfold bareTempo, inRange.
  destruct (allDigits _); cbn [andb]; [|discriminate].
  destruct (40 <=? _)%Z eqn:H1; cbn [andb]; [|discriminate].
  destruct (_ <=? 240)%Z eqn:H2; [|discriminate].
  intros [= <-]. lia.
Qed.

Lemma bareTempo_truthy elem n : bareTempo elem = Some n -> truthyNumber (Some n) = true.
Proof. intros H%bareTempo_range. cbn. apply negb_true_iff. lia. Qed.

(** The loop, from any result built so far whose tempo is unset or set
    to a non-zero number. *)
Lemma fold_extractStep_bpm elems result :
  bpm result = None \/ truthyNumber (bpm result) = true ->
  bpm (fold_left extractStep elems result) =
  match bpm result with
  | Some b => Some b
  | None => firstSome bareTempo elems
  end.
Proof.
  revert result. induction elems as [|elem rest IH]; intros result Hres.
  - cbn. now destruct (bpm result).
  - cbn [fold_left firstSome].
    pose proof (extractStep_bpm result elem) as Hstep.
    destruct Hres as [Hnone | Hset].
    + rewrite Hnone in *. cbn [truthyNumber] in Hstep.
      destruct (bareTempo elem) as [n|] eqn:Hn.
      * rewrite IH; rewrite Hstep; [reflexivity|].
        right. eapply bareTempo_truthy, Hn.
      * rewrite IH; rewrite Hstep; [reflexivity|now left].
    + rewrite Hset in Hstep. rewrite IH; rewrite Hstep; [|now right].
      destruct (bpm result); [reflexivity|discriminate].
Qed.

(** The loop of the Express scraper stops at the first labelled tempo. *)
Lemma scanMetrics_bpm elems key :
  fst (Features.scanMetrics elems None key) = firstSome labelledTempo elems.
Proof.
  revert key. induction elems as [|elem rest IH]; intros key; [reflexivity|].
  cbn [Features.scanMetrics firstSome]. unfold labelledTempo, inRange.
  destruct (Features.numberMatch (trim (ddText elem))) as [value|].
  - replace (value >=? 40)%Z with (40 <=? value)%Z
      by (rewrite Z.geb_leb; reflexivity).
    rewrite <- andb_assoc.
    destruct (Features.isTempoLabel (Features.labelOf elem)
              && ((40 <=? value)%Z && (value <=? 240)%Z)); [reflexivity|].
    destruct (includes (Features.labelOf elem) "key" && (value <? 40)%Z);
      [apply IH|].
    destruct (Features.keyMatch (trim (ddText elem))); [|apply IH].
    destruct (includes (Features.labelOf elem) "key"); apply IH.
  - destruct (Features.keyMatch (trim (ddText elem))); [|apply IH].
    destruct (includes (Features.labelOf elem) "key"); apply IH.
Qed.

Lemma firstSome_range {A} (f : A -> option Z) l n :
  (forall x m, f x = Some m -> 40 <= m <= 240) ->
  firstSome f l = Some n -> 40 <= n <= 240.
Proof.
  intros Hf. induction l as [|x r IH]; cbn; [discriminate|].
  destruct (f x) as [m|] eqn:Hx; [|exact IH].
  intros [= <-]. eapply Hf, Hx.
Qed.

Lemma labelledTempo_range elem n : labelledTempo elem = Some n -> 40 <= n <= 240.
Proof.
  unfold labelledTempo, inRange.
  destruct (Features.numberMatch _) as [v|]; [|discriminate].
  destruct (Features.isTempoLabel _); cbn [andb]; [|discriminate].
  destruct (40 <=? v)%Z eqn:H1; cbn [andb]; [|discriminate].
  destruct (v <=? 240)%Z eqn:H2; [|discriminate].
  intros [= <-]. lia.
Qed.

Lemma extractStep_text result elem elem' :
  ddText elem = ddText elem' -> extractStep result elem = extractStep result elem'.
Proof. unfold extractStep. now intros ->. Qed.

Lemma fold_extractStep_text elems elems' result :
  map ddText elems = map ddText elems' ->
  fold_left extractStep elems result = fold_left extractStep elems' result.
Proof.
  revert elems' result.
  induction elems as [|elem rest IH]; intros [|elem' rest'] result; cbn;
    try discriminate; [reflexivity|].
  intros [= Htext Hrest]. rewrite (extractStep_text _ _ _ Htext). now apply IH.
Qed.

Lemma scrape_first_labelled status html :
  status2xx status = true ->
  match Features.scrapeSongBPM (HttpResponse status html) with
  | Returned f =>
      firstSome labelledTempo (filter ddCard (ddTags html)) =
      Some (Features.bpm f)
  | Thrown _ => firstSome labelledTempo (filter ddCard (ddTags html)) = None
  end.
Proof.
  intros Hok. cbn [Features.scrapeSongBPM]. rewrite Hok. cbn [negb].
  pose proof (scanMetrics_bpm (filter ddCard (ddTags html)) None) as Hscan.
  destruct (Features.scanMetrics _ None None) as [b key]. cbn [fst] in Hscan.
  rewrite <- Hscan. destruct b as [b|]; [|reflexivity].
  assert (Hb : 40 <= b <= 240).
  { eapply firstSome_range; [apply labelledTempo_range|symmetry; exact Hscan]. }
  destruct (Z.eqb_spec b 0); [lia|]. cbn [negb andb].
  destruct (Z.ltb_spec b 40); [lia|].
  destruct (Z.gtb_spec b 240); [lia|]. cbn [orb].
  destruct (Z.eqb_spec b 0); [lia|]. reflexivity.
Qed.

(** C3, as the code has it. The extractor of the song-info function takes
    as tempo the first [dd] whose text is a bare integer from 40 to 240 and
    never replaces it; it looks at no label, so two documents whose [dd]
    texts agree give the same record. The Express scraper reads the [dd]
    elements of class [text-card-foreground] only: on every page that is
    served with a 2xx status it returns as tempo the first of these that
    has at most three digits, a value from 40 to 240 and a label just
    before it that contains "tempo" or "bpm", and it fails when there is
    none; its loop stops there, on any list of elements. *)
Theorem bpm_is_first_match :
  (forall html : document,
     bpm (extractSongInfo html) = firstSome bareTempo (ddTags html))
  /\
  (forall (result : songInfo) (elem : dd),
     truthyNumber (bpm result) = true ->
     bpm (extractStep result elem) = bpm result)
  /\
  (forall html html' : document,
     map ddText (ddTags html) = map ddText (ddTags html') ->
     extractSongInfo html = extractSongInfo html')
  /\
  (forall (status : Z) (html : document),
     status2xx status = true ->
     match Features.scrapeSongBPM (HttpResponse status html) with
     | Returned f =>
         firstSome labelledTempo (filter ddCard (ddTags html)) =
         Some (Features.bpm f)
     | Thrown _ =>
         firstSome labelledTempo (filter ddCard (ddTags html)) = None
     end)
  /\
  (forall (elems : list dd) (key : option string),
     fst (Features.scanMetrics elems None key) = firstSome labelledTempo elems).
Proof.
  repeat split.
  - intros html. unfold extractSongInfo.
    rewrite fold_extractStep_bpm; [reflexivity|now left].
  - intros result elem Hset. now rewrite extractStep_bpm, Hset.
  - intros html html' Htext. unfold extractSongInfo.
    now apply fold_extractStep_text.
  - intros status html. apply scrape_first_labelled.
  - intros elems key. apply scanMetrics_bpm.
Qed.

Lemma bpm_is_first_match_witness :
  bpm (extractStep foundInfoSoFar
         {| ddText := "90"; ddCard := true; ddPrevDt := Some "BPM" |}) =
    Some 171
  /\ extractSongInfo durationPage =
     extractSongInfo
       {| ddTags := [ {| ddText := "120"; ddCard := false;
                         ddPrevDt := Some "Tempo (BPM)" |} ];
          aTags := [] |}
  /\ match Features.scrapeSongBPM (HttpResponse 200 plainFirstPage) with
     | Returned f =>
         firstSome labelledTempo (filter ddCard (ddTags plainFirstPage)) =
         Some (Features.bpm f)
     | Thrown _ =>
         firstSome labelledTempo (filter ddCard (ddTags plainFirstPage)) = None
     end.
Proof.
  destruct bpm_is_first_match as (_ & Hkeep & Htext & Hscrape & _).
  split; [|split].
  - apply (Hkeep foundInfoSoFar). reflexivity.
  - apply Htext. reflexivity.
  - apply (Hscrape 200 plainFirstPage). reflexivity.
Defined.

(** The Express scraper passes over a labelled tempo that lacks the
    class: on this page it returns 120, the second labelled value. *)
Lemma scrape_skips_plain_dd :
  firstSome labelledTempo (ddTags plainFirstPage) = Some 100
  /\ Features.scrapeSongBPM (HttpResponse 200 plainFirstPage) =
     Returned {| Features.bpm := 120; Features.key := None |}.
Proof. split; reflexivity. Qed.

(** C3 as stated fails for the extractor of the song-info function: the
    only number of this page is labelled as a duration, no label contains
    "tempo" or "bpm", and the number is returned as the tempo. *)
Lemma unlabelled_integer_is_taken :
  forallb (fun elem => negb (Features.isTempoLabel (Features.labelOf elem)))
          (ddTags durationPage) = true
  /\ bpm (extractSongInfo durationPage) = Some 120.
Proof. split; reflexivity. Qed.

(** C4. The tempo of the record returned by the extractor is null or an
    integer from 40 to 240, for every document; the same holds for the
    tempo that the Express scraper returns. *)
Theorem bpm_null_or_in_range :
  (forall html : document,
     match bpm (extractSongInfo html) with
     | Some b => 40 <= b <= 240
     | None => True
     end)
  /\
  (forall page : httpOutcome,
     match Features.scrapeSongBPM page with
     | Returned f => 40 <= Features.bpm f <= 240
     | Thrown _ => True
     end).
Proof.
  split.
  - intros html. unfold extractSongInfo.
    rewrite fold_extractStep_bpm by now left. cbn [bpm nullInfo].
    destruct (firstSome bareTempo (ddTags html)) as [b|] eqn:Hb; [|exact I].
    eapply firstSome_range; [apply bareTempo_range|exact Hb].
  - intros [|status html]; cbn; [exact I|].
    destruct (status2xx status); cbn; [|now destruct (status =? 404)%Z].
    pose proof (scanMetrics_bpm (filter ddCard (ddTags html)) None) as Hscan.
    destruct (Features.scanMetrics _ None None) as [b key]. cbn in Hscan.
    destruct b as [b|]; [|exact I].
    assert (Hb : 40 <= b <= 240).
    { eapply firstSome_range; [apply labelledTempo_range|symmetry; exact Hscan]. }
    destruct (Z.eqb_spec b 0); [lia|]. cbn.
    destruct (Z.ltb_spec b 40); [lia|].
    destruct (Z.gtb_spec b 240); [lia|]. cbn.
    destruct (Z.eqb_spec b 0); [lia|]. exact Hb.
Qed.

End ExtractFacts.

(** ** The scoring of the candidates *)

Module SearchFacts.
Import Js Search SearchSpec.
Local Open Scope float_scope.

(** Once the loop holds a track, later tracks that score no more leave it. *)
Lemma best_kept query t after :
  Forall (fun x => gtb (scoreOf query x) (scoreOf query t) = false) after ->
  fold_left (bestStep query) after (t, scoreOf query t) = (t, scoreOf query t).
Proof.
  induction 1 as [|x r Hx _ IH]; [reflexivity|].
  cbn [fold_left]. unfold bestStep at 2. cbn [snd]. now rewrite Hx.
Qed.

(** The loop ends on the top-scored track when that track scores more
    than the score the loop holds on reaching it. *)
Lemma best_found query before t after b0 s0 :
  gtb (scoreOf query t) s0 = true ->
  Forall (fun x => gtb (scoreOf query t) (scoreOf query x) = true) before ->
  Forall (fun x => gtb (scoreOf query x) (scoreOf query t) = false) after ->
  fold_left (bestStep query) (before ++ t :: after)%list (b0, s0) =
  (t, scoreOf query t).
Proof.
  intros Hs0 Hbefore Hafter. revert b0 s0 Hs0.
  induction Hbefore as [|x r Hx _ IH]; intros b0 s0 Hs0.
  - cbn [app fold_left]. unfold bestStep at 2. cbn [snd].
    rewrite Hs0. now apply best_kept.
  - cbn [app fold_left]. unfold bestStep at 2. cbn [snd].
    destruct (gtb (scoreOf query x) s0); now apply IH.
Qed.

Lemma popular_kept m after :
  Forall (fun x => gtb (popularity x) (popularity m) = false) after ->
  fold_left morePopular after m = m.
Proof.
  induction 1 as [|x r Hx _ IH]; [reflexivity|].
  cbn [fold_left]. unfold morePopular at 2. now rewrite Hx.
Qed.

Lemma popular_found before m after p0 :
  gtb (popularity m) (popularity p0) = true ->
  Forall (fun x => gtb (popularity m) (popularity x) = true) before ->
  Forall (fun x => gtb (popularity x) (popularity m) = false) after ->
  fold_left morePopular (before ++ m :: after)%list p0 = m.
Proof.
  intros Hp0 Hbefore Hafter. revert p0 Hp0.
  induction Hbefore as [|x r Hx _ IH]; intros p0 Hp0.
  - cbn [app fold_left]. unfold morePopular at 2. rewrite Hp0.
    now apply popular_kept.
  - cbn [app fold_left]. unfold morePopular at 2.
    destruct (gtb (popularity x) (popularity p0)); now apply IH.
Qed.

Lemma reduce_mostPopular first others m :
  mostPopular (first :: others) m -> fold_left morePopular others first = m.
Proof.
  intros (before & after & Heq & Hbefore & Hafter).
  destruct before as [|x before'].
  - injection Heq as -> ->. now apply popular_kept.
  - injection Heq as -> ->. apply Forall_cons_iff in Hbefore as [Hx Hbefore].
    now apply popular_found.
Qed.

(** C7. The adapter breaks the rule on this answer to the query "zz qq".
    The three tracks score -24, -7 and -17, so the second is the
    top-scored one; it has popularity 5 and a score below 40, and the
    third is the most popular with 85, so the rule names the third. But no
    score exceeds -1, the score the loop starts from: the loop ends on the
    track it started with, the first, whose popularity 40 is not below 30,
    and the adapter returns the first track. *)
Theorem defaulted_winner_escapes_override :
  map (scoreOf "zz qq") [offTarget; offObscure; offHit] = [-24; -7; -17]
  /\ topScored "zz qq" [offTarget; offObscure; offHit] offObscure
  /\ mostPopular [offTarget; offObscure; offHit] offHit
  /\ popularity offObscure = 5
  /\ popularity offHit = 85
  /\ overrideRule "zz qq" offObscure offHit = offHit
  /\ selectTrack "zz qq" [offTarget; offObscure; offHit] =
     Some (resultOf offTarget medium).
Proof.
  split; [reflexivity|]. split.
  { exists [offTarget], [offHit]. split; [reflexivity|].
    split; (constructor; [reflexivity|constructor]). }
  split.
  { exists [offTarget; offObscure], []. split; [reflexivity|].
    split; [|constructor].
    constructor; [|constructor; [|constructor]]; reflexivity. }
  repeat split.
Qed.

End SearchFacts.

(** ** The search function *)

Module SpotifyFacts.
Import Js Eff SpotifySearch SpotifySpec.

Ltac step := unfold tryCatch, bind, ret, throw, get, modify; cbn [fst snd].

(** [searchSpotify] always returns: whatever is thrown inside is caught. *)
Lemma searchSpotify_total e query st :
  isReturned (valueOf (searchSpotify e query) st) = true.
Proof.
  unfold valueOf, searchSpotify. apply EffFacts.tryCatch_total. reflexivity.
Qed.

Lemma searchSpotify_auth_failure e query st :
  tokenStale e st = true -> authFails e = true ->
  valueOf (searchSpotify e query) st = Returned None.
Proof.
  unfold tokenStale, authFails, valueOf, searchSpotify, getSpotifyToken.
  intros Hstale%negb_true_iff Hauth. step. rewrite Hstale.
  destruct (negb (truthyString (clientId e))
            || negb (truthyString (clientSecret e))); [reflexivity|].
  cbn [orb] in Hauth.
  destruct (tokenEndpoint e) as [|status token seconds]; [reflexivity|].
  apply negb_true_iff in Hauth. rewrite Hauth. reflexivity.
Qed.

Lemma searchSpotify_search_failure e query st :
  (forall token, searchFails e token query = true) ->
  valueOf (searchSpotify e query) st = Returned None.
Proof.
  intros Hfail. unfold valueOf, searchSpotify. step.
  destruct (getSpotifyToken e st) as [[token|msg] st']; [|reflexivity].
  specialize (Hfail token). unfold searchFails in Hfail.
  destruct (searchEndpoint e token query) as [|status tracks]; [reflexivity|].
  apply negb_true_iff in Hfail. rewrite Hfail. reflexivity.
Qed.

Lemma handler_not_found e req st query :
  reqMethod req = GET -> queryParam req = Some query ->
  truthyString (Some query) = true ->
  valueOf (searchSpotify e query) st = Returned None ->
  valueOf (handler e req) st =
  Returned {| status := 200; payload := NotFoundBody query |}.
Proof.
  intros Hm Hq Ht Hnone. unfold valueOf, handler in *.
  rewrite Hm, Hq, Ht. change (default "" (Some query)) with query. step.
  destruct (searchSpotify e query st) as [[r|msg] st']; cbn in Hnone;
    [|discriminate].
  injection Hnone as ->. reflexivity.
Qed.

Lemma searchSpotify_no_candidate e query st token st' :
  getSpotifyToken e st = (Returned token, st') ->
  noCandidate e token query = true ->
  valueOf (searchSpotify e query) st = Returned None.
Proof.
  intros Htoken Hempty. unfold valueOf, searchSpotify. step.
  rewrite Htoken. unfold noCandidate in Hempty.
  destruct (searchEndpoint e token query) as [|status tracks]; [discriminate|].
  apply andb_true_iff in Hempty as [-> Hnone].
  destruct tracks as [[|track rest]|]; [reflexivity|discriminate|reflexivity].
Qed.

Lemma searchSpotify_first_track e query st token st' status track rest :
  getSpotifyToken e st = (Returned token, st') ->
  searchEndpoint e token query = SearchResponse status (Some (track :: rest)) ->
  SongInfo.status2xx status = true ->
  valueOf (searchSpotify e query) st = Returned (Some (foundOf track)).
Proof.
  intros Htoken Hsearch Hok. unfold valueOf, searchSpotify. step.
  rewrite Htoken, Hsearch, Hok. reflexivity.
Qed.

Lemma handler_found e req st query f :
  reqMethod req = GET -> queryParam req = Some query ->
  truthyString (Some query) = true ->
  valueOf (searchSpotify e query) st = Returned (Some f) ->
  valueOf (handler e req) st =
  Returned {| status := 200; payload := FoundBody f |}.
Proof.
  intros Hm Hq Ht Hsome. unfold valueOf, handler in *.
  rewrite Hm, Hq, Ht. change (default "" (Some query)) with query. step.
  destruct (searchSpotify e query st) as [[r|msg] st']; cbn in Hsome;
    [|discriminate].
  injection Hsome as ->. reflexivity.
Qed.

(** C8, as the code has it. [searchSpotify] never raises. It returns null
    when the catalog answers with no track, and also when the token cannot
    be obtained or the track search fails, since every error is caught;
    when the catalog lists tracks it returns the first of them. The
    handler turns a null into the same 200 "not found" answer in all the
    cases of a null, so the caller cannot tell them apart, and a track
    into a 200 answer that carries it. *)
Theorem searchSpotify_swallows_failures :
  (forall (e : env) (query : string) (st : state),
     isReturned (valueOf (searchSpotify e query) st) = true)
  /\
  (forall (e : env) (query : string) (st st' : state) (token : option string),
     getSpotifyToken e st = (Returned token, st') ->
     noCandidate e token query = true ->
     valueOf (searchSpotify e query) st = Returned None)
  /\
  (forall (e : env) (query : string) (st : state),
     tokenStale e st = true -> authFails e = true ->
     valueOf (searchSpotify e query) st = Returned None)
  /\
  (forall (e : env) (query : string) (st : state),
     (forall token, searchFails e token query = true) ->
     valueOf (searchSpotify e query) st = Returned None)
  /\
  (forall (e : env) (query : string) (st st' : state) (token : option string)
          (status : Z) (track : Search.track) (rest : list Search.track),
     getSpotifyToken e st = (Returned token, st') ->
     searchEndpoint e token query =
       SearchResponse status (Some (track :: rest)) ->
     SongInfo.status2xx status = true ->
     valueOf (searchSpotify e query) st = Returned (Some (foundOf track)))
  /\
  (forall (e : env) (req : request) (st : state) (query : string),
     reqMethod req = GET -> queryParam req = Some query ->
     truthyString (Some query) = true ->
     valueOf (searchSpotify e query) st = Returned None ->
     valueOf (handler e req) st =
     Returned {| status := 200; payload := NotFoundBody query |})
  /\
  (forall (e : env) (req : request) (st : state) (query : string) (f : found),
     reqMethod req = GET -> queryParam req = Some query ->
     truthyString (Some query) = true ->
     valueOf (searchSpotify e query) st = Returned (Some f) ->
     valueOf (handler e req) st =
     Returned {| status := 200; payload := FoundBody f |}).
Proof.
  split; [exact searchSpotify_total|].
  split; [intros; eapply searchSpotify_no_candidate; eassumption|].
  split; [exact searchSpotify_auth_failure|].
  split; [exact searchSpotify_search_failure|].
  split; [intros; eapply searchSpotify_first_track; eassumption|].
  split; [exact handler_not_found|exact handler_found].
Qed.

Lemma searchSpotify_swallows_failures_witness :
  valueOf (searchSpotify emptyCatalog "2soon keshi") coldState = Returned None
  /\ valueOf (searchSpotify authDown "2soon keshi") coldState = Returned None
  /\ valueOf (searchSpotify catalogDown "2soon keshi") coldState = Returned None
  /\ valueOf (searchSpotify stockedCatalog "ab cd") coldState =
     Returned (Some (foundOf SearchSpec.obscure))
  /\ valueOf (handler authDown (searchRequest "2soon keshi")) coldState =
     Returned {| status := 200; payload := NotFoundBody "2soon keshi" |}
  /\ valueOf (handler stockedCatalog (searchRequest "ab cd")) coldState =
     Returned {| status := 200; payload := FoundBody (foundOf SearchSpec.obscure) |}.
Proof.
  destruct searchSpotify_swallows_failures
    as (_ & Hempty & Hauth & Hsearch & Hfirst & Hnull & Hfound).
  assert (Hnone : valueOf (searchSpotify authDown "2soon keshi") coldState =
                  Returned None) by (apply Hauth; reflexivity).
  assert (Hsome : valueOf (searchSpotify stockedCatalog "ab cd") coldState =
                  Returned (Some (foundOf SearchSpec.obscure))).
  { apply (Hfirst stockedCatalog "ab cd" coldState
             {| cachedToken := Some "token"; tokenExpiresAt := 3540000 |}
             (Some "token") 200 SearchSpec.obscure [SearchSpec.hit]);
      reflexivity. }
  split.
  { apply (Hempty emptyCatalog "2soon keshi" coldState
             {| cachedToken := Some "token"; tokenExpiresAt := 3540000 |}
             (Some "token")); reflexivity. }
  split; [exact Hnone|].
  split; [apply Hsearch; intros token; reflexivity|].
  split; [exact Hsome|].
  split.
  - apply Hnull; [reflexivity|reflexivity|reflexivity|exact Hnone].
  - apply (Hfound stockedCatalog (searchRequest "ab cd") coldState "ab cd");
      [reflexivity|reflexivity|reflexivity|exact Hsome].
Defined.

(** C8 as stated fails: a refused token and a catalog that times out are
    answered exactly as an empty answer of the catalog is, with status 200
    and the "not found" placeholder; no error reaches the handler. *)
Lemma failure_looks_like_not_found :
  valueOf (handler emptyCatalog (searchRequest "2soon keshi")) coldState =
    Returned {| status := 200; payload := NotFoundBody "2soon keshi" |}
  /\ valueOf (handler authDown (searchRequest "2soon keshi")) coldState =
     valueOf (handler emptyCatalog (searchRequest "2soon keshi")) coldState
  /\ valueOf (handler catalogDown (searchRequest "2soon keshi")) coldState =
     valueOf (handler emptyCatalog (searchRequest "2soon keshi")) coldState.
Proof. repeat split. Qed.

End SpotifyFacts.

(** ** More on the song-info function *)

Module SongInfoExtra.
Import Js JsMap Html Eff SongInfo SlugSpec CacheSpec SongInfoSpec.
Import JsMapFacts SlugFacts CacheFacts PipelineFacts.

(** X1. Whatever the text, [normalizeForUrl] returns the empty string or
    words of [[a-z0-9]] joined by single hyphens. *)
Theorem normalizeForUrl_shape (text : string) :
  isSlug (normalizeForUrl text) = true.
Proof. apply normalizeForUrl_isSlug. Qed.

(** *** Text without letters or digits *)

Lemma sall_trimStart p s : sall p s = true -> sall p (trimStart s) = true.
Proof.
  induction s as [|c r IH]; [reflexivity|].
  intros H. cbn. destruct (isSpace c); [|exact H].
  apply sall_cons in H as [_ Hr]. auto.
Qed.

Lemma sall_trimEnd p s : sall p s = true -> sall p (trimEnd s) = true.
Proof.
  induction s as [|c r IH]; [reflexivity|].
  intros [Hc Hr]%sall_cons. cbn.
  destruct (isSpace c && isEmpty (trimEnd r)); [reflexivity|].
  cbn. now rewrite Hc, IH.
Qed.

Lemma sall_removeAnnotations p tag n s :
  sall p s = true -> sall p (removeAnnotations tag n s) = true.
Proof.
  revert n. induction s as [|c r IH]; intros n; [reflexivity|].
  intros [Hc Hr]%sall_cons. cbn [removeAnnotations].
  destruct n; [|auto].
  destruct (matchAnnotation tag (String c r)); [auto|].
  cbn. now rewrite Hc, IH.
Qed.

Lemma sall_sfilter_keep p q s : sall p s = true -> sall p (sfilter q s) = true.
Proof.
  induction s as [|c r IH]; [reflexivity|].
  intros [Hc Hr]%sall_cons. cbn.
  destruct (q c); [cbn; now rewrite Hc, IH|auto].
Qed.

Lemma sall_collapseRuns p q rep b s :
  p rep = true -> sall p s = true -> sall p (collapseRuns q rep b s) = true.
Proof.
  intros Hrep. revert b. induction s as [|c r IH]; intros b; [reflexivity|].
  intros [Hc Hr]%sall_cons. cbn.
  destruct (q c); [destruct b|]; cbn; rewrite ?Hrep, ?Hc; cbn; auto.
Qed.

Lemma sall_stripEdgeHyphens p s :
  sall p s = true -> sall p (stripEdgeHyphens s) = true.
Proof.
  destruct s as [|c r]; [reflexivity|]. intros H. unfold stripEdgeHyphens.
  destruct (isHyphen c); [|now apply sall_dropFinalHyphen].
  apply sall_cons in H as [_ Hr]. now apply sall_dropFinalHyphen.
Qed.

Lemma slug_of_symbols s :
  isSlug s = true -> sall plainSymbol s = true -> s = EmptyString.
Proof.
  destruct s as [|c r]; [reflexivity|].
  unfold isSlug. intros [[Ha Hs]%andb_true_iff _]%andb_true_iff Hp.
  apply sall_cons in Ha as [Hc _]. apply sall_cons in Hp as [Hp _].
  cbn in Hs. unfold slugChar, plainSymbol in *.
  destruct (isLower c), (isDigit c), (isHyphen c); discriminate.
Qed.

(** X2. A text whose lower-case form has no letter of [[a-z]] and no
    digit, the empty text included, is normalized to the empty string. *)
Theorem normalizeForUrl_no_alnum (text : string) :
  sall plainSymbol (toLowerCase text) = true -> normalizeForUrl text = "".
Proof.
  intros H. apply slug_of_symbols; [apply normalizeForUrl_isSlug|].
  unfold normalizeForUrl, trim.
  apply sall_stripEdgeHyphens.
  do 2 (apply sall_collapseRuns; [reflexivity|]).
  apply sall_sfilter_keep.
  do 2 apply sall_removeAnnotations.
  apply sall_trimEnd, sall_trimStart, H.
Qed.

Lemma normalizeForUrl_no_alnum_witness : normalizeForUrl " (!?) - *** " = "".
Proof. apply normalizeForUrl_no_alnum. reflexivity. Defined.

(** *** Cache keys *)

Lemma append_cons (x : ascii) (a b : string) :
  String x a +:+ b = String x (a +:+ b).
Proof. reflexivity. Qed.

Lemma append_assoc (a b c : string) : (a +:+ b) +:+ c = a +:+ (b +:+ c).
Proof.
  induction a as [|x a IH]; [reflexivity|]. now rewrite !append_cons, IH.
Qed.

Lemma toLowerCase_app (a b : string) :
  toLowerCase (a +:+ b) = toLowerCase a +:+ toLowerCase b.
Proof.
  unfold toLowerCase. induction a as [|x a IH]; [reflexivity|].
  rewrite append_cons. cbn [smap]. now rewrite append_cons, IH.
Qed.

Lemma notColon_lower c : notColon c = true -> notColon (lowerChar c) = true.
Proof. each_char c. Qed.

Lemma sall_notColon_lower s :
  sall notColon s = true -> sall notColon (toLowerCase s) = true.
Proof.
  induction s as [|c r IH]; [reflexivity|].
  intros [Hc Hr]%sall_cons. cbn. now rewrite (notColon_lower _ Hc), IH.
Qed.

Lemma split_at_colon (x x' y y' : string) :
  sall notColon x = true -> sall notColon x' = true ->
  x +:+ String ":" y = x' +:+ String ":" y' -> x = x' /\ y = y'.
Proof.
  revert x'. induction x as [|c r IH]; intros [|c' r'];
    rewrite ?append_cons; cbn [sall]; change ("" +:+ ?z) with z.
  - intros _ _ [= ->]. auto.
  - intros _ [Hc _]%andb_true_iff [= <- _]. discriminate Hc.
  - intros [Hc _]%andb_true_iff _ [= -> _]. discriminate Hc.
  - intros [_ Hr]%andb_true_iff [_ Hr']%andb_true_iff [= -> Heq].
    destruct (IH r' Hr Hr' Heq) as [-> ->]. auto.
Qed.

(** X3. For artists without a colon, two requests share a cache key
    exactly when their artists and their titles agree up to case. *)
Theorem getCacheKey_injective (artist title artist' title' : string) :
  sall notColon artist = true -> sall notColon artist' = true ->
  (getCacheKey artist title = getCacheKey artist' title' <->
   toLowerCase artist = toLowerCase artist'
   /\ toLowerCase title = toLowerCase title').
Proof.
  intros Ha Ha'. unfold getCacheKey. split.
  - intros Heq. cbn in Heq. injection Heq as Heq.
    apply split_at_colon; auto using sall_notColon_lower.
  - now intros [-> ->].
Qed.

Lemma getCacheKey_injective_witness :
  getCacheKey "The Weeknd" "Blinding Lights" =
  getCacheKey "the weeknd" "BLINDING LIGHTS".
Proof.
  apply (getCacheKey_injective "The Weeknd" "Blinding Lights"
                               "the weeknd" "BLINDING LIGHTS");
    [reflexivity|reflexivity|split; reflexivity].
Defined.

(** X4. A colon makes keys collide. When the lower-case form of one
    request's artist is [a:b] and that of its title is [c], and the
    lower-case forms of another request's artist and title are [a] and
    [b:c], the two requests have the same cache key, so each is served
    the other's record. *)
Theorem getCacheKey_colon_collision
    (artist title artist' title' a b c : string) :
  toLowerCase artist = a +:+ ":" +:+ b ->
  toLowerCase title = c ->
  toLowerCase artist' = a ->
  toLowerCase title' = b +:+ ":" +:+ c ->
  getCacheKey artist title = getCacheKey artist' title'.
Proof.
  intros Hartist Htitle Hartist' Htitle'. unfold getCacheKey.
  rewrite Hartist, Htitle, Hartist', Htitle', !append_assoc. reflexivity.
Qed.

Lemma getCacheKey_colon_collision_witness :
  getCacheKey "Tyler: The" "Creator" = getCacheKey "tyler" " The:Creator".
Proof.
  apply (getCacheKey_colon_collision _ _ _ _ "tyler" " the" "creator");
    reflexivity.
Defined.

(** *** Key and genre *)

Ltac split_ifs :=
  repeat match goal with
         | |- context [if ?b then _ else _] =>
             lazymatch b with
             | context [if _ then _ else _] => fail
             | _ => destruct b eqn:?
             end; cbn [bpm key genre andb orb negb]
         end.

Lemma extractStep_key result elem :
  key (extractStep result elem) =
  if truthyString (key result) then key result
  else match keyText elem with Some t => Some t | None => key result end.
Proof.
  unfold extractStep, keyText.
  destruct (trim (ddText elem)) as [|c r] eqn:Htext; cbn [isEmpty negb andb].
  - now destruct (truthyString (key result)).
  - destruct (truthyString (key result)) eqn:Hk;
      destruct (includes (toLowerCase (String c r)) "major"
                || includes (toLowerCase (String c r)) "minor");
      cbv zeta; split_ifs; rewrite ?Hk in *; cbn [andb negb] in *; split_ifs;
      first [reflexivity | discriminate].
Qed.

Lemma extractStep_genre result elem :
  genre (extractStep result elem) =
  if truthyString (genre result) then genre result
  else match genreText elem with Some t => Some t | None => genre result end.
Proof.
  unfold extractStep, genreText.
  destruct (trim (ddText elem)) as [|c r] eqn:Htext; cbn [isEmpty negb andb].
  - now destruct (truthyString (genre result)).
  - destruct (truthyString (genre result)) eqn:Hg;
      destruct (existsb (fun g => includes (toLowerCase (String c r)) g) genres);
      cbv zeta; split_ifs; rewrite ?Hg in *; cbn [andb negb] in *; split_ifs;
      first [reflexivity | discriminate].
Qed.

Section FirstMatch.
Context {A : Type} (proj : songInfo -> option A) (truthy : option A -> bool)
        (pick : dd -> option A).
Hypothesis step_proj : forall result elem,
  proj (extractStep result elem) =
  if truthy (proj result) then proj result
  else match pick elem with Some t => Some t | None => proj result end.
Hypothesis pick_truthy : forall elem t, pick elem = Some t -> truthy (Some t) = true.
Hypothesis truthy_none : truthy None = false.

Lemma fold_first_match elems result :
  proj result = None \/ truthy (proj result) = true ->
  proj (fold_left extractStep elems result) =
  match proj result with
  | Some t => Some t
  | None => ExtractSpec.firstSome pick elems
  end.
Proof.
  revert result. induction elems as [|elem rest IH]; intros result Hres.
  - cbn. now destruct (proj result).
  - cbn [fold_left ExtractSpec.firstSome].
    pose proof (step_proj result elem) as Hstep.
    destruct Hres as [Hnone | Hset].
    + rewrite Hnone in *. rewrite truthy_none in Hstep.
      destruct (pick elem) as [t|] eqn:Ht.
      * rewrite IH; rewrite Hstep; [reflexivity|]. right. eapply pick_truthy, Ht.
      * rewrite IH; rewrite Hstep; [reflexivity|now left].
    + rewrite Hset in Hstep. rewrite IH; rewrite Hstep; [|now right].
      destruct (proj result); [reflexivity|congruence].
Qed.

End FirstMatch.

Lemma keyText_truthy elem t : keyText elem = Some t -> truthyString (Some t) = true.
Proof.
  unfold keyText. destruct (trim (ddText elem)); cbn; [discriminate|].
  destruct (_ || _); [|discriminate]. now intros [= <-].
Qed.

Lemma genreText_truthy elem t :
  genreText elem = Some t -> truthyString (Some t) = true.
Proof.
  unfold genreText. destruct (trim (ddText elem)); cbn [isEmpty negb andb];
    [discriminate|].
  destruct (existsb _ _); [|discriminate]. now intros [= <-].
Qed.

(** X5. The key returned by the extractor is the trimmed text of the first
    [dd] that contains "major" or "minor" in any case, and the genre that
    of the first [dd] that contains one of the eleven genre names; later
    matches never replace them. *)
Theorem key_and_genre_first_match (html : document) :
  key (extractSongInfo html) = ExtractSpec.firstSome keyText (ddTags html)
  /\ genre (extractSongInfo html) = ExtractSpec.firstSome genreText (ddTags html).
Proof.
  unfold extractSongInfo. split.
  - rewrite (fold_first_match key truthyString keyText extractStep_key
               keyText_truthy eq_refl); [reflexivity|now left].
  - rewrite (fold_first_match genre truthyString genreText extractStep_genre
               genreText_truthy eq_refl); [reflexivity|now left].
Qed.

(** *** The two tiers over time *)

Lemma length_mapSet_le {V} (k : string) (v : V) (m : list (string * V)) :
  (List.length (mapSet k v m) <= S (List.length m))%nat.
Proof.
  induction m as [|[k' v'] r IH]; cbn; [lia|].
  destruct (String.eqb k k'); cbn; lia.
Qed.

(** X6. [setCache] never leaves the fast tier larger than the greater of
    its previous size and the bound of 50: a tier within the bound stays
    within it, and a tier above it does not grow. *)
Theorem setCache_size_bound (e : env) (k : string) (v : songInfo) (st : state) :
  (List.length (memoryCache (stateAfter (setCache e k v) st)) <=
   Nat.max (List.length (memoryCache st)) MAX_MEMORY_CACHE_SIZE)%nat.
Proof.
  unfold stateAfter, setCache. rewrite setCacheAt_run. cbn [snd memoryCache].
  pose proof (length_mapSet_le k {| data := v; timestamp := now e |}
                (evict MAX_MEMORY_CACHE_SIZE (memoryCache st))) as Hset.
  unfold evict, MAX_MEMORY_CACHE_SIZE in *.
  destruct (Nat.leb_spec 50 (List.length (memoryCache st))) as [Hfull|Hroom].
  - destruct (memoryCache st) as [|[k0 e0] r]; [cbn in *; lia|].
    cbn [mapDelete] in *. rewrite String.eqb_refl in *.
    cbn [List.length] in *. lia.
  - cbn [List.length] in *. lia.
Qed.

Lemma mapGet_mapDelete_eq {V} (k : string) (m : list (string * V)) :
  List.NoDup (keys m) -> mapGet k (mapDelete k m) = None.
Proof.
  induction m as [|[k' v'] r IH]; cbn; [reflexivity|].
  intros Hnd. apply List.NoDup_cons_iff in Hnd as [Hnot Hr].
  destruct (String.eqb_spec k k') as [->|Hne].
  - now apply mapGet_notIn.
  - cbn. destruct (String.eqb_spec k k'); [congruence|auto].
Qed.

(** X7. Once more than the time to live has passed after a [setCache]
    that reached the store, [getCache] answers null for that key, whether
    or not the store answers now, and the fast tier no longer holds the
    key. *)
Theorem getCache_after_ttl
    (e1 e2 : env) (k : string) (v : songInfo) (st : state) :
  List.NoDup (keys (memoryCache st)) ->
  kvUp e1 = true ->
  now e2 - now e1 > CACHE_TTL_MS ->
  valueOf (getCache e2 k) (stateAfter (setCache e1 k v) st) = Returned None
  /\ mapGet k (memoryCache (stateAfter (getCache e2 k)
                              (stateAfter (setCache e1 k v) st))) = None.
Proof.
  intros Hnd Hup Hlate.
  pose proof (setCacheAt_keys_distinct MAX_MEMORY_CACHE_SIZE e1 k v st Hnd) as Hnd'.
  revert Hnd'. unfold stateAfter, valueOf, setCache. rewrite setCacheAt_run, Hup.
  cbn [snd memoryCache]. intros Hnd'.
  set (mem := mapSet k {| data := v; timestamp := now e1 |}
                (evict MAX_MEMORY_CACHE_SIZE (memoryCache st))) in *.
  assert (Hget : mapGet k mem = Some {| data := v; timestamp := now e1 |})
    by apply mapGet_mapSet_eq.
  assert (Hgone : mapGet k (mapDelete k mem) = None)
    by now apply mapGet_mapDelete_eq.
  run. cbn [memoryCache kvStore requests]. rewrite Hget. cbn [timestamp].
  destruct (Z.gtb_spec (now e2 - now e1) CACHE_TTL_MS) as [_|]; [|lia].
  cbn [negb fst snd memoryCache kvStore].
  destruct (kvUp e2); cbn [fst snd memoryCache kvStore]; [|auto].
  rewrite lookup_insert_eq. cbn [kvExpires].
  destruct (Z.ltb_spec (now e2) (now e1 + CACHE_TTL_SECONDS * 1000)) as [Hlive|_].
  - unfold CACHE_TTL_MS in Hlate. lia.
  - auto.
Qed.

Lemma getCache_after_ttl_witness :
  valueOf (getCache (quietEnv 1800001) "song:a:b")
          (stateAfter (setCache (quietEnv 0) "song:a:b" foundInfo) emptyState) =
    Returned None
  /\ mapGet "song:a:b"
       (memoryCache (stateAfter (getCache (quietEnv 1800001) "song:a:b")
          (stateAfter (setCache (quietEnv 0) "song:a:b" foundInfo) emptyState)))
     = None.
Proof.
  apply (getCache_after_ttl (quietEnv 0) (quietEnv 1800001));
    [constructor|reflexivity|reflexivity].
Defined.

(** X8. A record written through to the store is found by a process that
    starts cold, as long as the store still holds it; the promotion stamps
    it with the current time, so the fast tier of that process goes on
    serving it for a further time to live, that is, until almost twice the
    time to live after it was written. *)
Theorem store_round_trip
    (e1 e2 e3 : env) (k : string) (v : songInfo) (st : state) :
  kvUp e1 = true -> kvUp e2 = true ->
  now e2 < now e1 + CACHE_TTL_MS ->
  now e3 - now e2 <= CACHE_TTL_MS ->
  valueOf (getCache e2 k) (coldStart (stateAfter (setCache e1 k v) st)) =
    Returned (Some {| cachedData := v; cachedLayer := kv |})
  /\ valueOf (getCache e3 k)
       (stateAfter (getCache e2 k)
          (coldStart (stateAfter (setCache e1 k v) st))) =
     Returned (Some {| cachedData := v; cachedLayer := memory |}).
Proof.
  intros Hup1 Hup2 Hlive Hfresh.
  assert (Hpromote :
    getCache e2 k (coldStart (stateAfter (setCache e1 k v) st)) =
    (Returned (Some {| cachedData := v; cachedLayer := kv |}),
     {| memoryCache := [(k, {| data := v; timestamp := now e2 |})];
        kvStore := kvStore (stateAfter (setCache e1 k v) st);
        requests := [] |})).
  { rewrite (getCache_promote e2 k _ v); [reflexivity|reflexivity|].
    split; [exact Hup2|].
    exists {| kvData := v; kvExpires := now e1 + CACHE_TTL_SECONDS * 1000 |}.
    unfold coldStart, stateAfter, setCache. rewrite setCacheAt_run, Hup1.
    cbn [snd kvStore kvExpires kvData]. rewrite lookup_insert_eq.
    unfold CACHE_TTL_MS in Hlive. auto. }
  unfold valueOf.
  change (stateAfter (getCache e2 k) ?x) with (snd (getCache e2 k x)).
  rewrite Hpromote. cbn [fst snd].
  split; [reflexivity|].
  rewrite (getCache_memory_hit e3 k _ {| data := v; timestamp := now e2 |});
    [reflexivity| |exact Hfresh].
  cbn. now rewrite String.eqb_refl.
Qed.

Lemma store_round_trip_witness :
  valueOf (getCache (quietEnv 1799999) "song:a:b")
          (coldStart (stateAfter (setCache (quietEnv 0) "song:a:b" foundInfo)
                                 emptyState)) =
    Returned (Some {| cachedData := foundInfo; cachedLayer := kv |})
  /\ valueOf (getCache (quietEnv 3599999) "song:a:b")
       (stateAfter (getCache (quietEnv 1799999) "song:a:b")
          (coldStart (stateAfter (setCache (quietEnv 0) "song:a:b" foundInfo)
                                 emptyState))) =
     Returned (Some {| cachedData := foundInfo; cachedLayer := memory |}).
Proof.
  apply (store_round_trip (quietEnv 0) (quietEnv 1799999) (quietEnv 3599999));
    [reflexivity|reflexivity|reflexivity|vm_compute; discriminate].
Defined.

(** *** Requests and stored records *)


Ltac scrape_paths :=
  unfold scrape, axiosGet, stateAfter, setCache; step;
  repeat
    (match goal with
     | |- context [setCacheAt ?c ?e' ?k' ?i ?s] =>
         rewrite (setCacheAt_run c e' k' i s)
     | |- context [match ?x with _ => _ end] =>
         lazymatch x with
         | context [match _ with _ => _ end] => fail
         | kvUp _ => fail
         | _ => destruct x eqn:?
         end
     end; cbn [fst snd memoryCache kvStore requests]).


(** A record that the scraper returns comes out of the extractor. *)
Lemma scrape_extracted e k artist title st :
  match valueOf (scrape e k artist title) st with
  | Returned (Some i) => exists html, i = extractSongInfo html
  | _ => True
  end.
Proof.
  destruct st as [mem store reqs]. unfold valueOf. scrape_paths; eauto.
Qed.


Lemma Forall_mapSet k v (m : list (string * memEntry)) :
  Forall storableEntry m -> storable (data v) ->
  Forall storableEntry (mapSet k v m).
Proof.
  intros Hm Hv. induction Hm as [|[k' v'] r Hx Hr IH]; cbn.
  - now constructor.
  - destruct (String.eqb k k'); constructor; auto.
Qed.

Lemma Forall_mapDelete k (m : list (string * memEntry)) :
  Forall storableEntry m -> Forall storableEntry (mapDelete k m).
Proof.
  intros Hm. induction Hm as [|[k' v'] r Hx Hr IH]; cbn; [constructor|].
  destruct (String.eqb k k'); [exact Hr|now constructor].
Qed.

Lemma Forall_mapGet k v (m : list (string * memEntry)) :
  Forall storableEntry m -> mapGet k m = Some v -> storable (data v).
Proof.
  intros Hm. induction Hm as [|[k' v'] r Hx Hr IH]; cbn; [discriminate|].
  destruct (String.eqb k k'); [|exact IH]. now intros [= <-].
Qed.

Lemma Forall_evict cap (m : list (string * memEntry)) :
  Forall storableEntry m -> Forall storableEntry (evict cap m).
Proof.
  intros Hm. unfold evict. destruct (cap <=? List.length m)%nat; [|exact Hm].
  destruct m as [|[k0 e0] r]; [exact Hm|]. now apply Forall_mapDelete.
Qed.

Lemma extracted_storable html :
  truthyNumber (bpm (extractSongInfo html)) = true ->
  storable (extractSongInfo html).
Proof.
  unfold storable, extractSongInfo.
  rewrite ExtractFacts.fold_extractStep_bpm by now left. cbn [bpm nullInfo].
  destruct (ExtractSpec.firstSome ExtractSpec.bareTempo (ddTags html)) as [b|] eqn:Hb;
    [|discriminate].
  intros _. eapply ExtractFacts.firstSome_range;
    [apply ExtractFacts.bareTempo_range|exact Hb].
Qed.

Lemma setCache_clean e k i st :
  cleanCache st -> storable i -> cleanCache (stateAfter (setCache e k i) st).
Proof.
  intros [Hmem Hkv] Hi. unfold stateAfter, setCache. rewrite setCacheAt_run.
  split; cbn [snd memoryCache kvStore].
  - apply Forall_mapSet; [now apply Forall_evict|exact Hi].
  - destruct (kvUp e); [|exact Hkv]. now apply map_Forall_insert_2.
Qed.

Lemma getCache_clean e k st :
  cleanCache st ->
  cleanCache (stateAfter (getCache e k) st)
  /\ match valueOf (getCache e k) st with
     | Returned (Some c) => storable (cachedData c)
     | _ => True
     end.
Proof.
  intros [Hmem Hkv]. destruct st as [mem store reqs]. cbn in Hmem, Hkv.
  unfold cleanCache. run. cbn.
  destruct (mapGet k mem) as [en|] eqn:Hget; cbn.
  - pose proof (Forall_mapGet _ _ _ Hmem Hget) as Hen.
    destruct (now e - timestamp en >? CACHE_TTL_MS)%Z; cbn; [|auto].
    pose proof (Forall_mapDelete k _ Hmem) as Hdel.
    destruct (kvUp e); cbn; [|auto].
    destruct (store !! k) as [s|] eqn:Hs; cbn; [|auto].
    pose proof (map_Forall_lookup_1 _ _ _ _ Hkv Hs) as Hgood. cbn in Hgood.
    destruct (now e <? kvExpires s)%Z; cbn; [|auto].
    repeat split; auto. now apply Forall_mapSet.
  - destruct (kvUp e); cbn; [|auto].
    destruct (store !! k) as [s|] eqn:Hs; cbn; [|auto].
    pose proof (map_Forall_lookup_1 _ _ _ _ Hkv Hs) as Hgood. cbn in Hgood.
    destruct (now e <? kvExpires s)%Z; cbn; [|auto].
    repeat split; auto. now apply Forall_mapSet.
Qed.

(** X10. If both tiers hold only records with a tempo from 40 to 240,
    they still do after a resolve, and the resolve answers with the
    all-null record or with a record whose tempo is from 40 to 240,
    whether it comes from the cache or from the provider. *)
Theorem fetchSongInfo_keeps_cache_clean
    (e : env) (artist title : string) (st : state) :
  cleanCache st ->
  cleanCache (stateAfter (fetchSongInfo e artist title) st)
  /\ exists r, valueOf (fetchSongInfo e artist title) st = Returned r
               /\ (info r = nullInfo \/ storable (info r)).
Proof.
  intros Hclean.
  destruct (getCache_clean e (getCacheKey artist title) st Hclean)
    as [Hclean0 Hvalue].
  unfold valueOf, stateAfter in *.
  destruct (getCache_cases e (getCacheKey artist title) st)
    as [(c & st0 & Hhit) | [Hmiss _]].
  - rewrite (fetchSongInfo_hit _ _ _ _ _ _ Hhit). rewrite Hhit in *.
    cbn in *. eauto.
  - rewrite (fetchSongInfo_miss _ _ _ _ _ Hmiss). rewrite Hmiss in Hclean0.
    cbn [snd] in Hclean0.
    match type of Hmiss with _ = (_, ?s) => set (st0 := s) in * end.
    pose proof (scrape_cases e (getCacheKey artist title) artist title st0)
      as Hcases.
    pose proof (scrape_extracted e (getCacheKey artist title) artist title st0)
      as Hex.
    unfold valueOf in Hex.
    destruct (scrape _ _ _ _ st0) as [[[i|]|msg] st']; cbn [fst snd] in *.
    + destruct Hcases as [Hbpm Hst]. destruct Hex as [html ->].
      pose proof (extracted_storable html Hbpm) as Hgood.
      split; [|eauto].
      rewrite Hst. apply setCache_clean; [|exact Hgood].
      destruct Hclean0 as [Hm Hk]. split; assumption.
    + destruct Hcases as [Hm Hk]. destruct Hclean0 as [Hm0 Hk0].
      split; [|eauto]. split; [rewrite Hm|rewrite Hk]; assumption.
    + destruct Hcases as [Hm Hk]. destruct Hclean0 as [Hm0 Hk0].
      split; [|eauto]. split; [rewrite Hm|rewrite Hk]; assumption.
Qed.

Lemma fetchSongInfo_keeps_cache_clean_witness :
  cleanCache (stateAfter (fetchSongInfo (foundEnv 0) "The Weeknd" "Blinding Lights")
                         emptyState)
  /\ exists r,
       valueOf (fetchSongInfo (foundEnv 0) "The Weeknd" "Blinding Lights")
               emptyState = Returned r
       /\ (info r = nullInfo \/ storable (info r)).
Proof.
  apply fetchSongInfo_keeps_cache_clean.
  split; [constructor|apply map_Forall_empty].
Defined.

(** X11. The handler never raises, and its status is fixed by the
    request alone. It answers 200 to OPTIONS, 405 to any method other
    than GET and OPTIONS, 400 to a GET whose artist or title is missing or
    empty, 500 to a GET that gives both and gives one of them several
    times (an array, on which [getCacheKey] fails), and 200 to every other
    GET; unless it answers 200 to a GET, it touches neither the cache nor
    the network. *)
Theorem songInfo_handler_status (e : env) (req : request) (st : state) :
  exists resp,
    valueOf (handler e req) st = Returned resp
    /\ status resp = expectedStatus req
    /\ match reqMethod req with
       | GET => status resp = 200 \/ stateAfter (handler e req) st = st
       | _ => stateAfter (handler e req) st = st
       end.
Proof.
  unfold valueOf, stateAfter, expectedStatus.
  destruct (reqMethod req) eqn:Hm.
  - destruct (queryArtist req) as [|artist|artists] eqn:Hartist;
      destruct (queryTitle req) as [|title|titles] eqn:Htitle;
      try (unfold handler; rewrite Hm, Hartist, Htitle;
           cbn [truthyValue repeated negb andb orb];
           repeat match goal with
                  | |- context [negb (isEmpty ?x)] => destruct (negb (isEmpty x))
                  end;
           cbn [negb andb orb]; step;
           eexists; repeat split; now right).
    unfold handler. rewrite Hm, Hartist, Htitle.
    cbn [truthyValue repeated orb].
    destruct (negb (isEmpty artist)) eqn:Ha; cbn [negb andb orb];
      [|step; eexists; repeat split; now right].
    destruct (negb (isEmpty title)) eqn:Ht; cbn [negb andb orb];
      [|step; eexists; repeat split; now right].
    destruct (fetchSongInfo_total e artist title st) as (r & st' & Hrun).
    step. rewrite Hrun. cbn. eexists. repeat split. now left.
  - unfold handler. rewrite Hm. eexists. repeat split.
  - unfold handler. rewrite Hm. eexists. repeat split.
Qed.

End SongInfoExtra.

(** ** The Express scraper *)

Module ExpressFacts.
Import Js Html Eff Express ExpressSpec SlugSpec.
Import SlugFacts SongInfoExtra.

Lemma sall_impl (p q : ascii -> bool) s :
  (forall c, p c = true -> q c = true) -> sall p s = true -> sall q s = true.
Proof.
  intros Hpq. induction s as [|c r IH]; [reflexivity|].
  intros [Hc Hr]%sall_cons. cbn. now rewrite (Hpq _ Hc), IH.
Qed.

Lemma sall_app p a b : sall p (a +:+ b) = sall p a && sall p b.
Proof.
  induction a as [|x a IH]; [reflexivity|].
  rewrite append_cons. cbn [sall]. now rewrite IH, andb_assoc.
Qed.

Lemma sall_drop p n s : sall p s = true -> sall p (drop n s) = true.
Proof.
  revert s. induction n as [|n IH]; intros [|c r]; cbn; auto.
  intros [_ Hr]%andb_true_iff. auto.
Qed.

Lemma sall_truncateAt p tag s :
  sall p s = true -> sall p (truncateAt tag s) = true.
Proof.
  induction s as [|c r IH]; [reflexivity|].
  intros [Hc Hr]%sall_cons. cbn [truncateAt].
  destruct (_ && _); [reflexivity|]. cbn. now rewrite Hc, IH.
Qed.

Lemma kept_is_kept c : Express.keptChar c = true -> SongInfo.keptChar c = true.
Proof.
  unfold Express.keptChar, SongInfo.keptChar.
  intros H. rewrite H. reflexivity.
Qed.

Lemma trim_slug s : sall slugChar s = true -> trim s = s.
Proof.
  intros H. unfold trim. now rewrite (trimStart_slug _ H), (trimEnd_slug _ H).
Qed.

(** X12. Whatever the text, [createSlug] returns the empty string or
    words of [[a-z0-9]] joined by single hyphens. *)
Theorem createSlug_shape (text : string) : isSlug (createSlug text) = true.
Proof.
  unfold createSlug.
  set (s := sfilter Express.keptChar _).
  assert (Hkept : sall SongInfo.keptChar s = true).
  { apply (sall_impl Express.keptChar); [apply kept_is_kept|apply sall_sfilter]. }
  pose proof (stripEdgeHyphens_spec
                (collapseRuns isHyphen "-" false
                   (collapseRuns isSpace "-" false s))
                (sall_collapseHyphens _ _ (sall_collapseSpaces false _ Hkept))
                (single_collapseHyphens _ _)) as Hslug.
  rewrite trim_slug; [exact Hslug|].
  unfold isSlug in Hslug.
  now apply andb_true_iff in Hslug as [[H _]%andb_true_iff _].
Qed.

Lemma noSpace_lower c : noSpace c = true -> noSpace (lowerChar c) = true.
Proof. each_char c. Qed.

Lemma alnum_not_space c : alnum c = true -> isSpace c = false.
Proof. each_char c. Qed.

Lemma alnum_not_hyphen c : alnum c = true -> isHyphen c = false.
Proof. each_char c. Qed.

Lemma sall_alnum_filter s :
  sall noSpace s = true -> sall alnum (sfilter Express.keptChar s) = true.
Proof.
  induction s as [|c r IH]; [reflexivity|].
  intros [Hc Hr]%sall_cons. cbn [sfilter].
  destruct (Express.keptChar c) eqn:Hk; [|auto].
  cbn. rewrite (IH Hr), andb_true_r.
  unfold Express.keptChar, noSpace, alnum in *.
  destruct (isSpace c); [discriminate Hc|]. now rewrite orb_false_r in Hk.
Qed.

Lemma collapse_alnum p b s :
  (forall c, alnum c = true -> p c = false) ->
  sall alnum s = true -> collapseRuns p "-" b s = s.
Proof.
  intros Hp. revert b. induction s as [|c r IH]; intros b; [reflexivity|].
  intros [Hc Hr]%sall_cons. cbn. now rewrite (Hp _ Hc), (IH _ Hr).
Qed.

(** X13. [createSlug] removes the hyphens of a text: when the text has no
    white space, the slug consists of letters of [[a-z]] and digits only. *)
Theorem createSlug_drops_hyphens (text : string) :
  sall noSpace text = true -> sall alnum (createSlug text) = true.
Proof.
  intros Htext. unfold createSlug, trim.
  set (s := sfilter Express.keptChar _).
  assert (Hs : sall alnum s = true).
  { apply sall_alnum_filter.
    do 2 apply sall_truncateAt. do 2 apply sall_removeAnnotations.
    clear s. induction text as [|c r IH]; [reflexivity|].
    apply sall_cons in Htext as [Hc Hr]. cbn.
    now rewrite (noSpace_lower _ Hc), IH. }
  rewrite (collapse_alnum isSpace _ _ alnum_not_space Hs).
  rewrite (collapse_alnum isHyphen _ _ alnum_not_hyphen Hs).
  apply sall_trimEnd, sall_trimStart, sall_stripEdgeHyphens, Hs.
Qed.

Lemma createSlug_drops_hyphens_witness : sall alnum (createSlug "Jay-Z") = true.
Proof. apply createSlug_drops_hyphens. reflexivity. Defined.

(** *** Names that contain "ft" *)

Lemma plain_lower c : plainChar c = true -> plainChar (lowerChar c) = true.
Proof. each_char c. Qed.

Lemma plain_not_terminator c :
  plainChar c = true -> negb (isLineTerminator c) = true.
Proof. each_char c. Qed.

Lemma plain_not_paren c :
  plainChar c = true -> Ascii.eqb (lowerChar "(") (lowerChar c) = false.
Proof. each_char c. Qed.

Lemma terminator_lower c :
  negb (isLineTerminator c) = true -> negb (isLineTerminator (lowerChar c)) = true.
Proof. each_char c. Qed.

Lemma sall_lower p s :
  (forall c, p c = true -> p (lowerChar c) = true) ->
  sall p s = true -> sall p (toLowerCase s) = true.
Proof.
  intros Hp. induction s as [|c r IH]; [reflexivity|].
  intros [Hc Hr]%sall_cons. cbn. now rewrite (Hp _ Hc), IH.
Qed.

Lemma removeAnnotations_plain_prefix tag p r :
  sall plainChar p = true ->
  SongInfo.removeAnnotations tag 0 (p +:+ r) =
  p +:+ SongInfo.removeAnnotations tag 0 r.
Proof.
  induction p as [|c p IH]; [reflexivity|].
  intros [Hc Hp]%sall_cons. rewrite !append_cons.
  cbn [SongInfo.removeAnnotations]. unfold SongInfo.matchAnnotation.
  cbn [startsWith_ci]. rewrite (plain_not_paren _ Hc). cbn [andb].
  now rewrite (IH Hp).
Qed.

Lemma removeAnnotations_plain tag p :
  sall plainChar p = true -> SongInfo.removeAnnotations tag 0 p = p.
Proof.
  induction p as [|c p IH]; [reflexivity|].
  intros [Hc Hp]%sall_cons.
  cbn [SongInfo.removeAnnotations]. unfold SongInfo.matchAnnotation.
  cbn [startsWith_ci]. rewrite (plain_not_paren _ Hc). cbn [andb].
  now rewrite (IH Hp).
Qed.

Ltac split_eqb :=
  repeat match goal with
         | |- context [Ascii.eqb (lowerChar ?a) (lowerChar ?b)] =>
             is_var b; destruct (Ascii.eqb (lowerChar a) (lowerChar b))
         end.

Lemma startsWith_ci_nil s : startsWith_ci s "" = true.
Proof. now destruct s. Qed.

(** No "feat" and no further "ft" begins in [s] and ends in the "ft"
    that follows it. *)
Lemma feat_not_astride s r :
  startsWith_ci (s +:+ "ft" +:+ r) "feat" = startsWith_ci s "feat".
Proof.
  destruct s as [|c1 [|c2 [|c3 [|c4 s]]]];
    rewrite ?append_cons; change ("" +:+ ?z) with z; rewrite ?append_cons;
    cbn [startsWith_ci]; rewrite ?startsWith_ci_nil; split_eqb; reflexivity.
Qed.

Lemma ft_not_astride c s r :
  startsWith_ci (String c s +:+ "ft" +:+ r) "ft" = startsWith_ci (String c s) "ft".
Proof.
  destruct s as [|c2 s];
    rewrite ?append_cons; change ("" +:+ ?z) with z; rewrite ?append_cons;
    cbn [startsWith_ci]; rewrite ?startsWith_ci_nil; split_eqb; reflexivity.
Qed.

Lemma no_terminator_after n la r :
  sall plainChar la = true -> noLineTerminator r = true ->
  noLineTerminator (drop n (la +:+ "ft" +:+ r)) = true.
Proof.
  intros Hla Hr. unfold noLineTerminator in *. apply sall_drop.
  rewrite !sall_app, Hr.
  rewrite (sall_impl plainChar _ la plain_not_terminator Hla). reflexivity.
Qed.

Lemma no_terminator_plain n la :
  sall plainChar la = true -> noLineTerminator (drop n la) = true.
Proof.
  intros Hla. apply sall_drop.
  apply (sall_impl plainChar _ la plain_not_terminator Hla).
Qed.

Lemma truncate_feat_before la r :
  sall plainChar la = true -> noLineTerminator r = true ->
  truncateAt "feat" (la +:+ "ft" +:+ r) = truncateAt "feat" la
  \/ (truncateAt "feat" (la +:+ "ft" +:+ r) = la +:+ "ft" +:+ truncateAt "feat" r
      /\ truncateAt "feat" la = la).
Proof.
  intros Hla Hr. induction la as [|c la IH].
  - right. split; reflexivity.
  - pose proof (no_terminator_after 4 (String c la) r Hla Hr) as Hafter.
    pose proof (no_terminator_plain 4 (String c la) Hla) as Hplain.
    apply sall_cons in Hla as [Hc Hla].
    pose proof (feat_not_astride (String c la) r) as Hsame.
    rewrite (append_cons c la) in Hafter. rewrite (append_cons c la) in Hsame.
    rewrite !(append_cons c la). cbn [truncateAt String.length].
    rewrite Hsame, Hafter, Hplain.
    destruct (startsWith_ci (String c la) "feat"); cbn [andb]; [now left|].
    destruct (IH Hla) as [-> | [-> ->]]; [now left|now right].
Qed.

Lemma truncate_ft_before la r :
  sall plainChar la = true -> noLineTerminator r = true ->
  truncateAt "ft" (la +:+ "ft" +:+ r) = truncateAt "ft" la.
Proof.
  intros Hla Hr. induction la as [|c la IH].
  - change ("" +:+ "ft" +:+ r) with (String "f" (String "t" r)).
    cbn [truncateAt startsWith_ci String.length drop].
    rewrite startsWith_ci_nil. unfold noLineTerminator in *. now rewrite Hr.
  - pose proof (no_terminator_after 2 (String c la) r Hla Hr) as Hafter.
    pose proof (no_terminator_plain 2 (String c la) Hla) as Hplain.
    apply sall_cons in Hla as [Hc Hla].
    pose proof (ft_not_astride c la r) as Hsame.
    rewrite (append_cons c la) in Hafter. rewrite (append_cons c la) in Hsame.
    rewrite !(append_cons c la). cbn [truncateAt String.length].
    rewrite Hsame, Hafter, Hplain.
    destruct (startsWith_ci (String c la) "ft"); cbn [andb]; [reflexivity|].
    now rewrite (IH Hla).
Qed.

(** X14. A name is cut at its first "ft", in any case: when what comes
    before consists of letters, digits and spaces, and no line break
    comes after, [createSlug] gives the slug of what comes before. So the
    slug of "Daft Punk" is "da". *)
Theorem createSlug_cuts_at_ft (before ft after : string) :
  sall plainChar before = true ->
  toLowerCase ft = "ft" ->
  noLineTerminator after = true ->
  createSlug (before +:+ ft +:+ after) = createSlug before.
Proof.
  intros Hbefore Hft Hafter. unfold createSlug.
  rewrite !toLowerCase_app, Hft.
  set (la := toLowerCase before). set (lb := toLowerCase after).
  assert (Hla : sall plainChar la = true)
    by (apply sall_lower; [apply plain_lower|exact Hbefore]).
  assert (Hlb : noLineTerminator lb = true)
    by (apply sall_lower; [apply terminator_lower|exact Hafter]).
  assert (Hprefix : sall plainChar (la +:+ "ft") = true)
    by (rewrite sall_app, Hla; reflexivity).
  rewrite <- !append_assoc.
  rewrite !(removeAnnotations_plain_prefix _ _ _ Hprefix).
  rewrite !(removeAnnotations_plain _ _ Hla).
  rewrite !append_assoc.
  set (r := SongInfo.removeAnnotations "ft" 0
              (SongInfo.removeAnnotations "feat" 0 lb)).
  assert (Hr : noLineTerminator r = true)
    by (do 2 apply sall_removeAnnotations; exact Hlb).
  destruct (truncate_feat_before la r Hla Hr) as [-> | [-> ->]]; [reflexivity|].
  rewrite truncate_ft_before; [reflexivity|exact Hla|].
  now apply sall_truncateAt.
Qed.

Lemma createSlug_cuts_at_ft_witness :
  createSlug ("Da" +:+ "ft" +:+ " Punk") = createSlug "Da".
Proof. apply createSlug_cuts_at_ft; reflexivity. Defined.

(** *** The URL lookup *)

Lemma linkLoop_found songTitle artistName links u :
  linkLoop songTitle artistName links (Some u) = Some u.
Proof.
  induction links as [|elem rest IH]; [reflexivity|].
  cbn [linkLoop]. now destruct (linkHref elem).
Qed.

Lemma linkLoop_first songTitle artistName links :
  linkLoop songTitle artistName links None =
  ExtractSpec.firstSome (pickLink songTitle artistName) links.
Proof.
  induction links as [|elem rest IH]; [reflexivity|].
  cbn [linkLoop ExtractSpec.firstSome]. unfold pickLink.
  destruct (linkHref elem) as [h|]; [|exact IH].
  destruct (isEmpty h); cbn [negb andb]; [exact IH|].
  destruct (mentions elem songTitle), (mentions elem artistName);
    cbn [andb orb]; auto using linkLoop_found.
Qed.

(** X15. When the direct page does not exist and the search answers
    without redirecting to a song page, [findSongBPMUrl] returns the
    address of the first link of the search page whose text, or whose
    parent's text, names the song or the artist, and the direct URL when
    there is none. A later link that names both is never preferred to an
    earlier one that names only one of them. *)
Theorem findSongBPMUrl_first_link
    (e : env) (songTitle artistName : string) (direct found : response) :
  fetchHead e (directUrl songTitle artistName) = Some direct ->
  ok direct = false ->
  fetchGet e (site +:+ "/searches?query="
              +:+ encodeURIComponent e (songTitle +:+ " " +:+ artistName))
    = Some found ->
  ok found = true ->
  includes (respUrl found) "/@" = false ->
  findSongBPMUrl e songTitle artistName =
  Returned (default (directUrl songTitle artistName)
              (ExtractSpec.firstSome (pickLink songTitle artistName)
                 (songLinks (respLinks found)))).
Proof.
  intros Hhead Hdirect Hget Hfound Hurl. unfold findSongBPMUrl.
  rewrite Hhead, Hdirect, Hget, Hfound, Hurl, andb_false_r. cbn [negb].
  rewrite linkLoop_first.
  now destruct (ExtractSpec.firstSome _ _).
Qed.

Lemma findSongBPMUrl_first_link_witness :
  findSongBPMUrl searchingEnv "2 Soon" "keshi" =
  Returned "https://songbpm.com/@keshi/other-song".
Proof.
  apply (findSongBPMUrl_first_link searchingEnv "2 Soon" "keshi"
           {| respStatus := 404; respUrl := ""; respLinks := [];
              respDoc := emptyDoc |}
           {| respStatus := 200; respUrl := "https://songbpm.com/searches";
              respLinks := twoLinks; respDoc := emptyDoc |});
    reflexivity.
Defined.

(** *** The loop over the metrics *)

Lemma scanMetrics_past pre post key :
  ExtractSpec.firstSome ExtractSpec.labelledTempo pre = None ->
  Features.scanMetrics (pre ++ post)%list None key =
  Features.scanMetrics post None (snd (Features.scanMetrics pre None key)).
Proof.
  revert key. induction pre as [|elem rest IH]; intros key; [reflexivity|].
  cbn [ExtractSpec.firstSome app Features.scanMetrics].
  unfold ExtractSpec.labelledTempo, ExtractSpec.inRange.
  destruct (Features.numberMatch (trim (ddText elem))) as [value|].
  - replace (value >=? 40)%Z with (40 <=? value)%Z
      by (rewrite Z.geb_leb; reflexivity).
    rewrite <- andb_assoc.
    destruct (Features.isTempoLabel (Features.labelOf elem)
              && ((40 <=? value)%Z && (value <=? 240)%Z)); [discriminate|].
    intros Hrest.
    destruct (includes (Features.labelOf elem) "key" && (value <? 40)%Z);
      [now apply IH|].
    destruct (Features.keyMatch (trim (ddText elem))); [|now apply IH].
    destruct (includes (Features.labelOf elem) "key"); now apply IH.
  - intros Hrest.
    destruct (Features.keyMatch (trim (ddText elem))); [|now apply IH].
    destruct (includes (Features.labelOf elem) "key"); now apply IH.
Qed.

Lemma scanMetrics_at elem post key v :
  ExtractSpec.labelledTempo elem = Some v ->
  Features.scanMetrics (elem :: post) None key = (Some v, key).
Proof.
  cbn [Features.scanMetrics].
  unfold ExtractSpec.labelledTempo, ExtractSpec.inRange.
  destruct (Features.numberMatch (trim (ddText elem))) as [value|];
    [|discriminate].
  replace (value >=? 40)%Z with (40 <=? value)%Z
    by (rewrite Z.geb_leb; reflexivity).
  rewrite <- andb_assoc.
  destruct (Features.isTempoLabel (Features.labelOf elem)
            && ((40 <=? value)%Z && (value <=? 240)%Z)); [|discriminate].
  now intros [= ->].
Qed.

(** X16. The loop of the Express scraper stops at the first labelled
    tempo: the elements after it are never read, and the key it returns
    is the one found among the elements before it. A key that the page
    lists after the tempo is lost. *)
Theorem scanMetrics_stops_at_tempo
    (pre post : list dd) (elem : dd) (v : Z) (key : option string) :
  ExtractSpec.firstSome ExtractSpec.labelledTempo pre = None ->
  ExtractSpec.labelledTempo elem = Some v ->
  Features.scanMetrics (pre ++ elem :: post)%list None key =
  (Some v, snd (Features.scanMetrics pre None key)).
Proof.
  intros Hpre Helem.
  now rewrite (scanMetrics_past _ _ _ Hpre), (scanMetrics_at _ _ _ _ Helem).
Qed.

Lemma scanMetrics_stops_at_tempo_witness :
  Features.scanMetrics
    ([ {| ddText := "3:20"; ddCard := true; ddPrevDt := Some "Duration" |} ]
     ++ {| ddText := "171"; ddCard := true; ddPrevDt := Some "Tempo (BPM)" |}
     :: [ {| ddText := "C#"; ddCard := true; ddPrevDt := Some "Key" |} ])%list
    None None = (Some 171, None).
Proof.
  apply (scanMetrics_stops_at_tempo
           [ {| ddText := "3:20"; ddCard := true; ddPrevDt := Some "Duration" |} ]);
    reflexivity.
Defined.

Lemma keyMatch_valid text k :
  Features.keyMatch text = Some k -> validKey (toUpperCase k) = true.
Proof.
  unfold Features.keyMatch.
  destruct (trim text) as [|a [|b [|c r]]]; try discriminate.
  - unfold Features.isKeyLetter.
    destruct (between 65 71 (upperChar a)) eqn:Ha; [|discriminate].
    intros [= <-]. cbn [toUpperCase smap validKey]. exact Ha.
  - unfold Features.isKeyLetter, Features.isAccidental.
    destruct (between 65 71 (upperChar a)) eqn:Ha; [|discriminate].
    cbn [andb]. destruct (_ || _) eqn:Hb; [|discriminate].
    intros [= <-]. cbn [toUpperCase smap validKey]. rewrite Ha. cbn [andb].
    revert Hb. clear. each_char b.
Qed.

Lemma scanMetrics_key_valid elems bpm key :
  match key with Some k => validKey k = true | None => True end ->
  match snd (Features.scanMetrics elems bpm key) with
  | Some k => validKey k = true
  | None => True
  end.
Proof.
  revert key. induction elems as [|elem rest IH]; intros key Hkey; [exact Hkey|].
  cbn [Features.scanMetrics].
  assert (Hstep :
    match snd
      match Features.keyMatch (trim (ddText elem)) with
      | Some k =>
          if includes (Features.labelOf elem) "key"
          then Features.scanMetrics rest bpm (Some (toUpperCase k))
          else Features.scanMetrics rest bpm key
      | None => Features.scanMetrics rest bpm key
      end
    with Some k => validKey k = true | None => True end).
  { destruct (Features.keyMatch (trim (ddText elem))) as [k|] eqn:Hk;
      [|now apply IH].
    destruct (includes (Features.labelOf elem) "key"); [|now apply IH].
    apply IH. eapply keyMatch_valid, Hk. }
  destruct (Features.numberMatch (trim (ddText elem))) as [value|];
    [|exact Hstep].
  destruct (_ && _ && _); [exact Hkey|].
  destruct (_ && _); [now apply IH|exact Hstep].
Qed.

Lemma scrape_returns_in_range page :
  match Features.scrapeSongBPM page with
  | Returned f =>
      (40 <= Features.bpm f <= 240)%Z
      /\ match Features.key f with
         | Some k => validKey k = true
         | None => True
         end
  | Thrown _ => True
  end.
Proof.
  destruct page as [|status html]; cbn; [exact I|].
  destruct (SongInfo.status2xx status); cbn; [|now destruct (status =? 404)%Z].
  match goal with
  | |- context [Features.scanMetrics ?l None None] =>
      pose proof (ExtractFacts.scanMetrics_bpm l None) as Hscan;
      pose proof (scanMetrics_key_valid l None None I) as Hkey
  end.
  destruct (Features.scanMetrics _ None None) as [b key]. cbn in Hscan, Hkey.
  destruct b as [b|]; [|exact I].
  assert (Hb : (40 <= b <= 240)%Z).
  { eapply ExtractFacts.firstSome_range;
      [apply ExtractFacts.labelledTempo_range|symmetry; exact Hscan]. }
  destruct (Z.eqb_spec b 0); [lia|]. cbn.
  destruct (Z.ltb_spec b 40); [lia|].
  destruct (Z.gtb_spec b 240); [lia|]. cbn.
  destruct (Z.eqb_spec b 0); [lia|]. cbn. auto.
Qed.

Lemma findSongBPMUrl_total e songTitle artistName :
  exists url, findSongBPMUrl e songTitle artistName = Returned url.
Proof.
  unfold findSongBPMUrl.
  repeat match goal with
         | |- context [match ?x with _ => _ end] =>
             lazymatch x with
             | context [match _ with _ => _ end] => fail
             | _ => destruct x eqn:?
             end
         end; eauto.
Qed.

Lemma validKey_shape k : validKey k = true -> keyShape k = true.
Proof.
  destruct k as [|a [|b [|c r]]]; cbn [validKey keyShape]; try discriminate.
  - auto.
  - now intros [Ha _]%andb_true_iff.
Qed.

Lemma keyShape_orElse k : keyShape k = true -> orElse (Some k) "Unknown" = k.
Proof. destruct k; [discriminate|reflexivity]. Qed.

(** [getBPM] always returns, also when a value is an array. *)
Lemma getBPM_returns e (songTitle artistName : queryValue) :
  exists d,
    getBPM e songTitle artistName = Returned d
    /\ tempoInRange (bpm d)
    /\ match key d with
       | Some k => validKey k = true
       | None => True
       end.
Proof.
  unfold getBPM.
  destruct songTitle as [|title|titles], artistName as [|artist|artists];
    try (eexists; repeat split; exact I).
  unfold Express.scrapeSongBPM.
  destruct (findSongBPMUrl_total e title artist) as [url ->].
  pose proof (scrape_returns_in_range (pageOf (fetchGet e url))) as Hscrape.
  destruct (Features.scrapeSongBPM _) as [f|msg].
  - destruct Hscrape as [Hbpm Hkey]. eexists.
    split; [reflexivity|]. split; assumption.
  - eexists. split; [reflexivity|]. split; exact I.
Qed.

(** X17. The route [GET /:id] never answers 500. It answers 400 when the
    track id is missing or blank. Otherwise it answers 200, whatever the
    network does and also when the title or the artist is given several
    times, with a tempo that is a number from 40 to 240 or the text
    "BPM unavailable", and with a key that is "Unknown" or a letter from
    A to G, alone or followed by one accidental sign. *)
Theorem featuresRoute_reply (e : env) (req : request) :
  if isEmpty (trim (orElse (paramId req) ""))
  then featuresRoute e req =
       {| status := 400; payload := ErrorBody "bad_request" "Missing track id" |}
  else status (featuresRoute e req) = 200
       /\ exists t k,
            payload (featuresRoute e req) = FeaturesBody t k
            /\ tempoInRange t
            /\ (k = "Unknown" \/ keyShape k = true).
Proof.
  unfold featuresRoute.
  destruct (isEmpty (trim (orElse (paramId req) ""))); [reflexivity|].
  destruct (getBPM_returns e (valueOrElse (queryTitle req) "Unknown")
              (valueOrElse (queryArtist req) "Unknown"))
    as (d & -> & Hbpm & Hkey).
  cbn [status payload]. split; [reflexivity|].
  do 2 eexists. split; [reflexivity|]. split; [exact Hbpm|].
  destruct (key d) as [k|]; [|now left].
  right. apply validKey_shape in Hkey. now rewrite keyShape_orElse.
Qed.

End ExpressFacts.

(** ** The Express search route *)

Module SearchRouteFacts.
Import Js Eff ExpressSearch SearchRouteSpec.
Import SlugFacts.

Ltac step := unfold tryCatch, bind, ret, throw, get, modify; cbn [fst snd].

Lemma adjacent_step p q a b r :
  adjacent p q (String a (String b r)) = (p a && q b) || adjacent p q (String b r).
Proof. reflexivity. Qed.

Section Spacing.
Variables p q p' q' : ascii -> bool.
Hypothesis space_not_p : p " " = false.
Hypothesis space_not_q : q " " = false.

Lemma spaceBetween_step a b r :
  spaceBetween p' q' (String a (String b r)) =
  if p' a && q' b
  then String a (String " " (String b (spaceBetween p' q' r)))
  else String a (spaceBetween p' q' (String b r)).
Proof. reflexivity. Qed.

Lemma spaceBetween_head a r :
  exists r', spaceBetween p' q' (String a r) = String a r'.
Proof.
  destruct r as [|b r]; cbn; [eauto|]. destruct (p' a && q' b); eauto.
Qed.

(** Putting spaces into a string creates no pair of a [p] character
    followed by a [q] character. *)
Lemma spaceBetween_keeps n s :
  (String.length s <= n)%nat ->
  adjacent p q s = false -> adjacent p q (spaceBetween p' q' s) = false.
Proof.
  revert s. induction n as [|n IH]; intros s Hlen Hadj.
  - destruct s; [reflexivity|cbn in Hlen; lia].
  - destruct s as [|a [|b r]]; try reflexivity.
    rewrite adjacent_step in Hadj. apply orb_false_iff in Hadj as [Hab Hrest].
    rewrite spaceBetween_step. cbn [String.length] in Hlen.
    destruct (p' a && q' b).
    + assert (Hr : adjacent p q (spaceBetween p' q' r) = false).
      { apply IH; [lia|]. destruct r as [|c r]; [reflexivity|].
        rewrite adjacent_step in Hrest. now apply orb_false_iff in Hrest. }
      rewrite !adjacent_step, space_not_p, space_not_q.
      rewrite andb_false_r. cbn [andb orb].
      destruct r as [|c r]; [reflexivity|].
      destruct (spaceBetween_head c r) as [r' Hr'].
      rewrite Hr' in *. rewrite adjacent_step.
      rewrite adjacent_step in Hrest. apply orb_false_iff in Hrest as [Hbc _].
      now rewrite Hbc, Hr.
    + destruct (spaceBetween_head b r) as [r' Hr'].
      assert (Hbr : adjacent p q (spaceBetween p' q' (String b r)) = false)
        by (apply IH; [cbn; lia|exact Hrest]).
      rewrite Hr' in *. rewrite adjacent_step. now rewrite Hab, Hbr.
Qed.

End Spacing.

Section Separation.
Variables p q : ascii -> bool.
Hypothesis space_not_p : p " " = false.
Hypothesis space_not_q : q " " = false.
Hypothesis disjoint : forall c, q c = true -> p c = false.

(** After the replacement, no [p] character is followed at once by a
    [q] character. *)
Lemma spaceBetween_separates n s :
  (String.length s <= n)%nat -> adjacent p q (spaceBetween p q s) = false.
Proof.
  revert s. induction n as [|n IH]; intros s Hlen.
  - destruct s; [reflexivity|cbn in Hlen; lia].
  - destruct s as [|a [|b r]]; try reflexivity.
    rewrite spaceBetween_step. cbn [String.length] in Hlen.
    destruct (p a && q b) eqn:Hab.
    + apply andb_true_iff in Hab as [_ Hqb].
      assert (Hr : adjacent p q (spaceBetween p q r) = false)
        by (apply IH; lia).
      rewrite !adjacent_step, space_not_p, space_not_q, andb_false_r.
      cbn [andb orb].
      destruct r as [|c r]; [reflexivity|].
      destruct (spaceBetween_head p q c r) as [r' Hr'].
      rewrite Hr' in *. rewrite adjacent_step.
      now rewrite (disjoint _ Hqb), Hr.
    + destruct (spaceBetween_head p q b r) as [r' Hr'].
      assert (Hbr : adjacent p q (spaceBetween p q (String b r)) = false)
        by (apply IH; cbn; lia).
      rewrite Hr' in *. rewrite adjacent_step. now rewrite Hab, Hbr.
Qed.

End Separation.

Lemma digit_not_lower c : isLower c = true -> isDigit c = false.
Proof. each_char c. Qed.

Lemma lower_not_digit c : isDigit c = true -> isLower c = false.
Proof. each_char c. Qed.

(** X18. In the normalized query no digit touches a letter of [[a-z]]:
    a space separates every digit from a letter that followed it and every
    letter from a digit that followed it, so that "2soon" is searched as
    "2 soon". *)
Theorem cleanQuery_separates (query : string) :
  adjacent isDigit isLower (cleanQuery query) = false
  /\ adjacent isLower isDigit (cleanQuery query) = false.
Proof.
  unfold cleanQuery. split.
  - eapply (spaceBetween_keeps isDigit isLower isLower isDigit eq_refl eq_refl);
      [apply Nat.le_refl|].
    eapply (spaceBetween_separates isDigit isLower eq_refl eq_refl digit_not_lower).
    apply Nat.le_refl.
  - eapply (spaceBetween_separates isLower isDigit eq_refl eq_refl lower_not_digit).
    apply Nat.le_refl.
Qed.

(** *** The token of the Express route *)

Lemma getAccessToken_cached (e : SpotifyAuth.env) (st : SpotifyAuth.state) :
  tokenStale e st = false ->
  SpotifyAuth.getAccessToken e false st =
  (Returned (SpotifyAuth.cachedToken st), st).
Proof.
  unfold tokenStale, SpotifyAuth.getAccessToken. intros H%negb_false_iff.
  step. cbn [negb andb]. unfold SpotifyAuth.truthyString.
  apply andb_true_iff in H as [H1 H2]. now rewrite H1, H2.
Qed.

Lemma getAccessToken_refresh (e : SpotifyAuth.env) (force : bool)
    (st : SpotifyAuth.state) (res : SpotifyAuth.tokenResponse) :
  force = true \/ tokenStale e st = true ->
  isEmpty (SpotifyAuth.clientId e) = false ->
  isEmpty (SpotifyAuth.clientSecret e) = false ->
  SpotifyAuth.tokenEndpoint e = Some res ->
  SongInfo.status2xx (SpotifyAuth.tokenStatus res) = true ->
  SpotifyAuth.getAccessToken e force st =
  (Returned (SpotifyAuth.access_token res),
   {| SpotifyAuth.cachedToken := SpotifyAuth.access_token res;
      SpotifyAuth.tokenExpiresAt := reuseUntil e res |}).
Proof.
  intros Hwhy Hid Hsecret Hend Hok.
  unfold SpotifyAuth.getAccessToken, reuseUntil. step.
  assert (Hcond : negb force
                  && SpotifyAuth.truthyString (SpotifyAuth.cachedToken st)
                  && (SpotifyAuth.now e <? SpotifyAuth.tokenExpiresAt st)%Z
                  = false).
  { destruct Hwhy as [-> | Hstale]; [reflexivity|].
    unfold tokenStale in Hstale. apply negb_true_iff in Hstale.
    rewrite <- andb_assoc. unfold SpotifyAuth.truthyString.
    rewrite Hstale. apply andb_false_r. }
  rewrite Hcond, Hid, Hsecret, Hend, Hok. reflexivity.
Qed.

Lemma getAccessToken_failure (e : SpotifyAuth.env) (force : bool)
    (st : SpotifyAuth.state) :
  force = true \/ tokenStale e st = true ->
  authFails e = true ->
  exists msg, SpotifyAuth.getAccessToken e force st = (Thrown msg, st).
Proof.
  intros Hwhy Hfail.
  unfold SpotifyAuth.getAccessToken, authFails in *. step.
  assert (Hcond : negb force
                  && SpotifyAuth.truthyString (SpotifyAuth.cachedToken st)
                  && (SpotifyAuth.now e <? SpotifyAuth.tokenExpiresAt st)%Z
                  = false).
  { destruct Hwhy as [-> | Hstale]; [reflexivity|].
    unfold tokenStale in Hstale. apply negb_true_iff in Hstale.
    rewrite <- andb_assoc. unfold SpotifyAuth.truthyString.
    rewrite Hstale. apply andb_false_r. }
  rewrite Hcond.
  destruct (isEmpty (SpotifyAuth.clientId e)
            || isEmpty (SpotifyAuth.clientSecret e)); [eauto|].
  cbn [orb] in Hfail.
  destruct (SpotifyAuth.tokenEndpoint e) as [res|]; [|eauto].
  rewrite Hfail. eauto.
Qed.

(** X19. A token that [getAccessToken] has just fetched is reused by
    every unforced call made earlier than one minute before it expires,
    without any request, whatever the endpoint would answer then. From
    that instant on, and on every forced call, the token is fetched
    again; when that fails the call throws and the cached token stays as
    it was. *)
Theorem getAccessToken_reuse
    (e1 e2 : SpotifyAuth.env) (st : SpotifyAuth.state)
    (res : SpotifyAuth.tokenResponse) (tok : string) :
  isEmpty (SpotifyAuth.clientId e1) = false ->
  isEmpty (SpotifyAuth.clientSecret e1) = false ->
  SpotifyAuth.tokenEndpoint e1 = Some res ->
  SongInfo.status2xx (SpotifyAuth.tokenStatus res) = true ->
  SpotifyAuth.access_token res = Some tok ->
  isEmpty tok = false ->
  let st1 := stateAfter (SpotifyAuth.getAccessToken e1 true) st in
  valueOf (SpotifyAuth.getAccessToken e1 true) st = Returned (Some tok)
  /\ (SpotifyAuth.now e2 < reuseUntil e1 res ->
      SpotifyAuth.getAccessToken e2 false st1 = (Returned (Some tok), st1))
  /\ (forall force,
        force = true \/ reuseUntil e1 res <= SpotifyAuth.now e2 ->
        authFails e2 = true ->
        exists msg, SpotifyAuth.getAccessToken e2 force st1 = (Thrown msg, st1)).
Proof.
  intros Hid Hsecret Hend Hok Htok Hne st1. subst st1.
  unfold valueOf, stateAfter.
  rewrite (getAccessToken_refresh e1 true st res (or_introl eq_refl)
             Hid Hsecret Hend Hok).
  cbn [fst snd]. rewrite Htok. split; [reflexivity|]. split.
  - intros Hearly. rewrite getAccessToken_cached; [reflexivity|].
    unfold tokenStale. cbn. rewrite Hne. cbn.
    apply negb_false_iff, Z.ltb_lt, Hearly.
  - intros force Hwhy Hfail. apply getAccessToken_failure; [|exact Hfail].
    destruct Hwhy as [-> | Hlate]; [now left|right].
    unfold tokenStale. cbn. rewrite Hne. cbn.
    apply negb_true_iff, Z.ltb_ge, Hlate.
Qed.

Lemma getAccessToken_reuse_witness :
  valueOf (SpotifyAuth.getAccessToken (authAt 0 (Some (granted "token" 3600))) true)
          noToken = Returned (Some "token")
  /\ valueOf (SpotifyAuth.getAccessToken (authAt 3539999 None) false)
       (stateAfter (SpotifyAuth.getAccessToken
                      (authAt 0 (Some (granted "token" 3600))) true) noToken)
     = Returned (Some "token")
  /\ exists msg,
       valueOf (SpotifyAuth.getAccessToken (authAt 3540000 None) false)
         (stateAfter (SpotifyAuth.getAccessToken
                        (authAt 0 (Some (granted "token" 3600))) true) noToken)
       = Thrown msg.
Proof.
  destruct (getAccessToken_reuse (authAt 0 (Some (granted "token" 3600)))
              (authAt 3539999 None) noToken (granted "token" 3600) "token")
    as (Hfirst & Hreuse & _); try reflexivity.
  destruct (getAccessToken_reuse (authAt 0 (Some (granted "token" 3600)))
              (authAt 3540000 None) noToken (granted "token" 3600) "token")
    as (_ & _ & Hfail); try reflexivity.
  split; [exact Hfirst|]. split.
  - unfold valueOf. rewrite Hreuse; [reflexivity|reflexivity].
  - destruct (Hfail false) as [msg Hmsg].
    + right. vm_compute. discriminate.
    + reflexivity.
    + exists msg. unfold valueOf. now rewrite Hmsg.
Defined.

(** *** The route *)

Lemma searchSpotifyAPI_total e query st :
  exists r st', searchSpotifyAPI e query st = (Returned r, st').
Proof.
  unfold searchSpotifyAPI. step.
  destruct (SpotifyAuth.getAccessToken (auth e) false st) as [[token|msg] st'];
    [|eauto].
  destruct (catalog e (searchUrl e query) token) as [response|]; [|eauto].
  destruct (negb _); eauto.
Qed.

Lemma searchSpotifyAPI_auth_failure e query st :
  tokenStale (auth e) st = true -> authFails (auth e) = true ->
  searchSpotifyAPI e query st = (Returned None, st).
Proof.
  intros Hstale Hfail. unfold searchSpotifyAPI. step.
  destruct (getAccessToken_failure (auth e) false st (or_intror Hstale) Hfail)
    as [msg ->].
  reflexivity.
Qed.

Lemma parseSongQuery_total e query st :
  exists p st', parseSongQuery e query st = (Returned p, st').
Proof.
  unfold parseSongQuery.
  destruct (splitAt " - " _ _); [unfold ret; eauto|].
  destruct (splitAt " by " _ _); [unfold ret; eauto|].
  step.
  destruct (searchSpotifyAPI_total e (cleanQuery query) st) as (r & st' & ->).
  destruct r; eauto.
Qed.

(** X20. The route [GET /] never raises. It answers 500 when the
    query is given several times, 400 when it is missing or blank, and 200
    with exactly one result otherwise. When the query has no separator
    and the token cannot be obtained, the result is the "not found"
    placeholder that carries the normalized query, and the cached token is
    left as it was. *)
Theorem searchRoute_reply
    (e : env) (queryParam : queryValue) (st : SpotifyAuth.state) :
  exists r,
    valueOf (searchRoute e queryParam) st = Returned r
    /\ match queryParam with
       | Several _ =>
           status r = 500 /\ stateAfter (searchRoute e queryParam) st = st
       | _ =>
           if SongInfo.truthyString (trimmed queryParam)
           then status r = 200
                /\ exists p, payload r = Results [p]
                   /\ (noSeparator (cleanQuery (default "" (trimmed queryParam)))
                       = true ->
                       tokenStale (auth e) st = true ->
                       authFails (auth e) = true ->
                       p = NotFound
                             (cleanQuery (default "" (trimmed queryParam)))
                             (SpotifyAuth.now (auth e))
                       /\ stateAfter (searchRoute e queryParam) st = st)
           else status r = 400
       end.
Proof.
  assert (Hget : forall query : option string,
    exists r,
      valueOf (searchRoute e match query with
                             | Some s => Text s
                             | None => Absent
                             end) st = Returned r
      /\ (if SongInfo.truthyString (option_map trim query)
          then status r = 200
               /\ exists p, payload r = Results [p]
                  /\ (noSeparator (cleanQuery (default "" (option_map trim query)))
                      = true ->
                      tokenStale (auth e) st = true ->
                      authFails (auth e) = true ->
                      p = NotFound
                            (cleanQuery (default "" (option_map trim query)))
                            (SpotifyAuth.now (auth e))
                      /\ stateAfter (searchRoute e match query with
                                                   | Some s => Text s
                                                   | None => Absent
                                                   end) st = st)
          else status r = 400)).
  { intros query. unfold valueOf, stateAfter, searchRoute.
    assert (Hq : match query with
                 | Some s => ret (Some (trim s))
                 | None => ret None
                 end = (ret (option_map trim query)
                        : M SpotifyAuth.state (option string)))
      by now destruct query.
    destruct query as [s|]; cbn [option_map] in *; step.
    2: { eexists; split; reflexivity. }
    destruct (SongInfo.truthyString (Some (trim s)));
      [|eexists; split; reflexivity].
    change (default "" (Some (trim s))) with (trim s).
    destruct (parseSongQuery_total e (trim s) st) as (p & st' & Hrun).
    rewrite Hrun. cbn [fst snd]. eexists. split; [reflexivity|].
    split; [reflexivity|]. exists p. split; [reflexivity|].
    intros Hsep Hstale Hfail. revert Hrun.
    unfold parseSongQuery, noSeparator in *. unfold splitAt.
    destruct (afterSep " - " (cleanQuery (trim s))); [discriminate|].
    destruct (afterSep " by " (cleanQuery (trim s))); [discriminate|].
    step. rewrite (searchSpotifyAPI_auth_failure _ _ _ Hstale Hfail).
    intros [= <- <-]. auto. }
  destruct queryParam as [|s|values].
  - exact (Hget None).
  - exact (Hget (Some s)).
  - eexists. repeat split.
Qed.

Lemma searchRoute_reply_witness :
  exists r,
    valueOf (searchRoute noCredentials (Text " 2soonkeshi ")) noToken = Returned r
    /\ status r = 200
    /\ payload r = Results [NotFound "2 soonkeshi" 0].
Proof.
  destruct (searchRoute_reply noCredentials (Text " 2soonkeshi ") noToken)
    as (r & Hrun & Hrest).
  cbn in Hrest. destruct Hrest as (Hst & p & Hp & Hnone).
  destruct Hnone as [-> _]; [reflexivity..|].
  exists r. repeat split; assumption.
Defined.

End SearchRouteFacts.

(** ** More on the scoring and on the search function *)

Module SearchExtra.
Import Js Eff Search.
Local Open Scope float_scope.

Lemma bestStep_member query best l :
  In (fst (fold_left (bestStep query) l best)) (fst best :: l).
Proof.
  revert best. induction l as [|t rest IH]; intros best.
  - now left.
  - cbn [fold_left]. unfold bestStep at 2.
    destruct (gtb (scoreOf query t) (snd best)).
    + specialize (IH (t, scoreOf query t)). cbn [fst] in *.
      destruct IH as [<- | Hin]; [right; now left|right; now right].
    + specialize (IH best).
      destruct IH as [<- | Hin]; [now left|right; now right].
Qed.

Lemma morePopular_member l first :
  In (fold_left morePopular l first) (first :: l).
Proof.
  revert first. induction l as [|t rest IH]; intros first; [now left|].
  cbn [fold_left]. unfold morePopular at 2.
  destruct (gtb (popularity t) (popularity first)).
  - destruct (IH t) as [<- | Hin]; [right; now left|right; now right].
  - destruct (IH first) as [<- | Hin]; [now left|right; now right].
Qed.

(** X21. The track that the adapter chooses is always one of the tracks
    of the answer; [selectTrack] returns null for an empty answer and a
    result for every other answer. *)
Theorem chooseTrack_member
    (query : string) (first : track) (others : list track) :
  In (fst (chooseTrack query first others)) (first :: others)
  /\ selectTrack query [] = None
  /\ exists r, selectTrack query (first :: others) = Some r.
Proof.
  split; [|split; [reflexivity|]].
  - unfold chooseTrack.
    pose proof (bestStep_member query (first, (-1)%float) (first :: others))
      as Hbest.
    destruct (fold_left (bestStep query) (first :: others) (first, (-1)%float))
      as [bestTrack bestScore].
    cbn [fst] in Hbest.
    assert (Hin : In bestTrack (first :: others))
      by (destruct Hbest as [<- | Hb]; [now left|exact Hb]).
    pose proof (morePopular_member others first) as Hpop.
    destruct (_ && _); [|exact Hin].
    destruct (geb _ _); [exact Hpop|exact Hin].
  - cbn [selectTrack]. destruct (chooseTrack query first others). eauto.
Qed.

(** X26. The rule for a winner of low confidence, on the scores as the
    code computes them in doubles. Take a non-empty answer whose
    top-scored track [t] scores more than -1, the score the loop starts
    from, and let [m] be its most popular track. If [t] has a popularity
    below 30 and a score below 40, the adapter returns [m] when the
    popularity of [m] is at least 60 and [t] otherwise; in every other
    case it returns [t]. In particular, when [t] has popularity 5 and
    score 20 and the most popular track has popularity 85, that track is
    returned, with confidence "medium". *)
Theorem low_confidence_override
    (query : string) (first : track) (others : list track) (t m : track) :
  SearchSpec.topScored query (first :: others) t ->
  gtb (scoreOf query t) (-1)%float = true ->
  SearchSpec.mostPopular (first :: others) m ->
  fst (chooseTrack query first others) = SearchSpec.overrideRule query t m
  /\ (popularity t = 5%float -> scoreOf query t = 20%float ->
      popularity m = 85%float ->
      selectTrack query (first :: others) = Some (resultOf m medium)).
Proof.
  intros (before & after & Heq & Hbefore & Hafter) Hscore Hpop.
  assert (Hchoose :
    chooseTrack query first others =
    if (popularity t <? 30)%float && (scoreOf query t <? 40)%float
    then if geb (popularity m) 60%float then (m, medium)
         else (t, if gtb (scoreOf query t) 50 then high else medium)
    else (t, if gtb (scoreOf query t) 50 then high else medium)).
  { unfold chooseTrack. rewrite Heq.
    rewrite (SearchFacts.best_found query before t after first (-1)%float
               Hscore Hbefore Hafter).
    rewrite (SearchFacts.reduce_mostPopular _ _ _ Hpop). reflexivity. }
  split.
  - rewrite Hchoose. unfold SearchSpec.overrideRule.
    destruct ((popularity t <? 30)%float && (scoreOf query t <? 40)%float);
      [destruct (geb (popularity m) 60%float)|]; reflexivity.
  - intros Ht Hs Hm. unfold selectTrack. rewrite Hchoose, Ht, Hm, Hs.
    reflexivity.
Qed.

Lemma low_confidence_override_witness :
  fst (chooseTrack "ab cd" SearchSpec.obscure [SearchSpec.hit]) =
    SearchSpec.overrideRule "ab cd" SearchSpec.obscure SearchSpec.hit
  /\ selectTrack "ab cd" [SearchSpec.obscure; SearchSpec.hit] =
     Some (resultOf SearchSpec.hit medium).
Proof.
  destruct (low_confidence_override "ab cd" SearchSpec.obscure
              [SearchSpec.hit] SearchSpec.obscure SearchSpec.hit)
    as [Hrule Hscenario].
  - exists [], [SearchSpec.hit]. split; [reflexivity|]. split; [constructor|].
    constructor; [reflexivity|constructor].
  - reflexivity.
  - exists [SearchSpec.obscure], []. split; [reflexivity|].
    split; [|constructor]. constructor; [|constructor]. reflexivity.
  - split; [exact Hrule|]. apply Hscenario; reflexivity.
Defined.

End SearchExtra.

Module SpotifyExtra.
Import Js Eff SpotifySearch SpotifySpec TokenSpec.

Ltac step := unfold tryCatch, bind, ret, throw, get, modify; cbn [fst snd].

Lemma getSpotifyToken_cached e st :
  tokenStale e st = false -> getSpotifyToken e st = (Returned (cachedToken st), st).
Proof.
  unfold tokenStale, getSpotifyToken. intros H%negb_false_iff. step.
  now rewrite H.
Qed.

Lemma getSpotifyToken_refresh e st status tok expires :
  tokenStale e st = true ->
  truthyString (clientId e) = true -> truthyString (clientSecret e) = true ->
  tokenEndpoint e = TokenResponse status tok expires ->
  SongInfo.status2xx status = true ->
  getSpotifyToken e st =
  (Returned tok,
   {| cachedToken := tok; tokenExpiresAt := reuseUntil e expires |}).
Proof.
  unfold tokenStale, getSpotifyToken, reuseUntil.
  intros Hstale%negb_true_iff Hid Hsecret Hend Hok. step.
  rewrite Hstale, Hid, Hsecret, Hend, Hok. cbn.
  destruct expires as [n|]; [destruct (n =? 0)%Z|]; reflexivity.
Qed.

Lemma getSpotifyToken_failure e st :
  tokenStale e st = true -> authFails e = true ->
  exists msg, getSpotifyToken e st = (Thrown msg, st).
Proof.
  unfold tokenStale, authFails, getSpotifyToken.
  intros Hstale%negb_true_iff Hfail. step. rewrite Hstale.
  destruct (negb (truthyString (clientId e))
            || negb (truthyString (clientSecret e))); [eauto|].
  cbn [orb] in Hfail.
  destruct (tokenEndpoint e) as [|status tok expires]; [eauto|].
  apply negb_true_iff in Hfail. rewrite Hfail. eauto.
Qed.

(** X22. A token that [getSpotifyToken] has just fetched is reused by
    every call made earlier than one minute before it expires, without
    any request; an advertised lifetime of zero counts as an hour. From
    that instant on the token is fetched again, and when that fails the
    call throws and the cached token stays as it was. *)
Theorem getSpotifyToken_reuse
    (e1 e2 : env) (st : state) (status : Z) (tok : string) (expires : option Z) :
  tokenStale e1 st = true ->
  truthyString (clientId e1) = true -> truthyString (clientSecret e1) = true ->
  tokenEndpoint e1 = TokenResponse status (Some tok) expires ->
  SongInfo.status2xx status = true ->
  isEmpty tok = false ->
  let st1 := stateAfter (getSpotifyToken e1) st in
  valueOf (getSpotifyToken e1) st = Returned (Some tok)
  /\ (now e2 < reuseUntil e1 expires ->
      getSpotifyToken e2 st1 = (Returned (Some tok), st1))
  /\ (reuseUntil e1 expires <= now e2 -> authFails e2 = true ->
      exists msg, getSpotifyToken e2 st1 = (Thrown msg, st1)).
Proof.
  intros Hstale Hid Hsecret Hend Hok Hne st1. subst st1.
  unfold valueOf, stateAfter.
  rewrite (getSpotifyToken_refresh e1 st status (Some tok) expires
             Hstale Hid Hsecret Hend Hok).
  cbn [fst snd]. split; [reflexivity|]. split.
  - intros Hearly. rewrite getSpotifyToken_cached; [reflexivity|].
    unfold tokenStale, truthyString. cbn. rewrite Hne. cbn.
    apply negb_false_iff, Z.ltb_lt, Hearly.
  - intros Hlate Hfail. apply getSpotifyToken_failure; [|exact Hfail].
    unfold tokenStale, truthyString. cbn. rewrite Hne. cbn.
    apply negb_true_iff, Z.ltb_ge, Hlate.
Qed.

Lemma getSpotifyToken_reuse_witness :
  valueOf (getSpotifyToken (envAt 0 (TokenResponse 200 (Some "token") (Some 0))))
          coldState = Returned (Some "token")
  /\ getSpotifyToken (envAt 3539999 TokenNetworkError)
       (stateAfter (getSpotifyToken
                      (envAt 0 (TokenResponse 200 (Some "token") (Some 0))))
                   coldState)
     = (Returned (Some "token"),
        stateAfter (getSpotifyToken
                      (envAt 0 (TokenResponse 200 (Some "token") (Some 0))))
                   coldState).
Proof.
  destruct (getSpotifyToken_reuse
              (envAt 0 (TokenResponse 200 (Some "token") (Some 0)))
              (envAt 3539999 TokenNetworkError) coldState 200 "token" (Some 0))
    as (Hfirst & Hreuse & _); try reflexivity.
  split; [exact Hfirst|]. apply Hreuse. reflexivity.
Defined.

(** X23. The handler of the search function never answers 500. It
    answers 200 to OPTIONS, 405 to any method other than GET and OPTIONS,
    400 to a GET without a query or with an empty one, and 200 to every
    other GET, whatever the credentials, the token endpoint and the
    catalog do. *)
Theorem search_handler_status (e : env) (req : request) (st : state) :
  exists resp,
    valueOf (handler e req) st = Returned resp
    /\ status resp = expectedStatus req.
Proof.
  unfold valueOf, handler, expectedStatus.
  destruct (reqMethod req); [|eexists; split; reflexivity..].
  destruct (truthyString (queryParam req)); [|eexists; split; reflexivity].
  pose proof (SpotifyFacts.searchSpotify_total e (default "" (queryParam req)) st)
    as Htotal.
  unfold valueOf in Htotal. step.
  destruct (searchSpotify e (default "" (queryParam req)) st) as [[[f|]|msg] st'];
    cbn in Htotal |- *; try discriminate; eexists; split; reflexivity.
Qed.

End SpotifyExtra.

Module EdgeFacts.
Import Js Html Eff SongInfo EdgeSpec.

Lemma startsWith_nil s : startsWith s "" = true.
Proof. now destruct s. Qed.

Lemma includes_nil s : includes s "" = true.
Proof. destruct s; cbn [includes]; now rewrite startsWith_nil. Qed.

Lemma includes_nonempty h c r : includes h (String c r) = true -> isEmpty h = false.
Proof. destruct h; [discriminate|reflexivity]. Qed.

(** X24. When the title normalizes to the empty string, as "???" does,
    the fallback of [fetchSongInfo] takes the first link of the artist
    page that leads into the artist's namespace, whatever song it is. *)
Theorem findSongUrl_empty_title (artistSlug : string) (links : list anchor) :
  findSongUrl artistSlug "" links =
  ExtractSpec.firstSome (namespaceLink artistSlug) links.
Proof.
  induction links as [|a rest IH]; [reflexivity|].
  cbn [findSongUrl ExtractSpec.firstSome]. unfold namespaceLink.
  destruct (href a) as [h|]; [|exact IH].
  destruct (includes h ("/@" +:+ artistSlug +:+ "/")) eqn:Hin; [|exact IH].
  rewrite includes_nil. cbn [orb].
  change ("/@" +:+ artistSlug +:+ "/")
    with (String "/" (String "@" (artistSlug +:+ "/"))) in Hin.
  rewrite (includes_nonempty _ _ _ Hin). reflexivity.
Qed.

End EdgeFacts.
